(** * Loss functions of youtube-8m-simnet/losses.py

    A shallow embedding of the six loss classes of [losses.py] and of the
    TensorFlow operations they are written with.

    Conventions of the embedding.
    - A float32 scalar is idealised as a real number ([R]): rounding is
      left out.  The values a float can take outside the reals (the
      infinities and NaN) are the outcome [Err NonFinite]: a logarithm of
      a number that is not positive, a division by zero, the mean of no
      number.  Such a value, once produced inside a loss with at least one
      class, always reaches the returned loss as a non finite value, so
      stopping at its first appearance loses nothing.  A float32 softmax
      output can moreover be rounded to 0, which the reals do not show:
      the properties that need the logarithm of the softmax to be finite
      are stated for predictions that keep every softmax output at or
      above [exp (-87)] (see [softmax_spread]).
    - A tensor of rank n is a list nested n times, outermost axis first.
    - A TensorFlow failure (incompatible shapes, an index out of range) is
      the outcome [Err _]; [calculate_loss] stands for the value obtained
      when the tensor it returns is evaluated.
    - The process wide [FLAGS] are an explicit record argument, and the
      random source of [tf.random_uniform] is an explicit state. *)

From Stdlib Require Import Reals Lra Lia List ZArith Bool PeanoNat.
Import ListNotations.

Open Scope R_scope.

(** ** Outcomes *)

Inductive error : Type :=
| NotImplementedError
| ShapeError
| InvalidArgumentError
| TypeError
| NonFinite.

Inductive result (A : Type) : Type :=
| Ok (a : A)
| Err (e : error).

Arguments Ok {A} a.
Arguments Err {A} e.

Definition bind {A B : Type} (c : result A) (k : A -> result B) : result B :=
  match c with
  | Ok a => k a
  | Err e => Err e
  end.

Notation "x <- c ;; k" := (bind c (fun x => k))
  (at level 61, c at next level, right associativity).

Fixpoint mapM {A B : Type} (f : A -> result B) (l : list A) : result (list B) :=
  match l with
  | [] => Ok []
  | x :: t => y <- f x ;; ys <- mapM f t ;; Ok (y :: ys)
  end.

Fixpoint zipWithM {A B C : Type} (f : A -> B -> result C)
         (xs : list A) (ys : list B) : result (list C) :=
  match xs, ys with
  | [], [] => Ok []
  | x :: xs', y :: ys' => z <- f x y ;; zs <- zipWithM f xs' ys' ;; Ok (z :: zs)
  | _, _ => Err ShapeError
  end.

(** ** Tensors *)

Definition Tensor1 : Type := list R.
Definition Tensor2 : Type := list (list R).
Definition Tensor3 : Type := list (list (list R)).

(** Broadcasting along one axis, as TensorFlow does between two tensors of
    the same rank: equal extents are paired, an extent of 1 is repeated,
    anything else is a shape error. *)
Definition broadcast {A B C : Type} (f : A -> B -> result C)
           (xs : list A) (ys : list B) : result (list C) :=
  if Nat.eqb (length xs) (length ys) then zipWithM f xs ys
  else match xs, ys with
       | [x], _ => mapM (f x) ys
       | _, [y] => mapM (fun x => f x y) xs
       | _, _ => Err ShapeError
       end.

Definition pure2 {A B C : Type} (f : A -> B -> C) (x : A) (y : B) : result C :=
  Ok (f x y).

Definition elementwise2 {A B C : Type} (f : A -> B -> C)
  : list (list A) -> list (list B) -> result (list (list C)) :=
  broadcast (broadcast (pure2 f)).

Definition elementwise3 {A B C : Type} (f : A -> B -> C)
  : list (list (list A)) -> list (list (list B)) -> result (list (list (list C))) :=
  broadcast (broadcast (broadcast (pure2 f))).

(** Operators between a tensor and a Python scalar. *)
Definition scalar_add2 (t : Tensor2) (c : R) : Tensor2 := map (map (fun x => x + c)) t.
Definition scalar_sub2 (t : Tensor2) (c : R) : Tensor2 := map (map (fun x => x - c)) t.
Definition scalar_rsub2 (c : R) (t : Tensor2) : Tensor2 := map (map (fun x => c - x)) t.
Definition scalar_mul2 (c : R) (t : Tensor2) : Tensor2 := map (map (fun x => c * x)) t.
Definition scalar_maximum2 (t : Tensor2) (c : R) : Tensor2 := map (map (fun x => Rmax x c)) t.
Definition scalar_rsub3 (c : R) (t : Tensor3) : Tensor3 :=
  map (map (map (fun x => c - x))) t.
Definition scalar_rmaximum3 (c : R) (t : Tensor3) : Tensor3 :=
  map (map (map (fun x => Rmax c x))) t.

(** Operators between tensors. *)
Definition tf_add : Tensor2 -> Tensor2 -> result Tensor2 := elementwise2 Rplus.
Definition tf_subtract : Tensor2 -> Tensor2 -> result Tensor2 := elementwise2 Rminus.
Definition tf_multiply : Tensor2 -> Tensor2 -> result Tensor2 := elementwise2 Rmult.
Definition tf_maximum : Tensor2 -> Tensor2 -> result Tensor2 := elementwise2 Rmax.
Definition tf_add3 : Tensor3 -> Tensor3 -> result Tensor3 := elementwise3 Rplus.
Definition tf_multiply3 : Tensor3 -> Tensor3 -> result Tensor3 := elementwise3 Rmult.
Definition tf_scalar_mul : R -> Tensor2 -> Tensor2 := scalar_mul2.

Definition tf_negative (t : Tensor2) : Tensor2 := map (map Ropp) t.
Definition tf_negative1 (t : Tensor1) : Tensor1 := map Ropp t.

(** [a > b] on tensors, and the cast of its boolean result to float32. *)
Definition Rgtb (x y : R) : bool := if Rlt_dec y x then true else false.
Definition tf_greater : Tensor2 -> Tensor2 -> result (list (list bool)) :=
  elementwise2 Rgtb.
Definition tf_cast_bool_float32 (t : list (list bool)) : Tensor2 :=
  map (map (fun b : bool => if b then 1 else 0)) t.

(** [tf.cast(labels, tf.float32)]: the entries are already reals here. *)
Definition tf_cast_float32 (t : Tensor2) : Tensor2 := t.

(** [tf.cast(labels, tf.int32)] rounds toward zero; a value that does not
    fit in 32 bits is converted to the least int32. *)
Definition truncate (x : R) : Z :=
  let z := if Rle_dec 0 x then Int_part x else (- Int_part (- x))%Z in
  if ((-2147483648 <=? z) && (z <=? 2147483647))%Z then z else (-2147483648)%Z.
Definition tf_cast_int32 (t : Tensor2) : list (list Z) := map (map truncate) t.

(** [tf.stop_gradient] does nothing to the value. *)
Definition tf_stop_gradient (t : Tensor2) : Tensor2 := t.

(** [tf.log]: minus infinity at 0 and NaN below it. *)
Definition log_scalar (x : R) : result R :=
  if Rlt_dec 0 x then Ok (ln x) else Err NonFinite.

Definition tf_log (t : Tensor2) : result Tensor2 := mapM (mapM log_scalar) t.

(** [tf.div]: a zero divisor gives an infinity or NaN. *)
Definition div_scalar (x y : R) : result R :=
  if Req_dec_T y 0 then Err NonFinite else Ok (x / y).

Definition tf_div : Tensor2 -> Tensor2 -> result Tensor2 :=
  broadcast (broadcast div_scalar).

Definition sum (l : list R) : R := fold_right Rplus 0 l.

(** [tf.reduce_sum(t, 1)], with and without [keep_dims]. *)
Definition tf_reduce_sum_1 (t : Tensor2) : Tensor1 := map sum t.
Definition tf_reduce_sum_1_keep_dims (t : Tensor2) : Tensor2 := map (fun r => [sum r]) t.

(** [tf.reduce_sum(t, [1,2])] *)
Definition tf_reduce_sum_12 (t : Tensor3) : Tensor1 := map (fun m => sum (map sum m)) t.

(** [tf.reduce_mean] of a vector; the mean of no element is NaN. *)
Definition tf_reduce_mean (v : Tensor1) : result R :=
  match v with
  | [] => Err NonFinite
  | _ => Ok (sum v / INR (length v))
  end.

(** The least element of a row; [tf.reduce_min] of no element is an
    infinity, which arises here only when there is no class at all. *)
Fixpoint min_list (l : list R) : result R :=
  match l with
  | [] => Err NonFinite
  | [x] => Ok x
  | x :: t => m <- min_list t ;; Ok (Rmin x m)
  end.

(** [tf.reduce_min(t, axis=1, keep_dims=True)] *)
Definition tf_reduce_min_1_keep_dims (t : Tensor2) : result Tensor2 :=
  mapM (fun r => m <- min_list r ;; Ok [m]) t.

(** [tf.zeros(tf.shape(t))] and [tf.ones(tf.shape(t))] *)
Definition tf_shape (t : Tensor2) : nat * nat :=
  (length t, match t with [] => O | r :: _ => length r end).
Definition tf_fill (shape : nat * nat) (c : R) : Tensor2 :=
  repeat (repeat c (snd shape)) (fst shape).
Definition tf_zeros (shape : nat * nat) : Tensor2 := tf_fill shape 0.
Definition tf_ones (shape : nat * nat) : Tensor2 := tf_fill shape 1.

(** [tf.expand_dims(t, axis=2)] and [tf.expand_dims(t, axis=1)] *)
Definition tf_expand_dims_2 (t : Tensor2) : Tensor3 := map (map (fun x => [x])) t.
Definition tf_expand_dims_1 (t : Tensor2) : Tensor3 := map (fun r => [r]) t.

(** The inner product of two vectors of one length. *)
Definition dot (u v : Tensor1) : result R :=
  if Nat.eqb (length u) (length v) then Ok (sum (map (fun p => fst p * snd p) (combine u v)))
  else Err ShapeError.

(** [tf.einsum("ik,jk->ij", a, b)] *)
Definition einsum_ik_jk_ij (a b : Tensor2) : result Tensor2 :=
  mapM (fun a_i => mapM (fun b_j => dot a_i b_j) b) a.

(** [tf.einsum("ik,ijk->ij", a, t)] *)
Definition einsum_ik_ijk_ij (a : Tensor2) (t : Tensor3) : result Tensor2 :=
  zipWithM (fun a_i t_i => mapM (fun t_ij => dot a_i t_ij) t_i) a t.

(** [tf.einsum("ij,ik->ijk", a, b)] *)
Definition einsum_ij_ik_ijk (a b : Tensor2) : result Tensor3 :=
  zipWithM (fun a_i b_i => Ok (map (fun x => map (fun y => x * y) b_i) a_i)) a b.

(** [tf.nn.l2_normalize] along the last axis:
    [x * rsqrt(max(sum(x ** 2), 1e-12))]. *)
Definition l2_normalize_row (r : Tensor1) : Tensor1 :=
  let square_sum := sum (map (fun x => x * x) r) in
  map (fun x => x * / sqrt (Rmax square_sum 1e-12)) r.
Definition tf_l2_normalize_dim1 (t : Tensor2) : Tensor2 := map l2_normalize_row t.
Definition tf_l2_normalize_dim2 (t : Tensor3) : Tensor3 := map (map l2_normalize_row) t.

(** [tf.nn.softmax] along the last axis, over the reals: every output is
    positive.  In float32 an output whose prediction lies far below the
    largest of its row is rounded to 0, see [softmax_spread]. *)
Definition softmax_row (r : Tensor1) : Tensor1 :=
  let e := map exp r in map (fun x => x / sum e) e.
Definition tf_softmax (t : Tensor2) : Tensor2 := map softmax_row t.

(** [tf.unstack(t, num=n, axis=0)] *)
Definition tf_unstack {A : Type} (t : list A) (num : nat) : result (list A) :=
  if Nat.eqb (length t) num then Ok t else Err ShapeError.

(** [tf.where] of a boolean vector: the coordinates of its true entries,
    one row each. *)
Fixpoint where_from (i : nat) (l : list bool) : list (list nat) :=
  match l with
  | [] => []
  | b :: t => (if b then [[i]] else []) ++ where_from (S i) t
  end.
Definition tf_where (l : list bool) : list (list nat) := where_from 0 l.

(** [indices[:,0]] *)
Definition column0 (t : list (list nat)) : list nat := map (fun c => hd O c) t.

(** [tf.tile(v, [n])] *)
Definition tf_tile {A : Type} (v : list A) (n : nat) : list A := concat (repeat v n).

(** The random source: a stream of raw draws and the number consumed. *)
Record Rng : Type := { raw : nat -> nat; cursor : nat }.

(** [tf.random_uniform([n], minval, maxval, dtype=tf.int32)]; the kernel
    returns at once when no value is asked for, and otherwise rejects an
    empty range. *)
Definition tf_random_uniform (n minval maxval : nat) (g : Rng)
  : result (list nat * Rng) :=
  if Nat.eqb n 0 then Ok ([], g)
  else if Nat.leb maxval minval then Err InvalidArgumentError
  else Ok (map (fun k => (minval + raw g (cursor g + k) mod (maxval - minval))%nat) (seq 0 n),
           {| raw := raw g; cursor := (cursor g + n)%nat |}).

(** [tf.gather(params, indices)], which on a CPU fails on an index out of
    range. *)
Definition gather_one {A : Type} (params : list A) (i : nat) : result A :=
  match nth_error params i with
  | Some x => Ok x
  | None => Err InvalidArgumentError
  end.
Definition tf_gather {A : Type} (params : list A) (indices : list nat) : result (list A) :=
  mapM (gather_one params) indices.

(** What [tf.stack] makes of a Python list of rows of class ids: an int32
    matrix, or, when the list is empty and no row gives a dtype, an empty
    float32 tensor. *)
Inductive StackedIds : Type :=
| Int32Ids (rows : list (list nat))
| Float32Empty.

(** [tf.stack] of the rows of a Python list. *)
Definition tf_stack (rows : list (list nat)) : StackedIds :=
  match rows with
  | [] => Float32Empty
  | _ => Int32Ids rows
  end.

(** [tf.nn.embedding_lookup(params, ids)] for a matrix of ids; ids that
    are not integers are a type error. *)
Definition tf_embedding_lookup (params : Tensor2) (ids : StackedIds) : result Tensor3 :=
  match ids with
  | Int32Ids rows => mapM (tf_gather params) rows
  | Float32Empty => Err TypeError
  end.

(** A keyword argument with a default value. *)
Definition keyword (default : R) (given : option R) : R :=
  match given with
  | Some v => v
  | None => default
  end.

(** ** FLAGS *)

Record Flags : Type := {
  false_negative_punishment : R;
  false_positive_punishment : R;
  num_classes : nat;
  batch_size : nat
}.

(** The defaults of the three flags this file defines; [batch_size] is
    defined by the training script. *)
Definition default_FLAGS (batch : nat) : Flags :=
  {| false_negative_punishment := 1.0;
     false_positive_punishment := 1.0;
     num_classes := 4716;
     batch_size := batch |}.

(** ** WeightedCrossEntropyLoss and CrossEntropyLoss *)

Definition WeightedCrossEntropyLoss_calculate_loss
           (FLAGS : Flags) (predictions labels : Tensor2) : result R :=
  let false_positive_punishment := false_positive_punishment FLAGS in
  let false_negative_punishment := false_negative_punishment FLAGS in
  let epsilon := 10e-6 in
  let float_labels := tf_cast_float32 labels in
  log_pos <- tf_log (scalar_add2 predictions epsilon) ;;
  term_pos <- tf_multiply (scalar_mul2 false_negative_punishment float_labels) log_pos ;;
  log_neg <- tf_log (scalar_add2 (scalar_rsub2 1 predictions) epsilon) ;;
  term_neg <- tf_multiply (scalar_mul2 false_positive_punishment
                                       (scalar_rsub2 1 float_labels)) log_neg ;;
  cross_entropy_loss <- tf_add term_pos term_neg ;;
  let cross_entropy_loss := tf_negative cross_entropy_loss in
  tf_reduce_mean (tf_reduce_sum_1 cross_entropy_loss).

Definition CrossEntropyLoss_calculate_loss
           (predictions labels : Tensor2) : result R :=
  let epsilon := 10e-6 in
  let float_labels := tf_cast_float32 labels in
  log_pos <- tf_log (scalar_add2 predictions epsilon) ;;
  term_pos <- tf_multiply float_labels log_pos ;;
  log_neg <- tf_log (scalar_add2 (scalar_rsub2 1 predictions) epsilon) ;;
  term_neg <- tf_multiply (scalar_rsub2 1 float_labels) log_neg ;;
  cross_entropy_loss <- tf_add term_pos term_neg ;;
  let cross_entropy_loss := tf_negative cross_entropy_loss in
  tf_reduce_mean (tf_reduce_sum_1 cross_entropy_loss).


(** ** HingeLoss *)

Definition HingeLoss_calculate_loss
           (predictions labels : Tensor2) (b : option R) : result R :=
  let b := keyword 1.0 b in
  let float_labels := tf_cast_float32 labels in
  let all_zeros := tf_zeros (tf_shape float_labels) in
  let all_ones := tf_ones (tf_shape float_labels) in
  sign_labels <- tf_subtract (tf_scalar_mul 2 float_labels) all_ones ;;
  signed_predictions <- tf_multiply sign_labels predictions ;;
  margins <- tf_subtract (tf_scalar_mul b all_ones) signed_predictions ;;
  hinge_loss <- tf_maximum all_zeros margins ;;
  tf_reduce_mean (tf_reduce_sum_1 hinge_loss).

(** ** RealHingeLoss *)

(** The body of [calculate_loss] down to [tf.reduce_sum(loss * mask, [1,2])]:
    one number for each example of the batch. *)
Definition RealHingeLoss_example_sums
           (predictions labels : Tensor2) (b : option R) : result Tensor1 :=
  let b := keyword 0.2 b in
  let float_labels := tf_cast_float32 labels in
  let truth := float_labels in
  let other := scalar_rsub2 1.0 float_labels in
  mask <- einsum_ij_ik_ijk truth other ;;
  let col_pred := tf_expand_dims_2 predictions in
  let pred := tf_expand_dims_1 predictions in
  pairwise <- tf_add3 (scalar_rsub3 b col_pred) pred ;;
  let loss := scalar_rmaximum3 0 pairwise in
  masked <- tf_multiply3 loss mask ;;
  Ok (tf_reduce_sum_12 masked).

Definition RealHingeLoss_calculate_loss
           (predictions labels : Tensor2) (b : option R) : result R :=
  example_sums <- RealHingeLoss_example_sums predictions labels b ;;
  let hinge_loss := tf_reduce_mean example_sums in
  hinge_loss.

(** ** SoftmaxLoss *)

Definition SoftmaxLoss_calculate_loss
           (predictions labels : Tensor2) : result R :=
  let epsilon := 10e-8 in
  let float_labels := tf_cast_float32 labels in
  let label_rowsum :=
    scalar_maximum2 (tf_reduce_sum_1_keep_dims float_labels) epsilon in
  norm_float_labels <- tf_div float_labels label_rowsum ;;
  let softmax_outputs := tf_softmax predictions in
  log_softmax <- tf_log softmax_outputs ;;
  weighted <- tf_multiply norm_float_labels log_softmax ;;
  let softmax_loss := tf_negative1 (tf_reduce_sum_1 weighted) in
  tf_reduce_mean softmax_loss.

(** ** CosineHingeLoss *)

(** The value [calculate_loss] returns: a scalar for every loss but the
    fall back branch of [CosineHingeLoss], which returns a matrix. *)
Inductive LossValue : Type :=
| Scalar (v : R)
| Elementwise (t : Tensor2).

(** [CosineHingeLoss.confidence], and the first three statements of
    [CosineHingeLoss.calculate_loss]. *)
Definition CosineHingeLoss_confidence (predictions positives : Tensor2) : result Tensor2 :=
  let normalized_predictions := tf_l2_normalize_dim1 predictions in
  let normalized_positives := tf_l2_normalize_dim1 positives in
  let sim_pos := einsum_ik_jk_ij normalized_predictions normalized_positives in
  sim_pos.

(** [min_sim = tf.reduce_min((sim_pos - 1.0) * mask, axis=1, keep_dims=True) + 1.0] *)
Definition CosineHingeLoss_min_sim (sim_pos mask : Tensor2) : result Tensor2 :=
  shifted <- tf_multiply (scalar_sub2 sim_pos 1.0) mask ;;
  least <- tf_reduce_min_1_keep_dims shifted ;;
  Ok (scalar_add2 least 1.0).

(** The body of the loop over [sample_labels]. *)
Definition CosineHingeLoss_positive_sample
           (num_classes : nat) (sample_label : list Z) (g : Rng)
  : result (list nat * Rng) :=
  let indices := tf_where (map (fun z => Z.ltb 0 z) sample_label) in
  let expanded_indices := firstn num_classes (tf_tile (column0 indices) num_classes) in
  drawn <- tf_random_uniform num_classes 0 num_classes g ;;
  let rand_arrange := fst drawn in
  positive_sample <- tf_gather expanded_indices rand_arrange ;;
  Ok (positive_sample, snd drawn).

(** The loop itself: one row of sampled classes for each example. *)
Fixpoint CosineHingeLoss_sample_loop
         (num_classes : nat) (sample_labels : list (list Z)) (g : Rng)
  : result (list (list nat) * Rng) :=
  match sample_labels with
  | [] => Ok ([], g)
  | sample_label :: rest =>
      first <- CosineHingeLoss_positive_sample num_classes sample_label g ;;
      others <- CosineHingeLoss_sample_loop num_classes rest (snd first) ;;
      Ok (fst first :: fst others, snd others)
  end.

(** From [int_labels] to [positive_samples = tf.stack(positive_samples)]. *)
Definition CosineHingeLoss_positive_samples
           (FLAGS : Flags) (labels : Tensor2) (g : Rng)
  : result (StackedIds * Rng) :=
  let batch_size := batch_size FLAGS in
  let num_classes := num_classes FLAGS in
  let int_labels := tf_cast_int32 labels in
  sample_labels <- tf_unstack int_labels batch_size ;;
  sampled <- CosineHingeLoss_sample_loop num_classes sample_labels g ;;
  Ok (tf_stack (fst sampled), snd sampled).

(** [mask_wrong]: the classes that are not labelled and whose similarity
    exceeds [min_sim]. *)
Definition CosineHingeLoss_mask_wrong
           (predictions positives labels : Tensor2) : result Tensor2 :=
  let mask := tf_cast_float32 labels in
  let reverse_mask := scalar_rsub2 1.0 mask in
  sim_pos <- CosineHingeLoss_confidence predictions positives ;;
  min_sim <- CosineHingeLoss_min_sim sim_pos mask ;;
  above <- tf_greater sim_pos min_sim ;;
  wrong <- tf_multiply (tf_cast_bool_float32 above) reverse_mask ;;
  Ok (tf_stop_gradient wrong).

(** [sim_sample_pos]: the similarity of each example to the embeddings of
    the classes sampled for it. *)
Definition CosineHingeLoss_sim_sample_pos
           (FLAGS : Flags) (predictions positives labels : Tensor2) (g : Rng)
  : result Tensor2 :=
  let normalized_predictions := tf_l2_normalize_dim1 predictions in
  sampled <- CosineHingeLoss_positive_samples FLAGS labels g ;;
  let positive_samples := fst sampled in
  sample_positives <- tf_embedding_lookup positives positive_samples ;;
  let normalized_sample_positives := tf_l2_normalize_dim2 sample_positives in
  einsum_ik_ijk_ij normalized_predictions normalized_sample_positives.

(** [hinge_loss = tf.maximum(sim_pos - sim_sample_pos + margin, 0.0)] *)
Definition CosineHingeLoss_hinge_loss
           (FLAGS : Flags) (predictions positives labels : Tensor2)
           (margin : R) (g : Rng) : result Tensor2 :=
  sim_pos <- CosineHingeLoss_confidence predictions positives ;;
  sim_sample_pos <- CosineHingeLoss_sim_sample_pos FLAGS predictions positives labels g ;;
  difference <- tf_subtract sim_pos sim_sample_pos ;;
  Ok (scalar_maximum2 (scalar_add2 difference margin) 0.0).

(** Every tensor below is the outcome of evaluating it, and the returned
    tensor fails only through the tensors it is computed from.  The
    [print] statement of the source shows a tensor handle and changes no
    value. *)
Definition CosineHingeLoss_calculate_loss
           (FLAGS : Flags) (predictions positives labels : Tensor2)
           (margin adaptive : option R) (g : Rng) : result LossValue :=
  let margin := keyword 0.2 margin in
  let adaptive := keyword 5 adaptive in
  let mask := tf_cast_float32 labels in
  let reverse_mask := scalar_rsub2 1.0 mask in
  let mask_wrong := CosineHingeLoss_mask_wrong predictions positives labels in
  let hinge_loss :=
    CosineHingeLoss_hinge_loss FLAGS predictions positives labels margin g in
  let adaptive_loss :=
    hinge <- hinge_loss ;;
    wrong <- mask_wrong ;;
    masked <- tf_multiply hinge wrong ;;
    tf_reduce_mean (tf_reduce_sum_1 masked) in
  let origin_loss :=
    hinge <- hinge_loss ;;
    masked <- tf_multiply hinge reverse_mask ;;
    tf_reduce_mean (tf_reduce_sum_1 masked) in
  if Rlt_dec 0 adaptive then
    adaptive_loss_value <- adaptive_loss ;;
    origin_loss_value <- origin_loss ;;
    Ok (Scalar (adaptive * adaptive_loss_value + origin_loss_value))
  else
    hinge <- hinge_loss ;;
    Ok (Elementwise hinge).

(** ** BaseLoss *)

(** [raise NotImplementedError()], whatever the arguments. *)
Definition BaseLoss_calculate_loss
           (unused_predictions unused_positives unused_labels : Tensor2)
           (unused_params : list (nat * R)) : result LossValue :=
  Err NotImplementedError.

(** ** Shapes, and the formulas the losses are compared with *)

Definition has_shape2 {A : Type} (rows cols : nat) (t : list (list A)) : Prop :=
  length t = rows /\ Forall (fun r => length r = cols) t.

Definition all_cells (P : R -> Prop) (t : Tensor2) : Prop := Forall (Forall P) t.

Definition binary (y : R) : Prop := y = 0 \/ y = 1.

Fixpoint zipWith {A B C : Type} (f : A -> B -> C) (xs : list A) (ys : list B) : list C :=
  match xs, ys with
  | x :: xs', y :: ys' => f x y :: zipWith f xs' ys'
  | _, _ => []
  end.

Definition zipWith2 {A B C : Type} (f : A -> B -> C)
  : list (list A) -> list (list B) -> list (list C) :=
  zipWith (zipWith f).

Definition mean (v : list R) : R := sum v / INR (length v).

(** The cost of one cell of the weighted cross entropy, for a label [y]
    and a prediction [p]. *)
Definition xent_cell (fn_weight fp_weight eps y p : R) : R :=
  - (fn_weight * y * ln (p + eps) + fp_weight * (1 - y) * ln (1 - p + eps)).

(** Costs summed across the classes of each example, then averaged across
    the batch. *)
Definition weighted_xent_formula (fn_weight fp_weight eps : R)
           (predictions labels : Tensor2) : R :=
  mean (map sum (zipWith2 (xent_cell fn_weight fp_weight eps) labels predictions)).

(** The predictions at which both logarithms of the cross entropy are
    finite. *)
Definition in_log_domain (eps : R) (p : R) : Prop := 0 < p + eps /\ 0 < 1 - p + eps.


(** The hinge cost of one cell for a label [y] and a prediction [p]: the
    label is rescaled to [s = 2y - 1], and the cost is [max(0, b - s*p)]. *)
Definition hinge_cell (b y p : R) : R := Rmax 0 (b - (2 * y - 1) * p).

Definition hinge_formula (b : R) (predictions labels : Tensor2) : R :=
  mean (map sum (zipWith2 (hinge_cell b) labels predictions)).

(** The pairwise ranking hinge of one example: every pair of a class [j]
    and a class [k] costs [max(0, b - p_j + p_k)], weighted by
    [y_j * (1 - y_k)], which is 1 exactly when [j] is labelled positive and
    [k] negative. *)
Definition real_hinge_row (b : R) (y p : Tensor1) : R :=
  sum (map sum
           (zipWith (fun pj yj =>
                       zipWith (fun pk yk => Rmax 0 (b - pj + pk) * (yj * (1 - yk))) p y)
                    p y)).

(** The softmax loss of a batch, with [eps] guarding the normalisation of
    the labels: each label row is divided by [max(sum(y), eps)], and the
    loss of an example is [- sum_over_classes(y' * log(softmax(p)))]. *)
Definition softmax_example (eps : R) (y p : Tensor1) : R :=
  - sum (zipWith (fun yv sv => yv / Rmax (sum y) eps * ln sv) y (softmax_row p)).

Definition softmax_formula (eps : R) (predictions labels : Tensor2) : R :=
  mean (zipWith (softmax_example eps) labels predictions).

(** A random source for examples: the raw draws 0, 1, 2, ... *)
Definition counting_rng : Rng := {| raw := fun k => k; cursor := 0 |}.

(** Flags for examples with [classes] classes and [batch] examples. *)
Definition example_FLAGS (classes batch : nat) : Flags :=
  {| false_negative_punishment := 1.0;
     false_positive_punishment := 1.0;
     num_classes := classes;
     batch_size := batch |}.

(** [m] is the least of the similarities [sims] over exactly the classes
    whose label in [labels] is 1: it is attained at such a class, and no
    such class has a smaller similarity. *)
Definition least_over_true (sims labels : Tensor1) (m : R) : Prop :=
  (exists j, nth_error labels j = Some 1 /\ nth_error sims j = Some m)
  /\ (forall j v, nth_error labels j = Some 1 -> nth_error sims j = Some v -> m <= v).

(** The elementwise hinge of the cosine hinge loss. *)
Definition cosine_hinge (margin : R) (sim_pos sim_sample_pos : Tensor2) : Tensor2 :=
  zipWith2 (fun s s' => Rmax (s - s' + margin) 0) sim_pos sim_sample_pos.

(** A masked hinge, summed over the classes and averaged over the batch. *)
Definition masked_mean (hinge mask : Tensor2) : R :=
  mean (map sum (zipWith2 Rmult hinge mask)).

(** The predictions of one example are close enough for a float32
    softmax over [cols] classes: no prediction lies more than
    [87 - log(cols)] below another, which keeps every softmax output at or
    above [exp (-87)], about 1.6e-38 and a normal float32. *)
Definition softmax_spread (cols : nat) (r : Tensor1) : Prop :=
  forall x x', In x r -> In x' r -> x' - x + ln (INR cols) <= 87.

(** A one hot label row of [n] classes with its 1 at class [j]. *)
Fixpoint one_hot (n j : nat) : Tensor1 :=
  match n with
  | O => []
  | S n' => match j with
            | O => 1 :: repeat 0 n'
            | S j' => 0 :: one_hot n' j'
            end
  end.

(** * Properties *)

(** ** Lists and outcomes *)

Lemma mapM_pure {A B : Type} (f : A -> result B) (g : A -> B) (l : list A) :
  Forall (fun x => f x = Ok (g x)) l -> mapM f l = Ok (map g l).
Proof.
  induction 1 as [|x t Hx _ IH]; simpl; [reflexivity|].
  rewrite Hx, IH. reflexivity.
Qed.

Lemma zipWithM_pure {A B C : Type} (f : A -> B -> result C) (g : A -> B -> C) :
  forall xs ys,
    length xs = length ys ->
    (forall x y, In x xs -> In y ys -> f x y = Ok (g x y)) ->
    zipWithM f xs ys = Ok (zipWith g xs ys).
Proof.
  induction xs as [|x xs IH]; intros [|y ys] Hlen Hf; simpl in *; try discriminate.
  - reflexivity.
  - rewrite Hf by auto. simpl.
    rewrite IH by (auto; lia). reflexivity.
Qed.

Lemma broadcast_same_length {A B C : Type} (f : A -> B -> result C) xs ys :
  length xs = length ys -> broadcast f xs ys = zipWithM f xs ys.
Proof.
  intros H. unfold broadcast. rewrite H, Nat.eqb_refl. reflexivity.
Qed.

Lemma elementwise2_same_shape {A B C : Type} (f : A -> B -> C) rows cols
      (a : list (list A)) (b : list (list B)) :
  has_shape2 rows cols a -> has_shape2 rows cols b ->
  elementwise2 f a b = Ok (zipWith2 f a b).
Proof.
  intros [Ha Hra] [Hb Hrb]. unfold elementwise2, zipWith2.
  rewrite broadcast_same_length by congruence.
  apply zipWithM_pure; [congruence|].
  intros r s Hr Hs.
  rewrite Forall_forall in Hra, Hrb.
  assert (Hlen : length r = length s) by (rewrite (Hra r Hr), (Hrb s Hs); reflexivity).
  rewrite broadcast_same_length by exact Hlen.
  apply zipWithM_pure; [exact Hlen|]. reflexivity.
Qed.

Lemma zipWith_length {A B C : Type} (f : A -> B -> C) xs ys :
  length xs = length ys -> length (zipWith f xs ys) = length xs.
Proof.
  revert ys. induction xs as [|x xs IH]; intros [|y ys] H; simpl in *; try discriminate; auto.
Qed.

Lemma has_shape2_zipWith2 {A B C : Type} (f : A -> B -> C) rows cols a b :
  has_shape2 rows cols a -> has_shape2 rows cols b ->
  has_shape2 rows cols (zipWith2 f a b).
Proof.
  intros [Ha Hra] [Hb Hrb]. subst rows. split.
  - unfold zipWith2. apply zipWith_length. congruence.
  - revert b Hb Hrb. unfold zipWith2.
    induction Hra as [|r a Hr Hra IH]; intros [|s b] Hb Hrb; simpl in *;
      try discriminate; constructor.
    + inversion Hrb; subst. rewrite zipWith_length; congruence.
    + inversion Hrb; subst. apply IH; auto.
Qed.

Lemma has_shape2_map2 {A B : Type} (f : A -> B) rows cols a :
  has_shape2 rows cols a -> has_shape2 rows cols (map (map f) a).
Proof.
  intros [Ha Hra]. split.
  - rewrite length_map. exact Ha.
  - rewrite Forall_map. eapply Forall_impl; [|exact Hra].
    intros r Hr. simpl in Hr. rewrite length_map. exact Hr.
Qed.

Lemma zipWith_ext {A B C : Type} (f g : A -> B -> C) xs ys :
  (forall x y, In x xs -> In y ys -> f x y = g x y) ->
  zipWith f xs ys = zipWith g xs ys.
Proof.
  revert ys. induction xs as [|x xs IH]; intros [|y ys] H; simpl; try reflexivity.
  rewrite H by (simpl; auto). f_equal. apply IH. intros; apply H; simpl; auto.
Qed.

Lemma zipWith_map_l {A A' B C : Type} (f : A' -> B -> C) (g : A -> A') xs ys :
  zipWith f (map g xs) ys = zipWith (fun x y => f (g x) y) xs ys.
Proof.
  revert ys. induction xs as [|x xs IH]; intros [|y ys]; simpl; try reflexivity.
  f_equal. apply IH.
Qed.

Lemma zipWith_map_r {A B B' C : Type} (f : A -> B' -> C) (g : B -> B') xs ys :
  zipWith f xs (map g ys) = zipWith (fun x y => f x (g y)) xs ys.
Proof.
  revert ys. induction xs as [|x xs IH]; intros [|y ys]; simpl; try reflexivity.
  f_equal. apply IH.
Qed.

Lemma map_zipWith {A B C D : Type} (k : C -> D) (f : A -> B -> C) xs ys :
  map k (zipWith f xs ys) = zipWith (fun x y => k (f x y)) xs ys.
Proof.
  revert ys. induction xs as [|x xs IH]; intros [|y ys]; simpl; try reflexivity.
  f_equal. apply IH.
Qed.

Lemma zipWith_zipWith {A B C D E : Type} (h : C -> D -> E)
      (f : A -> B -> C) (g : A -> B -> D) xs ys :
  zipWith h (zipWith f xs ys) (zipWith g xs ys)
  = zipWith (fun x y => h (f x y) (g x y)) xs ys.
Proof.
  revert ys. induction xs as [|x xs IH]; intros [|y ys]; simpl; try reflexivity.
  f_equal. apply IH.
Qed.

Lemma zipWith2_map_l {A A' B C : Type} (f : A' -> B -> C) (g : A -> A') a b :
  zipWith2 f (map (map g) a) b = zipWith2 (fun x y => f (g x) y) a b.
Proof.
  unfold zipWith2. rewrite zipWith_map_l. apply zipWith_ext.
  intros r s _ _. apply zipWith_map_l.
Qed.

Lemma zipWith2_map_r {A B B' C : Type} (f : A -> B' -> C) (g : B -> B') a b :
  zipWith2 f a (map (map g) b) = zipWith2 (fun x y => f x (g y)) a b.
Proof.
  unfold zipWith2. rewrite zipWith_map_r. apply zipWith_ext.
  intros r s _ _. apply zipWith_map_r.
Qed.

Lemma map2_zipWith2 {A B C D : Type} (k : C -> D) (f : A -> B -> C) a b :
  map (map k) (zipWith2 f a b) = zipWith2 (fun x y => k (f x y)) a b.
Proof.
  unfold zipWith2. rewrite map_zipWith. apply zipWith_ext.
  intros r s _ _. apply map_zipWith.
Qed.

Lemma zipWith2_zipWith2 {A B C D E : Type} (h : C -> D -> E)
      (f : A -> B -> C) (g : A -> B -> D) a b :
  zipWith2 h (zipWith2 f a b) (zipWith2 g a b)
  = zipWith2 (fun x y => h (f x y) (g x y)) a b.
Proof.
  unfold zipWith2. rewrite zipWith_zipWith. apply zipWith_ext.
  intros r s _ _. apply zipWith_zipWith.
Qed.

Lemma zipWith2_ext {A B C : Type} (f g : A -> B -> C) a b :
  (forall x y, f x y = g x y) -> zipWith2 f a b = zipWith2 g a b.
Proof.
  intros H. unfold zipWith2. apply zipWith_ext. intros r s _ _.
  apply zipWith_ext. intros; apply H.
Qed.

Lemma zipWith_swap {A B C : Type} (f : A -> B -> C) xs ys :
  zipWith f xs ys = zipWith (fun y x => f x y) ys xs.
Proof.
  revert ys. induction xs as [|x xs IH]; intros [|y ys]; simpl; try reflexivity.
  f_equal. apply IH.
Qed.

Lemma zipWith2_swap {A B C : Type} (f : A -> B -> C) a b :
  zipWith2 f a b = zipWith2 (fun y x => f x y) b a.
Proof.
  unfold zipWith2. rewrite zipWith_swap. apply zipWith_ext.
  intros r s _ _. apply zipWith_swap.
Qed.

Lemma map2_id (f : R -> R) (t : Tensor2) :
  (forall x, f x = x) -> map (map f) t = t.
Proof.
  intros H. induction t as [|r t IH]; simpl; [reflexivity|].
  rewrite IH. f_equal.
  induction r as [|x r IHr]; simpl; [reflexivity|]. rewrite H, IHr. reflexivity.
Qed.

Lemma tf_log_ok (t : Tensor2) :
  all_cells (fun x => 0 < x) t -> tf_log t = Ok (map (map ln) t).
Proof.
  intros H. unfold tf_log. apply mapM_pure.
  eapply Forall_impl; [|exact H]. intros r Hr. simpl in *.
  apply mapM_pure. eapply Forall_impl; [|exact Hr].
  intros x Hx. simpl in Hx. unfold log_scalar. destruct (Rlt_dec 0 x); [reflexivity|contradiction].
Qed.

Lemma all_cells_map (P : R -> Prop) (f : R -> R) (t : Tensor2) :
  all_cells (fun x => P (f x)) t -> all_cells P (map (map f) t).
Proof.
  intros H. unfold all_cells in *. rewrite Forall_map.
  eapply Forall_impl; [|exact H]. intros r Hr. simpl in *.
  rewrite Forall_map. exact Hr.
Qed.

Lemma tf_reduce_mean_ok (v : Tensor1) :
  v <> [] -> tf_reduce_mean v = Ok (mean v).
Proof. destruct v; [congruence|reflexivity]. Qed.

(** ** Cross entropy *)

Lemma has_shape2_nonempty {A : Type} rows cols (t : list (list A)) :
  has_shape2 rows cols t -> rows <> O -> t <> [].
Proof. intros [H _] Hr ->. simpl in H. congruence. Qed.

Lemma map_nonempty {A B : Type} (f : A -> B) (l : list A) : l <> [] -> map f l <> [].
Proof. destruct l; simpl; congruence. Qed.

Lemma WeightedCrossEntropyLoss_value (FLAGS : Flags) rows cols predictions labels :
  rows <> O ->
  has_shape2 rows cols predictions ->
  has_shape2 rows cols labels ->
  all_cells (in_log_domain 10e-6) predictions ->
  WeightedCrossEntropyLoss_calculate_loss FLAGS predictions labels
  = Ok (weighted_xent_formula (false_negative_punishment FLAGS)
                              (false_positive_punishment FLAGS) 10e-6
                              predictions labels).
Proof.
  intros Hrows Hp Hy Hdom.
  unfold WeightedCrossEntropyLoss_calculate_loss, tf_cast_float32.
  unfold scalar_add2, scalar_rsub2, scalar_mul2, tf_multiply, tf_add, tf_negative,
    tf_reduce_sum_1.
  rewrite tf_log_ok.
  2:{ apply all_cells_map. eapply Forall_impl; [|exact Hdom].
      intros r Hr. eapply Forall_impl; [|exact Hr]. intros x [H _]. exact H. }
  simpl bind.
  rewrite (elementwise2_same_shape _ rows cols) by (repeat apply has_shape2_map2; assumption).
  simpl bind.
  rewrite tf_log_ok.
  2:{ do 2 apply all_cells_map. eapply Forall_impl; [|exact Hdom].
      intros r Hr. eapply Forall_impl; [|exact Hr]. intros x [_ H]. exact H. }
  simpl bind.
  rewrite (elementwise2_same_shape _ rows cols) by (repeat apply has_shape2_map2; assumption).
  simpl bind.
  rewrite (elementwise2_same_shape _ rows cols)
    by (apply has_shape2_zipWith2; repeat apply has_shape2_map2; assumption).
  simpl bind.
  repeat rewrite zipWith2_map_l. repeat rewrite zipWith2_map_r.
  rewrite zipWith2_zipWith2, map2_zipWith2.
  rewrite tf_reduce_mean_ok.
  2:{ apply map_nonempty. eapply has_shape2_nonempty; [|exact Hrows].
      apply has_shape2_zipWith2; eassumption. }
  reflexivity.
Qed.

Lemma CrossEntropyLoss_as_weighted (FLAGS : Flags) predictions labels :
  false_negative_punishment FLAGS = 1 ->
  false_positive_punishment FLAGS = 1 ->
  CrossEntropyLoss_calculate_loss predictions labels
  = WeightedCrossEntropyLoss_calculate_loss FLAGS predictions labels.
Proof.
  intros Hfn Hfp.
  unfold CrossEntropyLoss_calculate_loss, WeightedCrossEntropyLoss_calculate_loss.
  rewrite Hfn, Hfp. unfold scalar_mul2 at 1 2.
  rewrite !(map2_id (fun x => 1 * x)) by (intros; lra).
  reflexivity.
Qed.

(** C1. For every predictions and labels pair of identical shape,
    [CrossEntropyLoss.calculate_loss] equals
    [WeightedCrossEntropyLoss.calculate_loss] evaluated with both
    punishment weights set to 1. *)
Theorem cross_entropy_is_weighted_with_unit_weights :
  forall (FLAGS : Flags) (rows cols : nat) (predictions labels : Tensor2),
    false_negative_punishment FLAGS = 1 ->
    false_positive_punishment FLAGS = 1 ->
    has_shape2 rows cols predictions ->
    has_shape2 rows cols labels ->
    CrossEntropyLoss_calculate_loss predictions labels
    = WeightedCrossEntropyLoss_calculate_loss FLAGS predictions labels.
Proof.
  intros FLAGS rows cols predictions labels Hfn Hfp _ _.
  apply CrossEntropyLoss_as_weighted; assumption.
Qed.

Lemma cross_entropy_is_weighted_with_unit_weights_witness :
  CrossEntropyLoss_calculate_loss [[0.9; 0.1]] [[1; 0]]
  = WeightedCrossEntropyLoss_calculate_loss (default_FLAGS 1) [[0.9; 0.1]] [[1; 0]].
Proof.
  apply (cross_entropy_is_weighted_with_unit_weights (default_FLAGS 1) 1 2).
  - simpl. lra.
  - simpl. lra.
  - split; [reflexivity | repeat constructor].
  - split; [reflexivity | repeat constructor].
Defined.

(** The scenario of the specification: predictions [[0.9, 0.1]] and labels
    [[1, 0]] under the default weights. *)
Example weighted_cross_entropy_scenario :
  WeightedCrossEntropyLoss_calculate_loss (default_FLAGS 1) [[0.9; 0.1]] [[1; 0]]
  = Ok (- ln (0.9 + 10e-6) - ln (1 - 0.1 + 10e-6)).
Proof.
  rewrite (WeightedCrossEntropyLoss_value _ 1 2).
  - f_equal. unfold weighted_xent_formula, mean, xent_cell. simpl. lra.
  - discriminate.
  - split; [reflexivity | repeat constructor].
  - split; [reflexivity | repeat constructor].
  - repeat constructor; simpl; lra.
Qed.

(** C2, as amended.  For predictions [p] and labels [y] of shape
    [batch, num_classes] with a non empty batch, and predictions at which
    both logarithms are finite, [WeightedCrossEntropyLoss.calculate_loss]
    is the mean over the batch of the sums over the classes of
    [-(fn_weight * y * log(p + eps) + fp_weight * (1-y) * log(1 - p + eps))],
    where the epsilon inside both logarithms is [10e-6], that is 1e-5. *)
Theorem weighted_cross_entropy_formula :
  forall (FLAGS : Flags) (rows cols : nat) (predictions labels : Tensor2),
    rows <> O ->
    has_shape2 rows cols predictions ->
    has_shape2 rows cols labels ->
    all_cells (in_log_domain (1 / 100000)) predictions ->
    WeightedCrossEntropyLoss_calculate_loss FLAGS predictions labels
    = Ok (weighted_xent_formula (false_negative_punishment FLAGS)
                                (false_positive_punishment FLAGS) (1 / 100000)
                                predictions labels).
Proof.
  intros FLAGS rows cols predictions labels Hrows Hp Hy Hdom.
  replace (1 / 100000) with 10e-6 in * by lra.
  apply (WeightedCrossEntropyLoss_value FLAGS rows cols); assumption.
Qed.

Lemma weighted_cross_entropy_formula_witness :
  WeightedCrossEntropyLoss_calculate_loss (default_FLAGS 1) [[0.9; 0.1]] [[1; 0]]
  = Ok (weighted_xent_formula 1.0 1.0 (1 / 100000) [[0.9; 0.1]] [[1; 0]]).
Proof.
  apply (weighted_cross_entropy_formula (default_FLAGS 1) 1 2).
  - discriminate.
  - split; [reflexivity | repeat constructor].
  - split; [reflexivity | repeat constructor].
  - repeat constructor; simpl; lra.
Defined.

(** C2 as stated fails: with epsilon 1e-6 the formula gives another value
    than the code, already for one example with one class, prediction 1/2
    and label 1. *)
Lemma weighted_cross_entropy_epsilon_counterexample :
  WeightedCrossEntropyLoss_calculate_loss (default_FLAGS 1) [[1 / 2]] [[1]]
  <> Ok (weighted_xent_formula 1 1 (1 / 1000000) [[1 / 2]] [[1]]).
Proof.
  rewrite (WeightedCrossEntropyLoss_value _ 1 1).
  - intros H. injection H as H.
    unfold weighted_xent_formula, mean, xent_cell in H. simpl in H.
    assert (Hlt : ln (1 / 2 + 1 / 1000000) < ln (1 / 2 + 10e-6))
      by (apply ln_increasing; lra).
    lra.
  - discriminate.
  - split; [reflexivity | repeat constructor].
  - split; [reflexivity | repeat constructor].
  - repeat constructor; simpl; lra.
Qed.

(** ** Hinge loss *)

Lemma tf_shape_of rows cols (t : Tensor2) :
  rows <> O -> has_shape2 rows cols t -> tf_shape t = (rows, cols).
Proof.
  intros Hrows [Hlen Hall]. unfold tf_shape. destruct t as [|r t]; simpl in *.
  - congruence.
  - inversion Hall; subst. reflexivity.
Qed.

Lemma has_shape2_fill rows cols c : has_shape2 rows cols (tf_fill (rows, cols) c).
Proof.
  unfold tf_fill; simpl. split.
  - apply repeat_length.
  - apply Forall_forall. intros r Hr. apply repeat_spec in Hr. subst r.
    apply repeat_length.
Qed.

Lemma zipWith_repeat_r {A B C : Type} (f : A -> B -> C) (c : B) xs n :
  length xs = n -> zipWith f xs (repeat c n) = map (fun x => f x c) xs.
Proof.
  revert n. induction xs as [|x xs IH]; intros [|n] H; simpl in *; try discriminate.
  - reflexivity.
  - f_equal. apply IH. lia.
Qed.

Lemma zipWith_repeat_l {A B C : Type} (f : A -> B -> C) (c : A) ys n :
  length ys = n -> zipWith f (repeat c n) ys = map (fun y => f c y) ys.
Proof.
  intros H. rewrite zipWith_swap. apply zipWith_repeat_r. exact H.
Qed.

Lemma zipWith2_fill_r {A C : Type} (f : A -> R -> C) (c : R) rows cols (a : list (list A)) :
  has_shape2 rows cols a ->
  zipWith2 f a (tf_fill (rows, cols) c) = map (map (fun x => f x c)) a.
Proof.
  intros [Hlen Hall]. unfold zipWith2, tf_fill. simpl.
  rewrite zipWith_repeat_r by exact Hlen.
  apply map_ext_Forall. eapply Forall_impl; [|exact Hall].
  intros r Hr. simpl in Hr. apply zipWith_repeat_r. exact Hr.
Qed.

Lemma zipWith2_fill_l {B C : Type} (f : R -> B -> C) (c : R) rows cols (b : list (list B)) :
  has_shape2 rows cols b ->
  zipWith2 f (tf_fill (rows, cols) c) b = map (map (fun y => f c y)) b.
Proof.
  intros H. rewrite zipWith2_swap. apply (zipWith2_fill_r (fun y x => f x y)). exact H.
Qed.

Lemma HingeLoss_value rows cols predictions labels (b : option R) :
  rows <> O ->
  has_shape2 rows cols predictions ->
  has_shape2 rows cols labels ->
  HingeLoss_calculate_loss predictions labels b
  = Ok (hinge_formula (keyword 1.0 b) predictions labels).
Proof.
  intros Hrows Hp Hy.
  unfold HingeLoss_calculate_loss, tf_cast_float32, tf_zeros, tf_ones.
  cbv zeta.
  rewrite (tf_shape_of rows cols) by assumption.
  unfold tf_scalar_mul, scalar_mul2, tf_subtract, tf_multiply, tf_maximum, tf_reduce_sum_1.
  pose proof (has_shape2_fill rows cols 0) as H0.
  pose proof (has_shape2_fill rows cols 1) as H1.
  rewrite (elementwise2_same_shape _ rows cols)
    by (try apply has_shape2_map2; assumption).
  simpl bind.
  rewrite (elementwise2_same_shape _ rows cols)
    by (try apply has_shape2_zipWith2; try apply has_shape2_map2; assumption).
  simpl bind.
  rewrite (elementwise2_same_shape _ rows cols)
    by (repeat (first [assumption | apply has_shape2_zipWith2 | apply has_shape2_map2])).
  simpl bind.
  rewrite (elementwise2_same_shape _ rows cols)
    by (repeat (first [assumption | apply has_shape2_zipWith2 | apply has_shape2_map2])).
  simpl bind.
  cbv zeta. set (m := keyword 1.0 b).
  rewrite (zipWith2_fill_l Rmax)
    by (repeat (first [assumption | apply has_shape2_zipWith2 | apply has_shape2_map2])).
  rewrite zipWith2_map_l.
  rewrite (zipWith2_fill_l (fun x y => m * x - y))
    by (repeat (first [assumption | apply has_shape2_zipWith2 | apply has_shape2_map2])).
  rewrite zipWith2_map_l.
  rewrite (zipWith2_fill_r (fun x y => 2 * x - y)) by assumption.
  rewrite zipWith2_map_l.
  do 2 rewrite map2_zipWith2.
  rewrite tf_reduce_mean_ok.
  2:{ apply map_nonempty. eapply has_shape2_nonempty; [|exact Hrows].
      apply has_shape2_zipWith2; eassumption. }
  unfold hinge_formula. do 3 f_equal.
  apply zipWith2_ext. intros y p. unfold hinge_cell. f_equal. ring.
Qed.

Lemma Rmax_0_half : Rmax 0 (1 / 2) = 1 / 2.
Proof. apply Rmax_right. lra. Qed.

(** C7. [HingeLoss.calculate_loss] rescales each label to [s = 2y - 1],
    computes per cell [max(0, b - s*p)] with the margin [b] defaulting to
    1.0, sums over classes and averages over the batch; for predictions
    [[0.5, -0.5]], labels [[1, 0]] and [b = 1.0] the result is exactly 1.0. *)
Theorem hinge_loss_formula_and_scenario :
  (forall (rows cols : nat) (predictions labels : Tensor2) (b : option R),
      rows <> O ->
      has_shape2 rows cols predictions ->
      has_shape2 rows cols labels ->
      HingeLoss_calculate_loss predictions labels b
      = Ok (hinge_formula (keyword 1 b) predictions labels))
  /\ HingeLoss_calculate_loss [[0.5; -0.5]] [[1; 0]] (Some 1.0) = Ok 1.0
  /\ HingeLoss_calculate_loss [[0.5; -0.5]] [[1; 0]] None = Ok 1.0.
Proof.
  assert (Hscenario : forall b, keyword 1.0 b = 1 ->
            HingeLoss_calculate_loss [[0.5; -0.5]] [[1; 0]] b = Ok 1.0).
  { intros b Hb. rewrite (HingeLoss_value 1 2).
    - f_equal. rewrite Hb. unfold hinge_formula, mean, hinge_cell. simpl.
      replace (1 - (2 * 1 - 1) * 0.5) with (1 / 2) by lra.
      replace (1 - (2 * 0 - 1) * -0.5) with (1 / 2) by lra.
      rewrite Rmax_0_half. lra.
    - discriminate.
    - split; [reflexivity | repeat constructor].
    - split; [reflexivity | repeat constructor]. }
  split; [|split].
  - intros rows cols predictions labels b Hrows Hp Hy.
    replace 1 with 1.0 by lra.
    apply (HingeLoss_value rows cols); assumption.
  - apply Hscenario. simpl. lra.
  - apply Hscenario. simpl. lra.
Qed.

Lemma hinge_loss_formula_and_scenario_witness :
  HingeLoss_calculate_loss [[2; -3]; [0; 1]] [[1; 0]; [0; 1]] (Some 1)
  = Ok (hinge_formula 1 [[2; -3]; [0; 1]] [[1; 0]; [0; 1]]).
Proof.
  apply (proj1 hinge_loss_formula_and_scenario 2%nat 2%nat _ _ (Some 1)).
  - discriminate.
  - split; [reflexivity | repeat constructor].
  - split; [reflexivity | repeat constructor].
Defined.

(** ** Pairwise hinge loss *)

Lemma zipWithM_map_diag {A B C D : Type} (f : B -> C -> result D)
      (g : A -> B) (h : A -> C) (l : list A) :
  zipWithM f (map g l) (map h l) = mapM (fun x => f (g x) (h x)) l.
Proof.
  induction l as [|x l IH]; simpl; [reflexivity|]. rewrite IH. reflexivity.
Qed.

Lemma zipWith_diag {A B : Type} (f : A -> A -> B) (l : list A) :
  zipWith f l l = map (fun x => f x x) l.
Proof. induction l as [|x l IH]; simpl; [reflexivity|]. rewrite IH. reflexivity. Qed.

Lemma Forall_zipWith {A B C : Type} (P : C -> Prop) (f : A -> B -> C) xs ys :
  (forall x y, In x xs -> In y ys -> P (f x y)) -> Forall P (zipWith f xs ys).
Proof.
  revert ys. induction xs as [|x xs IH]; intros [|y ys] H; simpl; constructor.
  - apply H; simpl; auto.
  - apply IH. intros; apply H; simpl; auto.
Qed.

Lemma sum_zero (l : list R) : Forall (fun x => x = 0) l -> sum l = 0.
Proof.
  induction 1 as [|x l Hx _ IH]; simpl; [reflexivity|]. rewrite Hx, IH. lra.
Qed.

Lemma nth_error_zipWith {A B C : Type} (f : A -> B -> C) xs ys i x y :
  nth_error xs i = Some x -> nth_error ys i = Some y ->
  nth_error (zipWith f xs ys) i = Some (f x y).
Proof.
  revert ys i. induction xs as [|x0 xs IH]; intros [|y0 ys] [|i] Hx Hy;
    simpl in *; try discriminate.
  - congruence.
  - apply IH; assumption.
Qed.

Lemma pairwise_row (b : R) (r : Tensor1) :
  broadcast (broadcast (pure2 Rplus)) (map (fun x => [b - x]) r) [r]
  = Ok (map (fun pj => map (fun pk => b - pj + pk) r) r).
Proof.
  destruct r as [|x [|x' r]].
  - reflexivity.
  - reflexivity.
  - set (row := x :: x' :: r).
    unfold broadcast at 1. subst row. simpl length. rewrite length_map. simpl Nat.eqb.
    cbv iota beta. simpl map at 1.
    change (mapM (fun a => broadcast (pure2 Rplus) a (x :: x' :: r))
                 (map (fun a => [b - a]) (x :: x' :: r))
            = Ok (map (fun pj => map (fun pk => b - pj + pk) (x :: x' :: r)) (x :: x' :: r))).
    set (row := x :: x' :: r).
    rewrite <- (map_map (fun a => [b - a]) (fun a => a)).
    rewrite map_id.
    assert (H : forall l, mapM (fun a => broadcast (pure2 Rplus) a row)
                               (map (fun a => [b - a]) l)
                          = Ok (map (fun pj => map (fun pk => b - pj + pk) row) l)).
    { induction l as [|a l IH]; [reflexivity|].
      simpl mapM. rewrite IH.
      assert (Ha : broadcast (pure2 Rplus) [b - a] row
                   = Ok (map (fun pk => b - a + pk) row)).
      { unfold broadcast. subst row. simpl length. simpl Nat.eqb. cbv iota.
        apply mapM_pure. apply Forall_forall. reflexivity. }
      rewrite Ha. reflexivity. }
    apply H.
Qed.

Lemma has_shape2_square {A B : Type} (f : A -> A -> B) (g : A -> A) (r : list A) cols :
  length r = cols ->
  has_shape2 cols cols (map (fun x => map (fun z => f x z) (map g r)) r).
Proof.
  intros H. split.
  - rewrite length_map. exact H.
  - rewrite Forall_map. apply Forall_forall. intros x _. simpl.
    rewrite !length_map. exact H.
Qed.

Lemma RealHingeLoss_example_sums_value rows cols predictions labels (b : option R) :
  has_shape2 rows cols predictions ->
  has_shape2 rows cols labels ->
  RealHingeLoss_example_sums predictions labels b
  = Ok (zipWith (real_hinge_row (keyword 0.2 b)) labels predictions).
Proof.
  intros [Hp Hrp] [Hy Hry].
  unfold RealHingeLoss_example_sums, tf_cast_float32. cbv zeta.
  set (m := keyword 0.2 b).
  (* the mask *)
  unfold einsum_ij_ik_ijk, scalar_rsub2.
  rewrite <- (map_id labels) at 1.
  rewrite zipWithM_map_diag.
  rewrite (mapM_pure _ (fun yr => map (fun x => map (fun z => x * z) (map (fun v => 1.0 - v) yr)) yr))
    by (apply Forall_forall; reflexivity).
  simpl bind.
  (* the pairwise differences *)
  unfold tf_add3, elementwise3, scalar_rsub3, tf_expand_dims_2, tf_expand_dims_1.
  rewrite map_map.
  rewrite broadcast_same_length by (rewrite !length_map; reflexivity).
  rewrite zipWithM_map_diag.
  rewrite (mapM_pure _ (fun r => map (fun pj => map (fun pk => m - pj + pk) r) r)).
  2:{ apply Forall_forall. intros r _. rewrite map_map. simpl. apply pairwise_row. }
  simpl bind.
  (* the product with the mask *)
  unfold tf_multiply3, elementwise3, scalar_rmaximum3.
  rewrite broadcast_same_length by (rewrite !length_map; congruence).
  rewrite (zipWithM_pure _ (zipWith2 Rmult)).
  2:{ rewrite !length_map. congruence. }
  2:{ intros lo ma Hlo Hma.
      rewrite map_map in Hlo. apply in_map_iff in Hlo. destruct Hlo as [pr [<- Hpr]].
      apply in_map_iff in Hma. destruct Hma as [yr [<- Hyr]].
      rewrite Forall_forall in Hrp, Hry.
      apply (elementwise2_same_shape Rmult cols cols).
      - apply has_shape2_map2.
        apply (has_shape2_square (fun pj pk => m - pj + pk) (fun v => v)) with (r := pr) (cols := cols) in Hrp;
          [|exact Hpr]. rewrite map_id in Hrp. exact Hrp.
      - apply has_shape2_square. apply Hry. exact Hyr. }
  simpl bind. f_equal.
  unfold tf_reduce_sum_12.
  rewrite map_zipWith, map_map, zipWith_map_l, zipWith_map_r.
  rewrite zipWith_swap. apply zipWith_ext. intros yr pr _ _.
  unfold real_hinge_row. do 2 f_equal.
  unfold zipWith2. rewrite !map_map. rewrite zipWith_map_l, zipWith_map_r.
  apply zipWith_ext. intros pj yj _ _.
  rewrite !zipWith_map_l, !zipWith_map_r.
  apply zipWith_ext. intros pk yk _ _.
  f_equal. f_equal. lra.
Qed.

Lemma real_hinge_row_no_pair (b : R) (y p : Tensor1) :
  Forall (fun v => v = 0) y \/ Forall (fun v => v = 1) y ->
  real_hinge_row b y p = 0.
Proof.
  intros H. unfold real_hinge_row. apply sum_zero.
  rewrite Forall_map. apply Forall_zipWith. intros pj yj _ Hyj.
  apply sum_zero. apply Forall_zipWith. intros pk yk _ Hyk.
  destruct H as [H | H]; rewrite Forall_forall in H.
  - rewrite (H yj Hyj). ring.
  - rewrite (H yk Hyk). ring.
Qed.

(** C8. In [RealHingeLoss.calculate_loss] every example whose labels are
    all zero or all one contributes exactly zero to the sums that are
    averaged into the loss, for any predictions and any margin [b]. *)
Theorem real_hinge_row_without_pair_contributes_zero :
  forall (rows cols : nat) (predictions labels : Tensor2) (b : option R),
    has_shape2 rows cols predictions ->
    has_shape2 rows cols labels ->
    exists example_sums : Tensor1,
      RealHingeLoss_example_sums predictions labels b = Ok example_sums
      /\ RealHingeLoss_calculate_loss predictions labels b = tf_reduce_mean example_sums
      /\ forall (i : nat) (row : Tensor1),
          nth_error labels i = Some row ->
          Forall (fun v => v = 0) row \/ Forall (fun v => v = 1) row ->
          nth_error example_sums i = Some 0.
Proof.
  intros rows cols predictions labels b Hp Hy.
  pose proof (RealHingeLoss_example_sums_value rows cols predictions labels b Hp Hy) as Hsums.
  eexists. split; [exact Hsums|]. split.
  - unfold RealHingeLoss_calculate_loss. rewrite Hsums. reflexivity.
  - intros i row Hrow Hflat.
    assert (Hi : (i < length predictions)%nat).
    { destruct Hp as [Hp _], Hy as [Hy _]. rewrite Hp, <- Hy.
      apply nth_error_Some. congruence. }
    destruct (nth_error predictions i) as [pr|] eqn:Hpr.
    2:{ apply nth_error_None in Hpr. lia. }
    rewrite (nth_error_zipWith _ _ _ _ _ _ Hrow Hpr).
    f_equal. apply real_hinge_row_no_pair. exact Hflat.
Qed.

Lemma real_hinge_row_without_pair_contributes_zero_witness :
  exists example_sums : Tensor1,
    RealHingeLoss_example_sums [[0.3; 0.7]; [0.1; 0.9]] [[1; 1]; [1; 0]] None = Ok example_sums
    /\ RealHingeLoss_calculate_loss [[0.3; 0.7]; [0.1; 0.9]] [[1; 1]; [1; 0]] None
       = tf_reduce_mean example_sums
    /\ forall (i : nat) (row : Tensor1),
        nth_error [[1; 1]; [1; 0]] i = Some row ->
        Forall (fun v => v = 0) row \/ Forall (fun v => v = 1) row ->
        nth_error example_sums i = Some 0.
Proof.
  apply (real_hinge_row_without_pair_contributes_zero 2 2).
  - split; [reflexivity | repeat constructor].
  - split; [reflexivity | repeat constructor].
Defined.

(** ** Softmax loss *)

Lemma sum_pos (l : list R) : Forall (fun x => 0 < x) l -> l <> [] -> 0 < sum l.
Proof.
  induction 1 as [|x l Hx Hl IH]; intros Hne; [congruence|].
  simpl. destruct l as [|y l].
  - simpl. lra.
  - assert (0 < sum (y :: l)) by (apply IH; discriminate). lra.
Qed.

Lemma softmax_row_pos (r : Tensor1) : Forall (fun x => 0 < x) (softmax_row r).
Proof.
  unfold softmax_row. rewrite Forall_map. apply Forall_forall.
  intros e He. simpl.
  assert (Hall : Forall (fun x => 0 < x) (map exp r)).
  { rewrite Forall_map. apply Forall_forall. intros v _. apply exp_pos. }
  assert (Hne : map exp r <> []) by (intros Heq; rewrite Heq in He; exact He).
  pose proof (sum_pos _ Hall Hne) as Hsum.
  rewrite Forall_forall in Hall.
  apply Rdiv_lt_0_compat; auto.
Qed.

Lemma softmax_row_length (r : Tensor1) : length (softmax_row r) = length r.
Proof. unfold softmax_row. rewrite !length_map. reflexivity. Qed.

Lemma has_shape2_map_rows {A B : Type} (f : list A -> list B) rows cols t :
  (forall r, length (f r) = length r) ->
  has_shape2 rows cols t -> has_shape2 rows cols (map f t).
Proof.
  intros Hf [Hlen Hall]. split.
  - rewrite length_map. exact Hlen.
  - rewrite Forall_map. eapply Forall_impl; [|exact Hall].
    intros r Hr. simpl in *. rewrite Hf. exact Hr.
Qed.

Lemma div_row (d : R) (r : Tensor1) :
  d <> 0 -> broadcast div_scalar r [d] = Ok (map (fun x => x / d) r).
Proof.
  intros Hd.
  assert (Hcell : forall x, div_scalar x d = Ok (x / d)).
  { intros x. unfold div_scalar. destruct (Req_dec_T d 0); [contradiction|reflexivity]. }
  destruct r as [|x [|x' r]].
  - reflexivity.
  - unfold broadcast. simpl. rewrite Hcell. reflexivity.
  - unfold broadcast. simpl length. simpl Nat.eqb. cbv iota.
    apply mapM_pure. apply Forall_forall. intros v _. apply Hcell.
Qed.

Lemma tf_div_by_rows (d : Tensor1 -> R) (t : Tensor2) :
  Forall (fun r => d r <> 0) t ->
  tf_div t (map (fun r => [d r]) t) = Ok (map (fun r => map (fun x => x / d r) r) t).
Proof.
  intros Hd. unfold tf_div.
  rewrite broadcast_same_length by (rewrite length_map; reflexivity).
  rewrite <- (map_id t) at 1. rewrite zipWithM_map_diag.
  apply mapM_pure. eapply Forall_impl; [|exact Hd].
  intros r Hr. simpl in *. apply div_row. exact Hr.
Qed.

Lemma SoftmaxLoss_value rows cols predictions labels :
  rows <> O ->
  has_shape2 rows cols predictions ->
  has_shape2 rows cols labels ->
  SoftmaxLoss_calculate_loss predictions labels
  = Ok (softmax_formula 10e-8 predictions labels).
Proof.
  intros Hrows Hp Hy.
  unfold SoftmaxLoss_calculate_loss, tf_cast_float32. cbv zeta.
  unfold scalar_maximum2, tf_reduce_sum_1_keep_dims. rewrite map_map.
  change (map (fun x : Tensor1 => map (fun x0 : R => Rmax x0 10e-8) [sum x]) labels)
    with (map (fun r : Tensor1 => [Rmax (sum r) 10e-8]) labels).
  rewrite (tf_div_by_rows (fun r => Rmax (sum r) 10e-8)).
  2:{ apply Forall_forall. intros r _.
      pose proof (Rmax_r (sum r) 10e-8). lra. }
  simpl bind.
  rewrite tf_log_ok.
  2:{ unfold tf_softmax, all_cells. rewrite Forall_map. apply Forall_forall.
      intros r _. apply softmax_row_pos. }
  simpl bind. unfold tf_multiply.
  rewrite (elementwise2_same_shape _ rows cols).
  2:{ apply has_shape2_map_rows; [|exact Hy]. intros r. apply length_map. }
  2:{ apply has_shape2_map2. apply has_shape2_map_rows; [|exact Hp].
      apply softmax_row_length. }
  simpl bind.
  assert (Hlen : length (zipWith (softmax_example 10e-8) labels predictions) = rows).
  { destruct Hp as [Hp _], Hy as [Hy _]. rewrite zipWith_length; [exact Hy|].
    transitivity rows; [exact Hy | symmetry; exact Hp]. }
  cbv zeta.
  match goal with
  | |- tf_reduce_mean ?v = _ =>
      replace v with (zipWith (softmax_example 10e-8) labels predictions)
  end.
  - rewrite tf_reduce_mean_ok; [reflexivity|].
    intros Hnil. rewrite Hnil in Hlen. simpl in Hlen. congruence.
  - unfold tf_negative1, tf_reduce_sum_1, tf_softmax, zipWith2.
    rewrite !map_map, zipWith_map_l, zipWith_map_r, !map_zipWith.
    apply zipWith_ext. intros yr pr _ _. unfold softmax_example.
    rewrite zipWith_map_l, zipWith_map_r. reflexivity.
Qed.




(** ** The abstract contract *)

(** C9. Calling [calculate_loss] on [BaseLoss] itself, with any
    arguments, signals the unimplemented operation error and returns no
    value. *)
Theorem base_loss_is_not_implemented :
  forall (unused_predictions unused_positives unused_labels : Tensor2)
         (unused_params : list (nat * R)),
    BaseLoss_calculate_loss unused_predictions unused_positives unused_labels unused_params
    = Err NotImplementedError
    /\ forall v : LossValue,
        BaseLoss_calculate_loss unused_predictions unused_positives unused_labels
                                unused_params <> Ok v.
Proof.
  intros. split; [reflexivity|]. intros v H. discriminate H.
Qed.

(** ** Resampling of positive classes *)

Lemma truncate_0 : truncate 0 = 0%Z.
Proof.
  assert (H0 : Int_part 0 = 0%Z) by (symmetry; apply Int_part_spec; simpl; lra).
  unfold truncate. destruct (Rle_dec 0 0) as [_|H]; [|exfalso; apply H; lra].
  rewrite H0. reflexivity.
Qed.

Lemma truncate_1 : truncate 1 = 1%Z.
Proof.
  assert (H1 : Int_part 1 = 1%Z) by (symmetry; apply Int_part_spec; simpl; lra).
  unfold truncate. destruct (Rle_dec 0 1) as [_|H]; [|exfalso; apply H; lra].
  rewrite H1. reflexivity.
Qed.

Lemma where_from_spec (l : list bool) :
  forall i c, In c (column0 (where_from i l)) ->
              (i <= c)%nat /\ nth_error l (c - i) = Some true.
Proof.
  induction l as [|b l IH]; intros i c Hin; simpl in Hin; [contradiction|].
  unfold column0 in Hin. rewrite map_app in Hin. apply in_app_or in Hin.
  destruct Hin as [Hin | Hin].
  - destruct b; simpl in Hin; [|contradiction].
    destruct Hin as [<- | []]. rewrite Nat.sub_diag. split; [lia | reflexivity].
  - apply IH in Hin. destruct Hin as [Hle Hnth]. split; [lia|].
    replace (c - i)%nat with (S (c - S i)) by lia. exact Hnth.
Qed.

Lemma where_from_nonempty (l : list bool) :
  forall i, In true l -> column0 (where_from i l) <> [].
Proof.
  induction l as [|b l IH]; intros i Hin; [contradiction|].
  simpl. unfold column0. rewrite map_app.
  destruct b; simpl; [discriminate|].
  destruct Hin as [Hin | Hin]; [discriminate|]. apply (IH (S i) Hin).
Qed.

Lemma where_from_all_false (l : list bool) :
  forall i, Forall (fun b => b = false) l -> where_from i l = [].
Proof.
  induction l as [|b l IH]; intros i H; [reflexivity|].
  inversion H; subst. simpl. apply IH. assumption.
Qed.

Lemma tf_tile_in {A : Type} (v : list A) (n : nat) (x : A) :
  In x (tf_tile v n) -> In x v.
Proof.
  unfold tf_tile. intros H. apply in_concat in H. destruct H as [w [Hw Hx]].
  apply repeat_spec in Hw. subst w. exact Hx.
Qed.

Lemma tf_tile_length {A : Type} (v : list A) (n : nat) :
  length (tf_tile v n) = (n * length v)%nat.
Proof.
  unfold tf_tile. induction n as [|n IH]; simpl; [reflexivity|].
  rewrite length_app, IH. reflexivity.
Qed.

Lemma tf_tile_nil {A : Type} (n : nat) : tf_tile (@nil A) n = [].
Proof. unfold tf_tile. induction n as [|n IH]; simpl; auto. Qed.

Lemma mapM_exists {A B : Type} (f : A -> result B) (P : B -> Prop) (l : list A) :
  Forall (fun x => exists y, f x = Ok y /\ P y) l ->
  exists ys, mapM f l = Ok ys /\ length ys = length l /\ Forall P ys.
Proof.
  induction 1 as [|x l [y [Hy HP]] _ [ys [Hys [Hlen Hall]]]].
  - exists []. simpl. auto.
  - exists (y :: ys). simpl. rewrite Hy, Hys. simpl. repeat split; auto.
Qed.

Lemma tf_gather_in_range {A : Type} (params : list A) (indices : list nat) :
  Forall (fun i => (i < length params)%nat) indices ->
  exists out, tf_gather params indices = Ok out
              /\ length out = length indices
              /\ Forall (fun x => In x params) out.
Proof.
  intros H. unfold tf_gather. apply mapM_exists.
  eapply Forall_impl; [|exact H]. intros i Hi. simpl in Hi.
  unfold gather_one. destruct (nth_error params i) as [x|] eqn:Hx.
  - exists x. split; [reflexivity|]. eapply nth_error_In. exact Hx.
  - apply nth_error_None in Hx. lia.
Qed.

Lemma tf_random_uniform_range (n bound : nat) (g : Rng) :
  bound <> O ->
  exists draws g', tf_random_uniform n 0 bound g = Ok (draws, g')
                   /\ length draws = n
                   /\ Forall (fun d => (d < bound)%nat) draws.
Proof.
  intros Hb. unfold tf_random_uniform.
  destruct (Nat.eqb_spec n 0) as [-> | Hn].
  { exists [], g. split; [reflexivity|]. split; [reflexivity | constructor]. }
  destruct (Nat.leb_spec bound 0) as [H|H]; [lia|].
  eexists; eexists. split; [reflexivity|]. split.
  - rewrite length_map, length_seq. reflexivity.
  - rewrite Forall_map. apply Forall_forall. intros k _. simpl.
    rewrite Nat.sub_0_r. apply Nat.mod_upper_bound. exact Hb.
Qed.

Lemma firstn_in {A : Type} (n : nat) (l : list A) (x : A) :
  In x (firstn n l) -> In x l.
Proof.
  revert l. induction n as [|n IH]; intros [|y l] H; simpl in *; try contradiction.
  destruct H as [H | H]; [left; exact H | right; apply IH; exact H].
Qed.

Lemma positive_sample_total (n : nat) (sample_label : list Z) (g : Rng) :
  n <> O ->
  Exists (fun z => (0 < z)%Z) sample_label ->
  exists s g',
    CosineHingeLoss_positive_sample n sample_label g = Ok (s, g')
    /\ length s = n
    /\ Forall (fun c => exists z, nth_error sample_label c = Some z /\ (0 < z)%Z) s.
Proof.
  intros Hn Hpos. unfold CosineHingeLoss_positive_sample, tf_where.
  set (v := column0 (where_from 0 (map (fun z => Z.ltb 0 z) sample_label))).
  assert (Hv : v <> []).
  { apply where_from_nonempty. apply Exists_exists in Hpos.
    destruct Hpos as [z [Hz Hlt]]. apply in_map_iff. exists z. split; [|exact Hz].
    apply Z.ltb_lt. exact Hlt. }
  assert (Hlen : length (firstn n (tf_tile v n)) = n).
  { rewrite length_firstn, tf_tile_length. destruct v; [congruence|]. simpl. nia. }
  destruct (tf_random_uniform_range n n g Hn) as [draws [g' [Hdraw [Hdlen Hrange]]]].
  rewrite Hdraw. simpl bind.
  destruct (tf_gather_in_range (firstn n (tf_tile v n)) draws) as [out [Hout [Holen Hin]]].
  { rewrite Hlen. exact Hrange. }
  rewrite Hout. simpl. exists out, g'. split; [reflexivity|]. split; [congruence|].
  eapply Forall_impl; [|exact Hin]. intros c Hc. simpl in Hc.
  apply firstn_in, tf_tile_in in Hc. apply where_from_spec in Hc.
  destruct Hc as [_ Hc]. rewrite Nat.sub_0_r in Hc.
  rewrite nth_error_map in Hc.
  destruct (nth_error sample_label c) as [z|]; simpl in Hc; [|discriminate].
  exists z. split; [reflexivity|]. apply Z.ltb_lt. congruence.
Qed.

Lemma positive_sample_fails (n : nat) (sample_label : list Z) (g : Rng) :
  n <> O ->
  Forall (fun z => z = 0%Z) sample_label ->
  exists e, CosineHingeLoss_positive_sample n sample_label g = Err e.
Proof.
  intros Hn Hzero. unfold CosineHingeLoss_positive_sample, tf_where.
  rewrite where_from_all_false.
  2:{ rewrite Forall_map. eapply Forall_impl; [|exact Hzero].
      intros z Hz. simpl in Hz. subst z. reflexivity. }
  simpl column0. rewrite tf_tile_nil, firstn_nil.
  destruct (tf_random_uniform_range n n g Hn) as [draws [g' [Hdraw [Hdlen _]]]].
  rewrite Hdraw. simpl bind.
  destruct draws as [|d draws]; [simpl in Hdlen; congruence|].
  exists InvalidArgumentError. simpl. unfold gather_one.
  destruct d; reflexivity.
Qed.

Lemma sample_loop_total (n : nat) (sample_labels : list (list Z)) :
  n <> O ->
  Forall (Exists (fun z => (0 < z)%Z)) sample_labels ->
  forall g, exists samples g',
      CosineHingeLoss_sample_loop n sample_labels g = Ok (samples, g')
      /\ Forall2 (fun row s =>
                    length s = n
                    /\ Forall (fun c => exists z, nth_error row c = Some z /\ (0 < z)%Z) s)
                 sample_labels samples.
Proof.
  intros Hn. induction 1 as [|row rows Hrow _ IH]; intros g.
  - exists [], g. split; [reflexivity | constructor].
  - destruct (positive_sample_total n row g Hn Hrow) as [s [g1 [Hs [Hlen Hall]]]].
    destruct (IH g1) as [ss [g2 [Hss Hrel]]].
    exists (s :: ss), g2. simpl. rewrite Hs. simpl. rewrite Hss. simpl.
    split; [reflexivity|]. constructor; auto.
Qed.

Lemma sample_loop_fails (n : nat) (sample_labels : list (list Z)) :
  n <> O ->
  Exists (Forall (fun z => z = 0%Z)) sample_labels ->
  forall g, exists e, CosineHingeLoss_sample_loop n sample_labels g = Err e.
Proof.
  intros Hn.
  induction 1 as [row rows Hrow | row rows _ IH]; intros g.
  - destruct (positive_sample_fails n row g Hn Hrow) as [e He].
    exists e. simpl. rewrite He. reflexivity.
  - simpl. destruct (CosineHingeLoss_positive_sample n row g) as [[s g1]|e].
    + simpl. destruct (IH g1) as [e He]. rewrite He. exists e. reflexivity.
    + exists e. reflexivity.
Qed.

Lemma positive_samples_fail (FLAGS : Flags) (labels : Tensor2) (g : Rng) :
  num_classes FLAGS <> O ->
  Exists (Forall (fun v => v = 0)) labels ->
  exists e, CosineHingeLoss_positive_samples FLAGS labels g = Err e.
Proof.
  intros Hn Hrow. unfold CosineHingeLoss_positive_samples, tf_unstack.
  destruct (Nat.eqb _ _); [|exists ShapeError; reflexivity].
  simpl bind.
  destruct (sample_loop_fails (num_classes FLAGS) (tf_cast_int32 labels) Hn) with (g := g)
    as [e He].
  - unfold tf_cast_int32. apply Exists_exists in Hrow. destruct Hrow as [row [Hin Hzero]].
    apply Exists_exists. exists (map truncate row). split; [apply in_map; exact Hin|].
    rewrite Forall_map. eapply Forall_impl; [|exact Hzero].
    intros v Hv. simpl in Hv. subst v. apply truncate_0.
  - rewrite He. exists e. reflexivity.
Qed.

(** The loop on two examples with the raw draws 0, 1, 2, 3: the first
    example has the single positive class 0, the second the classes 0 and 1. *)
Example sample_loop_two_examples :
  CosineHingeLoss_sample_loop 2 [[1; 0]; [1; 1]]%Z counting_rng
  = Ok ([[0; 0]; [0; 1]]%nat, {| raw := fun k => k; cursor := 4 |}).
Proof. reflexivity. Qed.

(** An example without a positive class stops the loop. *)
Example sample_loop_without_positive :
  CosineHingeLoss_sample_loop 2 [[1; 0]; [0; 0]]%Z counting_rng
  = Err InvalidArgumentError.
Proof. reflexivity. Qed.

Lemma Forall2_map_left {A A' B : Type} (f : A -> A') (P : A' -> B -> Prop) l l' :
  Forall2 P (map f l) l' -> Forall2 (fun x y => P (f x) y) l l'.
Proof.
  revert l'. induction l as [|x l IH]; intros l' H; simpl in H; inversion H; subst;
    constructor; auto.
Qed.

Lemma Forall2_impl_in {A B : Type} (P Q : A -> B -> Prop) l l' :
  (forall x y, In x l -> P x y -> Q x y) -> Forall2 P l l' -> Forall2 Q l l'.
Proof.
  intros H F. induction F as [|x y l l' Hxy _ IH]; constructor.
  - apply H; simpl; auto.
  - apply IH. intros; apply H; simpl; auto.
Qed.

Lemma positive_samples_total (FLAGS : Flags) (labels : Tensor2) (g : Rng) :
  has_shape2 (batch_size FLAGS) (num_classes FLAGS) labels ->
  all_cells binary labels ->
  Forall (Exists (fun v => v = 1)) labels ->
  exists samples g',
    CosineHingeLoss_positive_samples FLAGS labels g = Ok (tf_stack samples, g')
    /\ Forall2 (fun row s => length s = num_classes FLAGS
                             /\ Forall (fun c => nth_error row c = Some 1) s)
               labels samples.
Proof.
  intros [Hlen Hrows] Hbin Hpos.
  unfold CosineHingeLoss_positive_samples, tf_unstack, tf_cast_int32.
  rewrite length_map, Hlen, Nat.eqb_refl. simpl bind.
  destruct labels as [|row0 rest].
  - exists [], g. split; [reflexivity | constructor].
  - assert (Hn : num_classes FLAGS <> O).
    { inversion Hrows; subst. inversion Hpos; subst.
      match goal with H : Exists _ row0 |- _ => destruct H end;
        simpl in *; lia. }
    destruct (sample_loop_total (num_classes FLAGS) (map (map truncate) (row0 :: rest)) Hn)
      with (g := g) as [samples [g' [Hloop Hrel]]].
    { rewrite Forall_map. eapply Forall_impl; [|exact Hpos].
      intros row Hrow. simpl in *. apply Exists_exists in Hrow.
      destruct Hrow as [v [Hin Hv]]. apply Exists_exists. exists (truncate v).
      split; [apply in_map; exact Hin|]. subst v. rewrite truncate_1. lia. }
    rewrite Hloop. simpl. exists samples, g'. split; [reflexivity|].
    apply Forall2_map_left in Hrel.
    eapply Forall2_impl_in; [|exact Hrel].
    intros row s Hin [Hslen Hs]. split; [exact Hslen|].
    eapply Forall_impl; [|exact Hs]. intros c [z [Hc Hz]]. simpl in *.
    rewrite nth_error_map in Hc.
    destruct (nth_error row c) as [v|] eqn:Hv; simpl in Hc; [|discriminate].
    unfold all_cells in Hbin. rewrite Forall_forall in Hbin.
    pose proof (Hbin row Hin) as Hcells. rewrite Forall_forall in Hcells.
    destruct (Hcells v (nth_error_In _ _ Hv)) as [Hv0 | Hv1].
    + subst v. rewrite truncate_0 in Hc. injection Hc as <-. lia.
    + subst v. reflexivity.
Qed.

Lemma CosineHingeLoss_fails_with_sampling (FLAGS : Flags)
      (predictions positives labels : Tensor2) (margin adaptive : option R) (g : Rng) :
  (exists e, CosineHingeLoss_positive_samples FLAGS labels g = Err e) ->
  exists e,
    CosineHingeLoss_calculate_loss FLAGS predictions positives labels margin adaptive g
    = Err e.
Proof.
  intros [e He].
  unfold CosineHingeLoss_calculate_loss, CosineHingeLoss_hinge_loss,
    CosineHingeLoss_sim_sample_pos.
  cbv zeta. rewrite He.
  destruct (Rlt_dec 0 (keyword 5 adaptive));
    destruct (CosineHingeLoss_confidence predictions positives) as [sim|e'];
    simpl; eexists; reflexivity.
Qed.

(** C10. [CosineHingeLoss.calculate_loss] needs a positive label in every
    example: with at least one class, when some label row is all zero the
    resampling of positives fails, and so does the loss; when every row of
    labels has a positive entry the resampling is total, it draws
    [num_classes] classes for each example, and every class drawn is
    labelled positive for that example. *)
Theorem positive_resampling_needs_a_positive_label :
  forall (FLAGS : Flags) (labels : Tensor2) (g : Rng),
    has_shape2 (batch_size FLAGS) (num_classes FLAGS) labels ->
    all_cells binary labels ->
    (num_classes FLAGS <> O ->
     Exists (Forall (fun v => v = 0)) labels ->
     (exists e, CosineHingeLoss_positive_samples FLAGS labels g = Err e)
     /\ forall predictions positives margin adaptive,
         exists e,
           CosineHingeLoss_calculate_loss FLAGS predictions positives labels
                                          margin adaptive g = Err e)
    /\ (Forall (Exists (fun v => v = 1)) labels ->
        exists samples g',
          CosineHingeLoss_positive_samples FLAGS labels g = Ok (tf_stack samples, g')
          /\ Forall2 (fun row s => length s = num_classes FLAGS
                                   /\ Forall (fun c => nth_error row c = Some 1) s)
                     labels samples).
Proof.
  intros FLAGS labels g Hshape Hbin. split.
  - intros Hclasses Hzero.
    pose proof (positive_samples_fail FLAGS labels g Hclasses Hzero) as Hfail.
    split; [exact Hfail|]. intros.
    apply CosineHingeLoss_fails_with_sampling. exact Hfail.
  - intros Hpos. apply positive_samples_total; assumption.
Qed.

Lemma positive_resampling_needs_a_positive_label_witness :
  ((exists e,
       CosineHingeLoss_positive_samples (example_FLAGS 2 2) [[1; 0]; [0; 0]] counting_rng
       = Err e)
   /\ forall predictions positives margin adaptive,
       exists e,
         CosineHingeLoss_calculate_loss (example_FLAGS 2 2) predictions positives
                                        [[1; 0]; [0; 0]] margin adaptive counting_rng
         = Err e)
  /\ (exists samples g',
         CosineHingeLoss_positive_samples (example_FLAGS 2 2) [[1; 0]; [1; 1]] counting_rng
         = Ok (tf_stack samples, g')
         /\ Forall2 (fun row s => length s = 2%nat
                                  /\ Forall (fun c => nth_error row c = Some 1) s)
                    [[1; 0]; [1; 1]] samples).
Proof.
  split.
  - apply (positive_resampling_needs_a_positive_label
             (example_FLAGS 2 2) [[1; 0]; [0; 0]] counting_rng).
    + split; [reflexivity | repeat constructor].
    + repeat constructor; unfold binary; lra.
    + discriminate.
    + apply Exists_cons_tl. apply Exists_cons_hd. repeat constructor.
  - apply (positive_resampling_needs_a_positive_label
             (example_FLAGS 2 2) [[1; 0]; [1; 1]] counting_rng).
    + split; [reflexivity | repeat constructor].
    + repeat constructor; unfold binary; lra.
    + repeat constructor.
Defined.

(** Without any class there is nothing to draw, and the resampling of an
    example succeeds with no class, whatever its labels. *)
Example positive_sample_without_classes :
  forall (sample_label : list Z) (g : Rng),
    CosineHingeLoss_positive_sample 0 sample_label g = Ok ([], g).
Proof. reflexivity. Qed.

(** ** Cosine similarities *)

Lemma sum_squares_nonneg (u : Tensor1) : 0 <= sum (map (fun x => x * x) u).
Proof.
  induction u as [|x u IH]; simpl; [lra|]. nra.
Qed.

Lemma sum_squares_scale (c : R) (u : Tensor1) :
  sum (map (fun x => x * x) (map (fun x => x * c) u))
  = c * c * sum (map (fun x => x * x) u).
Proof.
  induction u as [|x u IH]; simpl; [ring|]. rewrite IH. ring.
Qed.

Lemma l2_normalize_row_norm (u : Tensor1) :
  sum (map (fun x => x * x) (l2_normalize_row u)) <= 1.
Proof.
  unfold l2_normalize_row. rewrite sum_squares_scale.
  set (s := sum (map (fun x => x * x) u)).
  assert (Hs : 0 <= s) by apply sum_squares_nonneg.
  assert (Hm : 0 < Rmax s 1e-12).
  { pose proof (Rmax_r s 1e-12). lra. }
  assert (Hle : s <= Rmax s 1e-12) by apply Rmax_l.
  rewrite <- Rinv_mult. rewrite sqrt_sqrt by lra.
  apply (Rmult_le_reg_l (Rmax s 1e-12)); [exact Hm|].
  rewrite <- Rmult_assoc, Rinv_r by lra. lra.
Qed.

Lemma l2_normalize_row_length (u : Tensor1) : length (l2_normalize_row u) = length u.
Proof. unfold l2_normalize_row. apply length_map. Qed.

Lemma dot_product_bound (a b : Tensor1) :
  2 * sum (map (fun p => fst p * snd p) (combine a b))
  <= sum (map (fun x => x * x) a) + sum (map (fun x => x * x) b).
Proof.
  revert b. induction a as [|x a IH]; intros [|y b]; simpl.
  - lra.
  - pose proof (sum_squares_nonneg b). nra.
  - pose proof (sum_squares_nonneg a). nra.
  - specialize (IH b).
    pose proof (Rle_0_sqr (x - y)) as Hsq. unfold Rsqr in Hsq.
    lra.
Qed.

Lemma dot_normalized (u v : Tensor1) :
  length u = length v ->
  exists s, dot (l2_normalize_row u) (l2_normalize_row v) = Ok s /\ s <= 1.
Proof.
  intros Hlen. unfold dot. rewrite !l2_normalize_row_length, Hlen, Nat.eqb_refl.
  eexists. split; [reflexivity|].
  pose proof (dot_product_bound (l2_normalize_row u) (l2_normalize_row v)).
  pose proof (l2_normalize_row_norm u). pose proof (l2_normalize_row_norm v). lra.
Qed.

Lemma CosineHingeLoss_confidence_total rows classes dims predictions positives :
  has_shape2 rows dims predictions ->
  has_shape2 classes dims positives ->
  exists sim_pos,
    CosineHingeLoss_confidence predictions positives = Ok sim_pos
    /\ has_shape2 rows classes sim_pos
    /\ all_cells (fun s => s <= 1) sim_pos.
Proof.
  intros [Hp Hrp] [Hq Hrq].
  unfold CosineHingeLoss_confidence, einsum_ik_jk_ij, tf_l2_normalize_dim1. cbv zeta.
  destruct (mapM_exists
              (fun a_i => mapM (fun b_j => dot a_i b_j) (map l2_normalize_row positives))
              (fun row => length row = classes /\ Forall (fun s => s <= 1) row)
              (map l2_normalize_row predictions)) as [sim [Hsim [Hlen Hall]]].
  { rewrite Forall_map. eapply Forall_impl; [|exact Hrp]. intros u Hu. simpl in Hu.
    destruct (mapM_exists (fun b_j => dot (l2_normalize_row u) b_j) (fun s => s <= 1)
                          (map l2_normalize_row positives)) as [row [Hrow [Hl Hb]]].
    - rewrite Forall_map. eapply Forall_impl; [|exact Hrq]. intros v Hv. simpl in Hv.
      apply dot_normalized. congruence.
    - exists row. split; [exact Hrow|]. split; [|exact Hb].
      rewrite Hl, length_map. exact Hq. }
  exists sim. split; [exact Hsim|]. split.
  - split.
    + rewrite Hlen, length_map. exact Hp.
    + eapply Forall_impl; [|exact Hall]. intros r [H _]. exact H.
  - eapply Forall_impl; [|exact Hall]. intros r [_ H]. exact H.
Qed.

(** ** The least similarity among the true classes *)

Lemma min_list_spec (l : Tensor1) :
  l <> [] ->
  exists m, min_list l = Ok m /\ In m l /\ Forall (fun x => m <= x) l.
Proof.
  induction l as [|x l IH]; intros Hne; [congruence|].
  destruct l as [|y l].
  - exists x. simpl. repeat split; auto. constructor; [lra | constructor].
  - destruct IH as [m [Hm [Hin Hall]]]; [discriminate|].
    exists (Rmin x m). split; [|split].
    + change (min_list (x :: y :: l)) with (m0 <- min_list (y :: l) ;; Ok (Rmin x m0)).
      rewrite Hm. reflexivity.
    + unfold Rmin. destruct (Rle_dec x m); [left; reflexivity | right; exact Hin].
    + constructor; [apply Rmin_l|].
      eapply Forall_impl; [|exact Hall]. intros z Hz. simpl in Hz.
      pose proof (Rmin_r x m). lra.
Qed.

Lemma in_zipWith {A B C : Type} (f : A -> B -> C) xs ys z :
  In z (zipWith f xs ys) ->
  exists k x y, nth_error xs k = Some x /\ nth_error ys k = Some y /\ z = f x y.
Proof.
  revert ys. induction xs as [|x xs IH]; intros [|y ys] H; simpl in H; try contradiction.
  destruct H as [H | H].
  - exists O, x, y. simpl. auto.
  - destruct (IH ys H) as [k [x' [y' [Hx [Hy Hz]]]]].
    exists (S k), x', y'. simpl. auto.
Qed.

Lemma mapM_nth {A B : Type} (f : A -> result B) (l : list A) (out : list B) i x :
  mapM f l = Ok out -> nth_error l i = Some x ->
  exists y, nth_error out i = Some y /\ f x = Ok y.
Proof.
  revert out i. induction l as [|a l IH]; intros out i Hm Hx.
  - destruct i; discriminate.
  - simpl in Hm. destruct (f a) as [b|e] eqn:Hfa; simpl in Hm; [|discriminate].
    destruct (mapM f l) as [bs|e] eqn:Hl; simpl in Hm; [|discriminate].
    injection Hm as <-. destruct i as [|i]; simpl in *.
    + injection Hx as <-. exists b. auto.
    + apply (IH bs i eq_refl Hx).
Qed.

Lemma least_of_masked_row (sims labels : Tensor1) (m : R) :
  Forall (fun s => s <= 1) sims ->
  Forall binary labels ->
  Exists (fun v => v = 1) labels ->
  length sims = length labels ->
  min_list (zipWith (fun s l => (s - 1.0) * l) sims labels) = Ok m ->
  least_over_true sims labels (m + 1.0).
Proof.
  intros Hs Hl Hex Hlen Hmin.
  set (f := fun s l : R => (s - 1.0) * l) in *.
  destruct (min_list_spec (zipWith f sims labels)) as [m' [Hm' [Hin Hall]]].
  { apply Exists_exists in Hex. destruct Hex as [v [Hv _]].
    intros Hnil. pose proof (zipWith_length f sims labels Hlen) as HL.
    rewrite Hnil in HL. simpl in HL. destruct labels; [contradiction|].
    simpl in Hlen. lia. }
  rewrite Hmin in Hm'. injection Hm' as <-.
  rewrite Forall_forall in Hs, Hl, Hall.
  assert (Hbound : forall j v, nth_error labels j = Some 1 -> nth_error sims j = Some v ->
                               m <= v - 1).
  { intros j v Hj Hv.
    assert (Hcell : In (f v 1) (zipWith f sims labels)).
    { eapply nth_error_In. apply (nth_error_zipWith f _ _ j); eassumption. }
    apply Hall in Hcell. unfold f in Hcell. lra. }
  split.
  - apply in_zipWith in Hin. destruct Hin as [k [s [l [Hsk [Hlk Hm]]]]].
    destruct (Hl l (nth_error_In _ _ Hlk)) as [-> | ->].
    + apply Exists_exists in Hex. destruct Hex as [v [Hv ->]].
      apply In_nth_error in Hv. destruct Hv as [j Hj].
      assert (Hjs : (j < length sims)%nat).
      { rewrite Hlen. apply nth_error_Some. congruence. }
      destruct (nth_error sims j) as [sj|] eqn:Hsj.
      2:{ apply nth_error_None in Hsj. lia. }
      exists j. split; [exact Hj|].
      pose proof (Hbound j sj Hj Hsj) as Hle.
      pose proof (Hs sj (nth_error_In _ _ Hsj)) as Hle1.
      unfold f in Hm. replace (m + 1.0) with sj by lra. exact Hsj.
    + exists k. split; [exact Hlk|]. unfold f in Hm.
      replace (m + 1.0) with s by lra. exact Hsk.
  - intros j v Hj Hv. pose proof (Hbound j v Hj Hv). lra.
Qed.

Lemma has_shape2_row {A : Type} rows cols (t : list (list A)) i r :
  has_shape2 rows cols t -> nth_error t i = Some r -> length r = cols.
Proof.
  intros [_ H] Hr. rewrite Forall_forall in H. apply H.
  eapply nth_error_In. exact Hr.
Qed.

Lemma all_cells_row (P : R -> Prop) (t : Tensor2) i r :
  all_cells P t -> nth_error t i = Some r -> Forall P r.
Proof.
  intros H Hr. unfold all_cells in H. rewrite Forall_forall in H. apply H.
  eapply nth_error_In. exact Hr.
Qed.

Lemma CosineHingeLoss_min_sim_total rows classes (sim_pos labels : Tensor2) :
  classes <> O ->
  has_shape2 rows classes sim_pos ->
  has_shape2 rows classes labels ->
  exists min_sim,
    CosineHingeLoss_min_sim sim_pos labels = Ok min_sim
    /\ has_shape2 rows 1 min_sim
    /\ forall i srow lrow,
        nth_error sim_pos i = Some srow ->
        nth_error labels i = Some lrow ->
        exists m, nth_error min_sim i = Some [m + 1.0]
                  /\ min_list (zipWith (fun s l => (s - 1.0) * l) srow lrow) = Ok m.
Proof.
  intros Hc Hs Hl. unfold CosineHingeLoss_min_sim, tf_multiply, scalar_sub2.
  rewrite (elementwise2_same_shape _ rows classes)
    by (try apply has_shape2_map2; assumption).
  simpl bind. rewrite zipWith2_map_l.
  set (f := fun s l : R => (s - 1.0) * l).
  pose proof (has_shape2_zipWith2 f rows classes sim_pos labels Hs Hl) as Hshape.
  unfold tf_reduce_min_1_keep_dims.
  destruct (mapM_exists (fun r => m <- min_list r ;; Ok [m]) (fun y => length y = 1%nat)
                        (zipWith2 f sim_pos labels)) as [least [Hleast [Hlen Hone]]].
  { destruct Hshape as [_ Hrows]. eapply Forall_impl; [|exact Hrows].
    intros r Hr. simpl in Hr.
    destruct (min_list_spec r) as [m [Hm _]].
    - intros ->. simpl in Hr. congruence.
    - exists [m]. rewrite Hm. auto. }
  rewrite Hleast. simpl bind. eexists. split; [reflexivity|]. split.
  - unfold scalar_add2. apply has_shape2_map2. split; [|exact Hone].
    rewrite Hlen. apply Hshape.
  - intros i srow lrow Hsi Hli.
    pose proof (nth_error_zipWith (zipWith f) _ _ _ _ _ Hsi Hli) as Hrow.
    destruct (mapM_nth _ _ _ _ _ Hleast Hrow) as [y [Hy Hg]].
    destruct (min_list (zipWith f srow lrow)) as [m|e] eqn:Hm; simpl in Hg; [|discriminate].
    injection Hg as <-. exists m. split; [|reflexivity].
    unfold scalar_add2. rewrite nth_error_map, Hy. reflexivity.
Qed.

(** C6. In [CosineHingeLoss.calculate_loss], for every example whose
    label row has at least one positive entry, [min_sim], computed as
    [reduce_min((sim_pos - 1) * mask) + 1] over the class axis, is the least
    cosine similarity [sim_pos[i,j]] over exactly the classes [j] labelled
    true for that example; every cosine similarity is at most 1. *)
Theorem min_sim_is_least_similarity_of_true_classes :
  forall (rows classes dims : nat) (predictions positives labels : Tensor2),
    classes <> O ->
    has_shape2 rows dims predictions ->
    has_shape2 classes dims positives ->
    has_shape2 rows classes labels ->
    all_cells binary labels ->
    exists sim_pos min_sim : Tensor2,
      CosineHingeLoss_confidence predictions positives = Ok sim_pos
      /\ all_cells (fun s => s <= 1) sim_pos
      /\ CosineHingeLoss_min_sim sim_pos (tf_cast_float32 labels) = Ok min_sim
      /\ forall (i : nat) (srow lrow : Tensor1),
          nth_error sim_pos i = Some srow ->
          nth_error labels i = Some lrow ->
          Exists (fun v => v = 1) lrow ->
          exists m, nth_error min_sim i = Some [m] /\ least_over_true srow lrow m.
Proof.
  intros rows classes dims predictions positives labels Hc Hp Hq Hl Hbin.
  destruct (CosineHingeLoss_confidence_total rows classes dims predictions positives Hp Hq)
    as [sim_pos [Hsim [Hshape Hle]]].
  destruct (CosineHingeLoss_min_sim_total rows classes sim_pos labels Hc Hshape Hl)
    as [min_sim [Hmin [_ Hrows]]].
  exists sim_pos, min_sim.
  split; [exact Hsim|]. split; [exact Hle|]. split; [exact Hmin|].
  intros i srow lrow Hsi Hli Hex.
  destruct (Hrows i srow lrow Hsi Hli) as [m [Hm Hleast]].
  exists (m + 1.0). split; [exact Hm|].
  apply least_of_masked_row.
  - exact (all_cells_row _ _ _ _ Hle Hsi).
  - exact (all_cells_row _ _ _ _ Hbin Hli).
  - exact Hex.
  - rewrite (has_shape2_row _ _ _ _ _ Hshape Hsi), (has_shape2_row _ _ _ _ _ Hl Hli).
    reflexivity.
  - exact Hleast.
Qed.

Lemma min_sim_is_least_similarity_of_true_classes_witness :
  exists sim_pos min_sim : Tensor2,
    CosineHingeLoss_confidence [[1; 0]; [3; 4]] [[1; 0]; [0; 2]; [1; 1]] = Ok sim_pos
    /\ all_cells (fun s => s <= 1) sim_pos
    /\ CosineHingeLoss_min_sim sim_pos (tf_cast_float32 [[1; 0; 1]; [0; 1; 0]]) = Ok min_sim
    /\ forall (i : nat) (srow lrow : Tensor1),
        nth_error sim_pos i = Some srow ->
        nth_error [[1; 0; 1]; [0; 1; 0]] i = Some lrow ->
        Exists (fun v => v = 1) lrow ->
        exists m, nth_error min_sim i = Some [m] /\ least_over_true srow lrow m.
Proof.
  apply (min_sim_is_least_similarity_of_true_classes 2 3 2).
  - discriminate.
  - split; [reflexivity | repeat constructor].
  - split; [reflexivity | repeat constructor].
  - split; [reflexivity | repeat constructor].
  - repeat constructor; unfold binary; lra.
Defined.

(** ** The cosine hinge loss as a whole *)

Lemma broadcast_row_scalar {A B C : Type} (f : A -> B -> C) (r : list A) (d : B) :
  broadcast (pure2 f) r [d] = Ok (map (fun x => f x d) r).
Proof.
  destruct r as [|x [|x' r]].
  - reflexivity.
  - reflexivity.
  - unfold broadcast. simpl length. simpl Nat.eqb. cbv iota.
    apply mapM_pure. apply Forall_forall. reflexivity.
Qed.

Lemma zipWithM_exists {A B C : Type} (f : A -> B -> result C) (P : C -> Prop) :
  forall xs ys,
    length xs = length ys ->
    (forall x y, In x xs -> In y ys -> exists z, f x y = Ok z /\ P z) ->
    exists zs, zipWithM f xs ys = Ok zs /\ length zs = length xs /\ Forall P zs.
Proof.
  induction xs as [|x xs IH]; intros [|y ys] Hlen Hf; simpl in *; try discriminate.
  - exists []. auto.
  - destruct (Hf x y) as [z [Hz HP]]; auto.
    destruct (IH ys) as [zs [Hzs [Hl Hall]]]; [lia | auto |].
    exists (z :: zs). rewrite Hz, Hzs. simpl. repeat split; auto.
Qed.

Lemma elementwise2_column {A C : Type} (f : A -> R -> C) rows cols
      (a : list (list A)) (b : Tensor2) :
  has_shape2 rows cols a ->
  has_shape2 rows 1 b ->
  exists out, elementwise2 f a b = Ok out /\ has_shape2 rows cols out.
Proof.
  intros [Ha Hra] [Hb Hrb]. unfold elementwise2.
  rewrite broadcast_same_length by congruence.
  destruct (zipWithM_exists (broadcast (pure2 f)) (fun r => length r = cols) a b)
    as [out [Hout [Hlen Hall]]].
  - congruence.
  - intros r d Hr Hd. rewrite Forall_forall in Hra, Hrb.
    pose proof (Hrb d Hd) as Hone. destruct d as [|m [|m' d]]; simpl in Hone; try lia.
    rewrite broadcast_row_scalar. eexists. split; [reflexivity|].
    rewrite length_map. apply Hra. exact Hr.
  - exists out. split; [exact Hout|]. split; [congruence | exact Hall].
Qed.

Lemma all_cells_zipWith2 (P : R -> Prop) {A B : Type} (f : A -> B -> R) a b :
  (forall x y, P (f x y)) -> all_cells P (zipWith2 f a b).
Proof.
  intros H. unfold all_cells, zipWith2. apply Forall_zipWith. intros r s _ _.
  apply Forall_zipWith. intros; apply H.
Qed.

Lemma CosineHingeLoss_mask_wrong_total rows classes dims predictions positives labels :
  classes <> O ->
  has_shape2 rows dims predictions ->
  has_shape2 classes dims positives ->
  has_shape2 rows classes labels ->
  all_cells binary labels ->
  exists wrong,
    CosineHingeLoss_mask_wrong predictions positives labels = Ok wrong
    /\ has_shape2 rows classes wrong
    /\ all_cells (fun w => 0 <= w) wrong.
Proof.
  intros Hc Hp Hq Hl Hbin. unfold CosineHingeLoss_mask_wrong, tf_cast_float32. cbv zeta.
  destruct (CosineHingeLoss_confidence_total rows classes dims predictions positives Hp Hq)
    as [sim_pos [Hsim [Hshape _]]].
  rewrite Hsim. simpl bind.
  destruct (CosineHingeLoss_min_sim_total rows classes sim_pos labels Hc Hshape Hl)
    as [min_sim [Hmin [Hmshape _]]].
  rewrite Hmin. simpl bind.
  destruct (elementwise2_column Rgtb rows classes sim_pos min_sim Hshape Hmshape)
    as [above [Habove Hashape]].
  unfold tf_greater. rewrite Habove. simpl bind.
  unfold tf_multiply, tf_cast_bool_float32, scalar_rsub2, tf_stop_gradient.
  rewrite (elementwise2_same_shape _ rows classes) by (apply has_shape2_map2; assumption).
  simpl bind. eexists. split; [reflexivity|]. split.
  - apply has_shape2_zipWith2; apply has_shape2_map2; assumption.
  - rewrite zipWith2_map_l. unfold all_cells, zipWith2.
    apply Forall_zipWith. intros brow lrow _ Hlrow.
    apply Forall_zipWith. intros bit l _ Hlin.
    apply in_map_iff in Hlrow. destruct Hlrow as [lrow0 [<- Hlrow0]].
    apply in_map_iff in Hlin. destruct Hlin as [l0 [<- Hl0]].
    unfold all_cells in Hbin. rewrite Forall_forall in Hbin.
    pose proof (Hbin lrow0 Hlrow0) as Hcells. rewrite Forall_forall in Hcells.
    destruct (Hcells l0 Hl0) as [-> | ->]; destruct bit; lra.
Qed.

Lemma Forall2_length_eq {A B : Type} (P : A -> B -> Prop) l l' :
  Forall2 P l l' -> length l = length l'.
Proof. induction 1; simpl; congruence. Qed.

Lemma Forall2_right {A B : Type} (P : A -> B -> Prop) (Q : B -> Prop) l l' :
  (forall x y, In x l -> P x y -> Q y) -> Forall2 P l l' -> Forall Q l'.
Proof.
  intros H F. induction F as [|x y l l' Hxy _ IH]; constructor.
  - apply (H x); simpl; auto.
  - apply IH. intros x' y' Hin. apply H. simpl; auto.
Qed.

Lemma tf_stack_of_rows (rows : list (list nat)) :
  rows <> [] -> tf_stack rows = Int32Ids rows.
Proof. destruct rows; [congruence | reflexivity]. Qed.

Lemma CosineHingeLoss_sim_sample_pos_total
      (FLAGS : Flags) dims predictions positives labels (g : Rng) :
  batch_size FLAGS <> O ->
  has_shape2 (batch_size FLAGS) dims predictions ->
  has_shape2 (num_classes FLAGS) dims positives ->
  has_shape2 (batch_size FLAGS) (num_classes FLAGS) labels ->
  all_cells binary labels ->
  Forall (Exists (fun v => v = 1)) labels ->
  exists sim_sample_pos,
    CosineHingeLoss_sim_sample_pos FLAGS predictions positives labels g = Ok sim_sample_pos
    /\ has_shape2 (batch_size FLAGS) (num_classes FLAGS) sim_sample_pos.
Proof.
  intros Hbatch Hp Hq Hl Hbin Hpos.
  unfold CosineHingeLoss_sim_sample_pos. cbv zeta.
  destruct (positive_samples_total FLAGS labels g Hl Hbin Hpos)
    as [samples [g' [Hsamples Hrel]]].
  rewrite Hsamples. simpl bind. simpl fst.
  rewrite tf_stack_of_rows.
  2:{ intros Hnil. pose proof (Forall2_length_eq _ _ _ Hrel) as Hsl.
      rewrite Hnil in Hsl. destruct Hl as [Hl _]. simpl in Hsl. congruence. }
  (* the embeddings of the sampled classes *)
  assert (Hids : Forall (fun s => length s = num_classes FLAGS
                                  /\ Forall (fun c => (c < length positives)%nat) s) samples).
  { eapply Forall2_right; [|exact Hrel]. intros row s Hin [Hlen Hs].
    split; [exact Hlen|]. eapply Forall_impl; [|exact Hs]. intros c Hc. simpl in Hc.
    destruct Hq as [Hq _]. rewrite Hq.
    destruct Hl as [_ Hl]. rewrite Forall_forall in Hl. rewrite <- (Hl row Hin).
    apply nth_error_Some. congruence. }
  destruct (mapM_exists (tf_gather positives) (has_shape2 (num_classes FLAGS) dims) samples)
    as [sample_positives [Hlookup [Hlen Hshapes]]].
  { eapply Forall_impl; [|exact Hids]. intros s [Hslen Hs]. simpl in Hs.
    destruct (tf_gather_in_range positives s Hs) as [out [Hout [Holen Hin]]].
    exists out. split; [exact Hout|]. split; [congruence|].
    eapply Forall_impl; [|exact Hin]. intros x Hx. simpl in Hx.
    destruct Hq as [_ Hq]. rewrite Forall_forall in Hq. apply Hq. exact Hx. }
  unfold tf_embedding_lookup. rewrite Hlookup. simpl bind.
  (* the similarities *)
  unfold einsum_ik_ijk_ij, tf_l2_normalize_dim1, tf_l2_normalize_dim2.
  destruct (zipWithM_exists
              (fun a_i t_i => mapM (fun t_ij => dot a_i t_ij) t_i)
              (fun r => length r = num_classes FLAGS)
              (map l2_normalize_row predictions)
              (map (map l2_normalize_row) sample_positives))
    as [out [Hout [Holen Hrows]]].
  - rewrite !length_map. destruct Hp as [Hp _], Hl as [Hl _].
    pose proof (Forall2_length_eq _ _ _ Hrel) as Hsl.
    etransitivity; [exact Hp|]. etransitivity; [symmetry; exact Hl|].
    etransitivity; [exact Hsl|]. symmetry. exact Hlen.
  - intros a t Ha Ht.
    apply in_map_iff in Ha. destruct Ha as [u [<- Hu]].
    apply in_map_iff in Ht. destruct Ht as [m [<- Hm]].
    rewrite Forall_forall in Hshapes. destruct (Hshapes m Hm) as [Hmlen Hmrows].
    destruct (mapM_exists (fun t_ij => dot (l2_normalize_row u) t_ij) (fun s => s <= 1)
                          (map l2_normalize_row m)) as [row [Hrow [Hrlen _]]].
    + rewrite Forall_map. eapply Forall_impl; [|exact Hmrows]. intros v Hv. simpl in Hv.
      apply dot_normalized. destruct Hp as [_ Hp]. rewrite Forall_forall in Hp.
      rewrite (Hp u Hu). congruence.
    + exists row. split; [exact Hrow|]. rewrite Hrlen, length_map. exact Hmlen.
  - exists out. split; [exact Hout|]. split; [|exact Hrows].
    rewrite Holen, length_map. apply Hp.
Qed.

Lemma CosineHingeLoss_hinge_loss_total
      (FLAGS : Flags) dims predictions positives labels (margin : R) (g : Rng) :
  batch_size FLAGS <> O ->
  has_shape2 (batch_size FLAGS) dims predictions ->
  has_shape2 (num_classes FLAGS) dims positives ->
  has_shape2 (batch_size FLAGS) (num_classes FLAGS) labels ->
  all_cells binary labels ->
  Forall (Exists (fun v => v = 1)) labels ->
  exists sim_pos sim_sample_pos,
    CosineHingeLoss_confidence predictions positives = Ok sim_pos
    /\ CosineHingeLoss_sim_sample_pos FLAGS predictions positives labels g = Ok sim_sample_pos
    /\ CosineHingeLoss_hinge_loss FLAGS predictions positives labels margin g
       = Ok (zipWith2 (fun s s' => Rmax (s - s' + margin) 0) sim_pos sim_sample_pos)
    /\ has_shape2 (batch_size FLAGS) (num_classes FLAGS) sim_pos
    /\ has_shape2 (batch_size FLAGS) (num_classes FLAGS) sim_sample_pos.
Proof.
  intros Hbatch Hp Hq Hl Hbin Hpos.
  destruct (CosineHingeLoss_confidence_total _ _ _ predictions positives Hp Hq)
    as [sim_pos [Hsim [Hshape _]]].
  destruct (CosineHingeLoss_sim_sample_pos_total FLAGS dims predictions positives labels g
                                                 Hbatch Hp Hq Hl Hbin Hpos)
    as [sim_sample_pos [Hsample Hsshape]].
  exists sim_pos, sim_sample_pos.
  split; [exact Hsim|]. split; [exact Hsample|]. split; [|split; assumption].
  unfold CosineHingeLoss_hinge_loss. rewrite Hsim, Hsample. simpl bind.
  unfold tf_subtract.
  rewrite (elementwise2_same_shape _ (batch_size FLAGS) (num_classes FLAGS)) by assumption.
  simpl bind. f_equal.
  unfold scalar_maximum2, scalar_add2. rewrite !map2_zipWith2.
  apply zipWith2_ext. intros s s'. f_equal. lra.
Qed.

Lemma classes_nonzero rows classes (labels : Tensor2) :
  rows <> O ->
  has_shape2 rows classes labels ->
  Forall (Exists (fun v => v = 1)) labels ->
  classes <> O.
Proof.
  intros Hrows [Hlen Hall] Hpos. destruct labels as [|row rest]; [simpl in Hlen; congruence|].
  inversion Hall; subst. inversion Hpos; subst.
  match goal with H : Exists _ row |- _ => destruct H end; simpl; discriminate.
Qed.

Lemma CosineHingeLoss_value
      (FLAGS : Flags) dims predictions positives labels
      (margin adaptive : option R) (g : Rng) :
  batch_size FLAGS <> O ->
  has_shape2 (batch_size FLAGS) dims predictions ->
  has_shape2 (num_classes FLAGS) dims positives ->
  has_shape2 (batch_size FLAGS) (num_classes FLAGS) labels ->
  all_cells binary labels ->
  Forall (Exists (fun v => v = 1)) labels ->
  exists sim_pos sim_sample_pos,
    CosineHingeLoss_confidence predictions positives = Ok sim_pos
    /\ CosineHingeLoss_sim_sample_pos FLAGS predictions positives labels g = Ok sim_sample_pos
    /\ has_shape2 (batch_size FLAGS) (num_classes FLAGS)
                  (cosine_hinge (keyword 0.2 margin) sim_pos sim_sample_pos)
    /\ (0 < keyword 5 adaptive ->
        batch_size FLAGS <> O ->
        exists mask_wrong,
          CosineHingeLoss_mask_wrong predictions positives labels = Ok mask_wrong
          /\ has_shape2 (batch_size FLAGS) (num_classes FLAGS) mask_wrong
          /\ all_cells (fun w => 0 <= w) mask_wrong
          /\ CosineHingeLoss_calculate_loss FLAGS predictions positives labels
                                            margin adaptive g
             = Ok (Scalar
                     (keyword 5 adaptive
                      * masked_mean (cosine_hinge (keyword 0.2 margin) sim_pos sim_sample_pos)
                                    mask_wrong
                      + masked_mean (cosine_hinge (keyword 0.2 margin) sim_pos sim_sample_pos)
                                    (map (map (fun y => 1 - y)) labels))))
    /\ (keyword 5 adaptive <= 0 ->
        CosineHingeLoss_calculate_loss FLAGS predictions positives labels margin adaptive g
        = Ok (Elementwise (cosine_hinge (keyword 0.2 margin) sim_pos sim_sample_pos))).
Proof.
  intros Hbatch Hp Hq Hl Hbin Hpos.
  destruct (CosineHingeLoss_hinge_loss_total FLAGS dims predictions positives labels
                                             (keyword 0.2 margin) g Hbatch Hp Hq Hl Hbin Hpos)
    as [sim_pos [sim_sample_pos [Hsim [Hsample [Hhinge [Hshape Hsshape]]]]]].
  exists sim_pos, sim_sample_pos.
  assert (Hhshape : has_shape2 (batch_size FLAGS) (num_classes FLAGS)
                               (cosine_hinge (keyword 0.2 margin) sim_pos sim_sample_pos))
    by (apply has_shape2_zipWith2; assumption).
  split; [exact Hsim|]. split; [exact Hsample|]. split; [exact Hhshape|]. split.
  - intros Hadaptive Hrows.
    pose proof (classes_nonzero _ _ _ Hrows Hl Hpos) as Hclasses.
    destruct (CosineHingeLoss_mask_wrong_total _ _ _ predictions positives labels
                                               Hclasses Hp Hq Hl Hbin)
      as [wrong [Hwrong [Hwshape Hwcells]]].
    exists wrong. split; [exact Hwrong|]. split; [exact Hwshape|]. split; [exact Hwcells|].
    unfold CosineHingeLoss_calculate_loss. cbv zeta.
    destruct (Rlt_dec 0 (keyword 5 adaptive)) as [_|Hn]; [|contradiction].
    rewrite Hhinge, Hwrong. simpl bind. unfold tf_multiply.
    fold (cosine_hinge (keyword 0.2 margin) sim_pos sim_sample_pos).
    rewrite (elementwise2_same_shape _ (batch_size FLAGS) (num_classes FLAGS)) by assumption.
    simpl bind. unfold tf_reduce_sum_1. rewrite tf_reduce_mean_ok.
    2:{ apply map_nonempty. eapply has_shape2_nonempty; [|exact Hrows].
        apply has_shape2_zipWith2; eassumption. }
    simpl bind.
    rewrite (elementwise2_same_shape _ (batch_size FLAGS) (num_classes FLAGS))
      by (try apply has_shape2_map2; assumption).
    simpl bind. rewrite tf_reduce_mean_ok.
    2:{ apply map_nonempty. eapply has_shape2_nonempty; [|exact Hrows].
        apply has_shape2_zipWith2; [eassumption|]. apply has_shape2_map2. eassumption. }
    simpl bind. unfold masked_mean, scalar_rsub2, tf_cast_float32.
    replace (map (map (fun x : R => 1.0 - x)) labels)
      with (map (map (fun y : R => 1 - y)) labels); [reflexivity|].
    apply map_ext. intros r. apply map_ext. intros y. lra.
  - intros Hadaptive.
    unfold CosineHingeLoss_calculate_loss. cbv zeta.
    destruct (Rlt_dec 0 (keyword 5 adaptive)) as [Hn|_]; [lra|].
    rewrite Hhinge. reflexivity.
Qed.

(** C4. For a non empty batch, [CosineHingeLoss.calculate_loss] returns
    [adaptive * adaptive_loss + origin_loss], a scalar, whenever [adaptive]
    is positive (its default is 5), where [adaptive_loss] and [origin_loss]
    are the hinge masked by [mask_wrong] and by [1 - labels], each summed
    over the classes and averaged over the batch; when [adaptive <= 0] it
    returns the elementwise hinge [max(0, sim_pos - sim_sample_pos + margin)]
    itself, a matrix of shape [batch, num_classes]. *)
Theorem cosine_hinge_loss_return_value :
  forall (FLAGS : Flags) (dims : nat) (predictions positives labels : Tensor2)
         (margin adaptive : option R) (g : Rng),
    batch_size FLAGS <> O ->
    has_shape2 (batch_size FLAGS) dims predictions ->
    has_shape2 (num_classes FLAGS) dims positives ->
    has_shape2 (batch_size FLAGS) (num_classes FLAGS) labels ->
    all_cells binary labels ->
    Forall (Exists (fun v => v = 1)) labels ->
    keyword 5 None = 5
    /\ exists sim_pos sim_sample_pos : Tensor2,
        CosineHingeLoss_confidence predictions positives = Ok sim_pos
        /\ CosineHingeLoss_sim_sample_pos FLAGS predictions positives labels g
           = Ok sim_sample_pos
        /\ has_shape2 (batch_size FLAGS) (num_classes FLAGS)
                      (cosine_hinge (keyword 0.2 margin) sim_pos sim_sample_pos)
        /\ (0 < keyword 5 adaptive ->
            exists mask_wrong : Tensor2,
              CosineHingeLoss_mask_wrong predictions positives labels = Ok mask_wrong
              /\ CosineHingeLoss_calculate_loss FLAGS predictions positives labels
                                                margin adaptive g
                 = Ok (Scalar
                         (keyword 5 adaptive
                          * masked_mean
                              (cosine_hinge (keyword 0.2 margin) sim_pos sim_sample_pos)
                              mask_wrong
                          + masked_mean
                              (cosine_hinge (keyword 0.2 margin) sim_pos sim_sample_pos)
                              (map (map (fun y => 1 - y)) labels))))
        /\ (keyword 5 adaptive <= 0 ->
            CosineHingeLoss_calculate_loss FLAGS predictions positives labels
                                           margin adaptive g
            = Ok (Elementwise (cosine_hinge (keyword 0.2 margin) sim_pos sim_sample_pos))).
Proof.
  intros FLAGS dims predictions positives labels margin adaptive g
         Hrows Hp Hq Hl Hbin Hpos.
  split; [reflexivity|].
  destruct (CosineHingeLoss_value FLAGS dims predictions positives labels margin adaptive g
                                  Hrows Hp Hq Hl Hbin Hpos)
    as [sim_pos [sim_sample_pos [Hsim [Hsample [Hshape [Hscalar Hmatrix]]]]]].
  exists sim_pos, sim_sample_pos.
  split; [exact Hsim|]. split; [exact Hsample|]. split; [exact Hshape|]. split.
  - intros Ha. destruct (Hscalar Ha Hrows) as [wrong [Hwrong [_ [_ Hloss]]]].
    exists wrong. split; assumption.
  - exact Hmatrix.
Qed.

Lemma cosine_hinge_loss_return_value_witness :
  (exists sim_pos sim_sample_pos mask_wrong : Tensor2,
      CosineHingeLoss_confidence [[1; 0]] [[1; 0]; [0; 1]] = Ok sim_pos
      /\ CosineHingeLoss_sim_sample_pos (example_FLAGS 2 1) [[1; 0]] [[1; 0]; [0; 1]]
                                         [[1; 0]] counting_rng
         = Ok sim_sample_pos
      /\ CosineHingeLoss_mask_wrong [[1; 0]] [[1; 0]; [0; 1]] [[1; 0]] = Ok mask_wrong
      /\ CosineHingeLoss_calculate_loss (example_FLAGS 2 1) [[1; 0]] [[1; 0]; [0; 1]]
                                        [[1; 0]] None None counting_rng
         = Ok (Scalar
                 (5 * masked_mean (cosine_hinge 0.2 sim_pos sim_sample_pos) mask_wrong
                  + masked_mean (cosine_hinge 0.2 sim_pos sim_sample_pos)
                                (map (map (fun y => 1 - y)) [[1; 0]]))))
  /\ (exists sim_pos sim_sample_pos : Tensor2,
         CosineHingeLoss_confidence [[1; 0]] [[1; 0]; [0; 1]] = Ok sim_pos
         /\ CosineHingeLoss_sim_sample_pos (example_FLAGS 2 1) [[1; 0]] [[1; 0]; [0; 1]]
                                            [[1; 0]] counting_rng
            = Ok sim_sample_pos
         /\ has_shape2 1 2 (cosine_hinge 0.2 sim_pos sim_sample_pos)
         /\ CosineHingeLoss_calculate_loss (example_FLAGS 2 1) [[1; 0]] [[1; 0]; [0; 1]]
                                           [[1; 0]] None (Some (-1)) counting_rng
            = Ok (Elementwise (cosine_hinge 0.2 sim_pos sim_sample_pos))).
Proof.
  assert (Hp : has_shape2 (batch_size (example_FLAGS 2 1)) 2 [[1; 0]])
    by (split; [reflexivity | repeat constructor]).
  assert (Hq : has_shape2 (num_classes (example_FLAGS 2 1)) 2 [[1; 0]; [0; 1]])
    by (split; [reflexivity | repeat constructor]).
  assert (Hl : has_shape2 (batch_size (example_FLAGS 2 1)) (num_classes (example_FLAGS 2 1))
                          [[1; 0]])
    by (split; [reflexivity | repeat constructor]).
  assert (Hbin : all_cells binary [[1; 0]])
    by (repeat constructor; unfold binary; lra).
  assert (Hpos : Forall (Exists (fun v => v = 1)) [[1; 0]]) by (repeat constructor).
  assert (Hrows : batch_size (example_FLAGS 2 1) <> O) by discriminate.
  split.
  - destruct (cosine_hinge_loss_return_value
                (example_FLAGS 2 1) 2 [[1; 0]] [[1; 0]; [0; 1]] [[1; 0]] None None
                counting_rng Hrows Hp Hq Hl Hbin Hpos)
      as [_ [sim_pos [sim_sample_pos [Hsim [Hsample [_ [Hscalar _]]]]]]].
    assert (Ha : 0 < keyword 5 None) by (simpl; lra).
    destruct (Hscalar Ha) as [mask_wrong [Hwrong Hloss]].
    exists sim_pos, sim_sample_pos, mask_wrong.
    split; [exact Hsim|]. split; [exact Hsample|]. split; [exact Hwrong|]. exact Hloss.
  - destruct (cosine_hinge_loss_return_value
                (example_FLAGS 2 1) 2 [[1; 0]] [[1; 0]; [0; 1]] [[1; 0]] None (Some (-1))
                counting_rng Hrows Hp Hq Hl Hbin Hpos)
      as [_ [sim_pos [sim_sample_pos [Hsim [Hsample [Hshape [_ Hmatrix]]]]]]].
    assert (Ha : keyword 5 (Some (-1)) <= 0) by (simpl; lra).
    exists sim_pos, sim_sample_pos.
    split; [exact Hsim|]. split; [exact Hsample|]. split; [exact Hshape|].
    exact (Hmatrix Ha).
Defined.

(** With an empty batch the Python list of samples is empty, [tf.stack]
    makes a float32 tensor of it, and the lookup of the embeddings is a type
    error. *)
Example cosine_hinge_loss_of_an_empty_batch :
  forall (positives : Tensor2) (margin adaptive : option R) (g : Rng),
    CosineHingeLoss_calculate_loss (example_FLAGS 2 0) [] positives [] margin adaptive g
    = Err TypeError.
Proof.
  intros positives margin adaptive g.
  unfold CosineHingeLoss_calculate_loss. cbv zeta.
  destruct (Rlt_dec 0 (keyword 5 adaptive)); reflexivity.
Qed.

(** ** Finite and non negative losses *)

Lemma sum_nonneg (l : list R) : Forall (fun x => 0 <= x) l -> 0 <= sum l.
Proof. induction 1 as [|x l Hx _ IH]; simpl; lra. Qed.

Lemma mean_nonneg (l : list R) : Forall (fun x => 0 <= x) l -> 0 <= mean l.
Proof.
  intros H. unfold mean. pose proof (sum_nonneg l H) as Hs.
  destruct l as [|x l].
  - simpl. unfold Rdiv. rewrite Rmult_0_l. lra.
  - apply Rmult_le_pos; [exact Hs|].
    apply Rlt_le, Rinv_0_lt_compat. apply lt_0_INR. simpl. lia.
Qed.

Lemma mean_of_row_sums_nonneg (t : Tensor2) :
  all_cells (fun x => 0 <= x) t -> 0 <= mean (map sum t).
Proof.
  intros H. apply mean_nonneg. rewrite Forall_map.
  eapply Forall_impl; [|exact H]. intros r Hr. simpl in *. apply sum_nonneg. exact Hr.
Qed.

Lemma ln_nonpos (x : R) : 0 < x -> x <= 1 -> ln x <= 0.
Proof.
  intros Hpos [Hlt | ->].
  - rewrite <- ln_1. left. apply ln_increasing; assumption.
  - rewrite ln_1. lra.
Qed.

Lemma xent_cell_nonneg (fn_weight fp_weight eps y p : R) :
  0 <= fn_weight -> 0 <= fp_weight -> 0 < eps ->
  binary y -> eps <= p <= 1 - eps ->
  0 <= xent_cell fn_weight fp_weight eps y p.
Proof.
  intros Hfn Hfp Heps Hy [Hlo Hhi]. unfold xent_cell.
  assert (H1 : ln (p + eps) <= 0) by (apply ln_nonpos; lra).
  assert (H2 : ln (1 - p + eps) <= 0) by (apply ln_nonpos; lra).
  destruct Hy as [-> | ->].
  - replace (fn_weight * 0 * ln (p + eps) + fp_weight * (1 - 0) * ln (1 - p + eps))
      with (fp_weight * ln (1 - p + eps)) by ring.
    nra.
  - replace (fn_weight * 1 * ln (p + eps) + fp_weight * (1 - 1) * ln (1 - p + eps))
      with (fn_weight * ln (p + eps)) by ring.
    nra.
Qed.

Lemma all_cells_zipWith2_in (P : R -> Prop) (Q1 Q2 : R -> Prop) (f : R -> R -> R) a b :
  all_cells Q1 a -> all_cells Q2 b ->
  (forall x y, Q1 x -> Q2 y -> P (f x y)) ->
  all_cells P (zipWith2 f a b).
Proof.
  intros Ha Hb H. unfold all_cells, zipWith2 in *. rewrite Forall_forall in Ha, Hb.
  apply Forall_zipWith. intros r s Hr Hs.
  pose proof (Ha r Hr) as Har. pose proof (Hb s Hs) as Hbs.
  rewrite Forall_forall in Har, Hbs.
  apply Forall_zipWith. intros x y Hx Hy. apply H; auto.
Qed.

Lemma all_cells_impl (P Q : R -> Prop) (t : Tensor2) :
  (forall x, P x -> Q x) -> all_cells P t -> all_cells Q t.
Proof.
  intros H Ht. unfold all_cells in *. eapply Forall_impl; [|exact Ht].
  intros r Hr. simpl in *. eapply Forall_impl; [|exact Hr]. exact H.
Qed.

Lemma weighted_xent_formula_nonneg (fn_weight fp_weight eps : R) predictions labels :
  0 <= fn_weight -> 0 <= fp_weight -> 0 < eps ->
  all_cells binary labels ->
  all_cells (fun p => eps <= p <= 1 - eps) predictions ->
  0 <= weighted_xent_formula fn_weight fp_weight eps predictions labels.
Proof.
  intros Hfn Hfp Heps Hy Hp. unfold weighted_xent_formula.
  apply mean_of_row_sums_nonneg.
  apply (all_cells_zipWith2_in _ binary (fun p => eps <= p <= 1 - eps)); try assumption.
  intros y p Hyb Hpr. apply xent_cell_nonneg; assumption.
Qed.

Lemma hinge_formula_nonneg (b : R) predictions labels :
  0 <= hinge_formula b predictions labels.
Proof.
  unfold hinge_formula. apply mean_of_row_sums_nonneg. apply all_cells_zipWith2.
  intros y p. unfold hinge_cell. apply Rmax_l.
Qed.

Lemma real_hinge_row_nonneg (b : R) (y p : Tensor1) :
  Forall binary y -> 0 <= real_hinge_row b y p.
Proof.
  intros Hy. rewrite Forall_forall in Hy. unfold real_hinge_row.
  apply sum_nonneg. rewrite Forall_map. apply Forall_zipWith. intros pj yj _ Hyj.
  apply sum_nonneg. apply Forall_zipWith. intros pk yk _ Hyk.
  pose proof (Rmax_l 0 (b - pj + pk)) as Hmax.
  apply Rmult_le_pos; [exact Hmax|].
  destruct (Hy yj Hyj) as [-> | ->]; destruct (Hy yk Hyk) as [-> | ->]; lra.
Qed.

Lemma in_le_sum (l : list R) (e : R) :
  Forall (fun x => 0 < x) l -> In e l -> e <= sum l.
Proof.
  induction 1 as [|x l Hx Hl IH]; intros Hin; [contradiction|].
  simpl. pose proof (sum_nonneg l (Forall_impl _ (fun a Ha => Rlt_le _ _ Ha) Hl)) as Hs.
  destruct Hin as [-> | Hin]; [lra|]. specialize (IH Hin). lra.
Qed.

Lemma softmax_row_le_1 (r : Tensor1) : Forall (fun x => 0 < x <= 1) (softmax_row r).
Proof.
  unfold softmax_row. rewrite Forall_map. apply Forall_forall. intros e He. simpl.
  assert (Hall : Forall (fun x => 0 < x) (map exp r)).
  { rewrite Forall_map. apply Forall_forall. intros v _. apply exp_pos. }
  pose proof (in_le_sum _ e Hall He) as Hle.
  rewrite Forall_forall in Hall. pose proof (Hall e He) as Hpos.
  assert (Hsum : 0 < sum (map exp r)) by lra.
  split.
  - apply Rdiv_lt_0_compat; assumption.
  - apply (Rmult_le_reg_r (sum (map exp r))); [exact Hsum|].
    unfold Rdiv. rewrite Rmult_assoc, Rinv_l by lra. lra.
Qed.

Lemma softmax_example_nonneg (eps : R) (y p : Tensor1) :
  0 < eps -> Forall binary y -> 0 <= softmax_example eps y p.
Proof.
  intros Heps Hy. rewrite Forall_forall in Hy. unfold softmax_example.
  assert (Hsum : sum (zipWith (fun yv sv => yv / Rmax (sum y) eps * ln sv) y (softmax_row p))
                 <= 0).
  { assert (Hneg : Forall (fun x => 0 <= - x)
                          (zipWith (fun yv sv => yv / Rmax (sum y) eps * ln sv)
                                   y (softmax_row p))).
    { apply Forall_zipWith. intros yv sv Hyv Hsv.
      pose proof (softmax_row_le_1 p) as Hs. rewrite Forall_forall in Hs.
      destruct (Hs sv Hsv) as [Hpos Hle].
      pose proof (ln_nonpos sv Hpos Hle) as Hln.
      pose proof (Rmax_r (sum y) eps) as Hmax.
      assert (Hinv : 0 < / Rmax (sum y) eps) by (apply Rinv_0_lt_compat; lra).
      unfold Rdiv. destruct (Hy yv Hyv) as [-> | ->]; nra. }
    clear Hy. induction Hneg as [|x l Hx _ IH]; simpl; lra. }
  lra.
Qed.

Lemma masked_mean_nonneg (margin : R) sim_pos sim_sample_pos mask :
  all_cells (fun w => 0 <= w) mask ->
  0 <= masked_mean (cosine_hinge margin sim_pos sim_sample_pos) mask.
Proof.
  intros Hm. unfold masked_mean. apply mean_of_row_sums_nonneg.
  apply (all_cells_zipWith2_in _ (fun h => 0 <= h) (fun w => 0 <= w)).
  - unfold cosine_hinge. apply all_cells_zipWith2. intros s s'. apply Rmax_r.
  - exact Hm.
  - intros h w Hh Hw. apply Rmult_le_pos; assumption.
Qed.

Lemma unit_interval_in_log_domain (t : Tensor2) :
  all_cells (fun p => 0 < p < 1) t -> all_cells (in_log_domain 10e-6) t.
Proof.
  apply all_cells_impl. intros p [H0 H1]. unfold in_log_domain. lra.
Qed.

Lemma RealHingeLoss_value rows cols predictions labels (b : option R) :
  rows <> O ->
  has_shape2 rows cols predictions ->
  has_shape2 rows cols labels ->
  RealHingeLoss_calculate_loss predictions labels b
  = Ok (mean (zipWith (real_hinge_row (keyword 0.2 b)) labels predictions)).
Proof.
  intros Hrows Hp Hy. unfold RealHingeLoss_calculate_loss.
  rewrite (RealHingeLoss_example_sums_value rows cols) by assumption.
  simpl bind. apply tf_reduce_mean_ok.
  intros Hnil.
  assert (Hlen : length (zipWith (real_hinge_row (keyword 0.2 b)) labels predictions) = rows).
  { destruct Hp as [Hp _], Hy as [Hy _]. rewrite zipWith_length; [exact Hy|].
    transitivity rows; [exact Hy | symmetry; exact Hp]. }
  rewrite Hnil in Hlen. simpl in Hlen. congruence.
Qed.

Lemma exp_monotone (x y : R) : x <= y -> exp x <= exp y.
Proof.
  intros [H | ->]; [left; apply exp_increasing; exact H | lra].
Qed.

Lemma sum_upper_bound (c : R) (l : list R) :
  Forall (fun x => x <= c) l -> sum l <= INR (length l) * c.
Proof.
  induction 1 as [|x l Hx _ IH].
  - simpl. lra.
  - change (length (x :: l)) with (S (length l)). rewrite S_INR. simpl sum. lra.
Qed.

Lemma ln_below_self (x : R) : 0 < x -> ln x < x.
Proof.
  intros Hx. pose proof (exp_ineq1_le x) as Hexp.
  rewrite <- (ln_exp x) at 2. apply ln_increasing; lra.
Qed.

(** Predictions that are close enough keep every softmax output at or
    above [exp (-87)]. *)
Lemma softmax_row_above_underflow (cols : nat) (r : Tensor1) :
  length r = cols ->
  softmax_spread cols r ->
  Forall (fun s => exp (-87) <= s) (softmax_row r).
Proof.
  intros Hlen Hspread. unfold softmax_row. rewrite Forall_map.
  apply Forall_forall. intros e He.
  apply in_map_iff in He. destruct He as [x [<- Hx]].
  assert (Hcols : 0 < INR cols).
  { apply lt_0_INR. rewrite <- Hlen. destruct r; [contradiction | simpl; lia]. }
  assert (Hall : Forall (fun v => 0 < v) (map exp r)).
  { rewrite Forall_map. apply Forall_forall. intros v _. apply exp_pos. }
  assert (Hsum : 0 < sum (map exp r)).
  { apply sum_pos; [exact Hall|]. destruct r; [contradiction | discriminate]. }
  assert (Hupper : sum (map exp r) <= exp x * exp 87).
  { pose proof (sum_upper_bound (exp (x + 87 - ln (INR cols))) (map exp r)) as Hb.
    rewrite length_map, Hlen in Hb.
    assert (Hcells : Forall (fun v => v <= exp (x + 87 - ln (INR cols))) (map exp r)).
    { rewrite Forall_map. apply Forall_forall. intros x' Hx'.
      apply exp_monotone. pose proof (Hspread x x' Hx Hx'). lra. }
    specialize (Hb Hcells).
    replace (x + 87 - ln (INR cols)) with (x + 87 + - ln (INR cols)) in Hb by ring.
    rewrite !exp_plus, exp_Ropp, exp_ln in Hb by exact Hcols.
    replace (INR cols * (exp x * exp 87 * / INR cols)) with (exp x * exp 87) in Hb
      by (field; lra).
    exact Hb. }
  pose proof (exp_pos x) as Hex. pose proof (exp_pos 87) as He87.
  replace (exp (-87)) with (/ exp 87)
    by (rewrite <- exp_Ropp; f_equal; lra).
  apply (Rmult_le_reg_r (sum (map exp r))); [exact Hsum|].
  unfold Rdiv. rewrite Rmult_assoc, Rinv_l by lra.
  apply (Rmult_le_reg_l (exp 87)); [exact He87|].
  rewrite <- Rmult_assoc, Rinv_r by lra. lra.
Qed.

Lemma tf_softmax_above_underflow rows cols (predictions : Tensor2) :
  has_shape2 rows cols predictions ->
  Forall (softmax_spread cols) predictions ->
  all_cells (fun s => exp (-87) <= s) (tf_softmax predictions).
Proof.
  intros [_ Hp] Hspread. unfold all_cells, tf_softmax. rewrite Forall_map.
  rewrite Forall_forall in Hp, Hspread. apply Forall_forall. intros r Hr.
  apply (softmax_row_above_underflow cols); auto.
Qed.

(** C3, as amended.  For labels with entries in {0,1} and a non empty
    batch, every loss returns a finite scalar: the cross entropy losses
    for predictions in (0,1), the hinge losses for any predictions, the
    softmax loss for predictions that within one example lie no more than
    [87 - log(num_classes)] apart, which keeps every softmax output at or
    above [exp (-87)] and so away from the 0 a float32 would round it to,
    the cosine hinge loss when [adaptive] is positive and every example has
    a positive label.  The hinge losses, the softmax loss and the cosine
    hinge loss are then non negative; the cross entropy losses are non
    negative for predictions in [1e-5, 1 - 1e-5], the weighted one under non
    negative weights. *)
Theorem losses_are_finite_and_non_negative :
  (forall (FLAGS : Flags) (rows cols : nat) (predictions labels : Tensor2) (b : option R),
      rows <> O ->
      has_shape2 rows cols predictions ->
      has_shape2 rows cols labels ->
      all_cells binary labels ->
      (all_cells (fun p => 0 < p < 1) predictions ->
       exists v, CrossEntropyLoss_calculate_loss predictions labels = Ok v
                 /\ (all_cells (fun p => 1 / 100000 <= p <= 1 - 1 / 100000) predictions ->
                     0 <= v))
      /\ (all_cells (fun p => 0 < p < 1) predictions ->
          exists v, WeightedCrossEntropyLoss_calculate_loss FLAGS predictions labels = Ok v
                    /\ (0 <= false_negative_punishment FLAGS ->
                        0 <= false_positive_punishment FLAGS ->
                        all_cells (fun p => 1 / 100000 <= p <= 1 - 1 / 100000) predictions ->
                        0 <= v))
      /\ (exists v, HingeLoss_calculate_loss predictions labels b = Ok v /\ 0 <= v)
      /\ (exists v, RealHingeLoss_calculate_loss predictions labels b = Ok v /\ 0 <= v)
      /\ (Forall (softmax_spread cols) predictions ->
          all_cells (fun s => exp (-87) <= s) (tf_softmax predictions)
          /\ exists v, SoftmaxLoss_calculate_loss predictions labels = Ok v /\ 0 <= v))
  /\ (forall (FLAGS : Flags) (dims : nat) (predictions positives labels : Tensor2)
             (margin adaptive : option R) (g : Rng),
         batch_size FLAGS <> O ->
         has_shape2 (batch_size FLAGS) dims predictions ->
         has_shape2 (num_classes FLAGS) dims positives ->
         has_shape2 (batch_size FLAGS) (num_classes FLAGS) labels ->
         all_cells binary labels ->
         Forall (Exists (fun v => v = 1)) labels ->
         0 < keyword 5 adaptive ->
         exists v,
           CosineHingeLoss_calculate_loss FLAGS predictions positives labels
                                          margin adaptive g = Ok (Scalar v)
           /\ 0 <= v).
Proof.
  split.
  - intros FLAGS rows cols predictions labels b Hrows Hp Hy Hbin.
    assert (Hweighted : forall F : Flags,
               all_cells (fun p => 0 < p < 1) predictions ->
               exists v, WeightedCrossEntropyLoss_calculate_loss F predictions labels = Ok v
                         /\ (0 <= false_negative_punishment F ->
                             0 <= false_positive_punishment F ->
                             all_cells (fun p => 1 / 100000 <= p <= 1 - 1 / 100000)
                                       predictions ->
                             0 <= v)).
    { intros F Hunit. eexists. split.
      - apply (WeightedCrossEntropyLoss_value F rows cols); try assumption.
        apply unit_interval_in_log_domain. exact Hunit.
      - intros Hfn Hfp Hrange. apply weighted_xent_formula_nonneg; try assumption; [lra|].
        eapply all_cells_impl; [|exact Hrange]. intros p Hpr. simpl in *. lra. }
    split; [|split; [|split; [|split]]].
    + intros Hunit.
      destruct (Hweighted (example_FLAGS 0 0) Hunit) as [v [Hv Hnonneg]].
      exists v. split.
      * rewrite (CrossEntropyLoss_as_weighted (example_FLAGS 0 0)); [exact Hv| |];
          simpl; lra.
      * intros Hrange. apply Hnonneg; simpl; try lra. exact Hrange.
    + apply Hweighted.
    + eexists. split; [apply (HingeLoss_value rows cols); assumption|].
      apply hinge_formula_nonneg.
    + eexists. split; [apply (RealHingeLoss_value rows cols); assumption|].
      apply mean_nonneg. apply Forall_zipWith. intros y p Hyin _.
      apply real_hinge_row_nonneg.
      unfold all_cells in Hbin. rewrite Forall_forall in Hbin. apply Hbin. exact Hyin.
    + intros Hspread. split.
      * apply (tf_softmax_above_underflow rows cols); assumption.
      * eexists. split; [apply (SoftmaxLoss_value rows cols); assumption|].
        unfold softmax_formula. apply mean_nonneg. apply Forall_zipWith.
        intros y p Hyin _.
        apply softmax_example_nonneg; [lra|].
        unfold all_cells in Hbin. rewrite Forall_forall in Hbin. apply Hbin. exact Hyin.
  - intros FLAGS dims predictions positives labels margin adaptive g
           Hrows Hp Hq Hl Hbin Hpos Ha.
    destruct (CosineHingeLoss_value FLAGS dims predictions positives labels margin adaptive g
                                    Hrows Hp Hq Hl Hbin Hpos)
      as [sim_pos [sim_sample_pos [_ [_ [_ [Hscalar _]]]]]].
    destruct (Hscalar Ha Hrows) as [wrong [_ [_ [Hwcells Hloss]]]].
    eexists. split; [exact Hloss|].
    pose proof (masked_mean_nonneg (keyword 0.2 margin) sim_pos sim_sample_pos wrong Hwcells)
      as H1.
    assert (Hrev : all_cells (fun w => 0 <= w) (map (map (fun y => 1 - y)) labels)).
    { apply all_cells_map. eapply all_cells_impl; [|exact Hbin].
      intros y [-> | ->]; lra. }
    pose proof (masked_mean_nonneg (keyword 0.2 margin) sim_pos sim_sample_pos _ Hrev) as H2.
    nra.
Qed.

Lemma losses_are_finite_and_non_negative_witness :
  ((exists v, CrossEntropyLoss_calculate_loss [[0.9; 0.1]] [[1; 0]] = Ok v /\ 0 <= v)
   /\ (exists v, WeightedCrossEntropyLoss_calculate_loss (default_FLAGS 1)
                                                         [[0.9; 0.1]] [[1; 0]] = Ok v
                 /\ 0 <= v)
   /\ (exists v, HingeLoss_calculate_loss [[0.9; 0.1]] [[1; 0]] None = Ok v /\ 0 <= v)
   /\ (exists v, RealHingeLoss_calculate_loss [[0.9; 0.1]] [[1; 0]] None = Ok v /\ 0 <= v)
   /\ (all_cells (fun s => exp (-87) <= s) (tf_softmax [[0.9; 0.1]])
       /\ exists v, SoftmaxLoss_calculate_loss [[0.9; 0.1]] [[1; 0]] = Ok v /\ 0 <= v))
  /\ (exists v,
         CosineHingeLoss_calculate_loss (example_FLAGS 2 1) [[1; 0]] [[1; 0]; [0; 1]]
                                        [[1; 0]] None None counting_rng = Ok (Scalar v)
         /\ 0 <= v).
Proof.
  assert (Hunit : all_cells (fun p => 0 < p < 1) [[0.9; 0.1]])
    by (repeat constructor; lra).
  assert (Hrange : all_cells (fun p => 1 / 100000 <= p <= 1 - 1 / 100000) [[0.9; 0.1]])
    by (repeat constructor; lra).
  assert (Hspread : Forall (softmax_spread 2) [[0.9; 0.1]]).
  { constructor; [|constructor]. intros x x' Hx Hx'.
    pose proof (ln_below_self (INR 2)) as Hln. simpl in Hln, Hx, Hx'.
    destruct Hx as [<- | [<- | []]]; destruct Hx' as [<- | [<- | []]]; simpl; lra. }
  split.
  - destruct (proj1 losses_are_finite_and_non_negative (default_FLAGS 1) 1%nat 2%nat
                    [[0.9; 0.1]] [[1; 0]] None)
      as [Hce [Hwce [Hhinge [Hreal Hsoftmax]]]].
    + discriminate.
    + split; [reflexivity | repeat constructor].
    + split; [reflexivity | repeat constructor].
    + repeat constructor; unfold binary; lra.
    + split; [|split; [|split; [|split]]].
      * destruct (Hce Hunit) as [v [Hv Hnn]]. exists v. split; [exact Hv | exact (Hnn Hrange)].
      * destruct (Hwce Hunit) as [v [Hv Hnn]]. exists v. split; [exact Hv|].
        apply Hnn; [simpl; lra | simpl; lra | exact Hrange].
      * exact Hhinge.
      * exact Hreal.
      * exact (Hsoftmax Hspread).
  - apply (proj2 losses_are_finite_and_non_negative (example_FLAGS 2 1) 2%nat
                 [[1; 0]] [[1; 0]; [0; 1]] [[1; 0]] None None counting_rng).
    + discriminate.
    + split; [reflexivity | repeat constructor].
    + split; [reflexivity | repeat constructor].
    + split; [reflexivity | repeat constructor].
    + repeat constructor; unfold binary; lra.
    + repeat constructor.
    + simpl. lra.
Defined.

(** C3 as stated fails: a prediction in (0,1) within 1e-5 of 1 with the
    label 1 makes the cross entropy negative, since the logarithm is taken
    of [p + 1e-5 > 1]. *)
Lemma cross_entropy_negative_counterexample :
  all_cells (fun p => 0 < p < 1) [[0.999999]]
  /\ all_cells binary [[1]]
  /\ exists v, CrossEntropyLoss_calculate_loss [[0.999999]] [[1]] = Ok v /\ v < 0.
Proof.
  split; [repeat constructor; lra|].
  split; [repeat constructor; unfold binary; lra|].
  eexists. split.
  - rewrite (CrossEntropyLoss_as_weighted (example_FLAGS 0 0)) by (simpl; lra).
    apply (WeightedCrossEntropyLoss_value _ 1 1).
    + discriminate.
    + split; [reflexivity | repeat constructor].
    + split; [reflexivity | repeat constructor].
    + repeat constructor; simpl; lra.
  - unfold weighted_xent_formula, mean, xent_cell. simpl.
    assert (Hpos : 0 < ln (0.999999 + 10e-6)).
    { rewrite <- ln_1. apply ln_increasing; lra. }
    lra.
Qed.

(** * Further properties *)

(** ** The confidence matrix *)

Lemma dot_product_lower_bound (a b : Tensor1) :
  - (sum (map (fun x => x * x) a) + sum (map (fun x => x * x) b))
  <= 2 * sum (map (fun p => fst p * snd p) (combine a b)).
Proof.
  revert b. induction a as [|x a IH]; intros [|y b]; simpl.
  - lra.
  - pose proof (sum_squares_nonneg b). nra.
  - pose proof (sum_squares_nonneg a). nra.
  - specialize (IH b).
    pose proof (Rle_0_sqr (x + y)) as Hsq. unfold Rsqr in Hsq.
    lra.
Qed.

Lemma dot_normalized_range (u v : Tensor1) :
  length u = length v ->
  exists s, dot (l2_normalize_row u) (l2_normalize_row v) = Ok s /\ -1 <= s <= 1.
Proof.
  intros Hlen. unfold dot. rewrite !l2_normalize_row_length, Hlen, Nat.eqb_refl.
  eexists. split; [reflexivity|].
  pose proof (dot_product_bound (l2_normalize_row u) (l2_normalize_row v)).
  pose proof (dot_product_lower_bound (l2_normalize_row u) (l2_normalize_row v)).
  pose proof (l2_normalize_row_norm u). pose proof (l2_normalize_row_norm v). lra.
Qed.

Lemma CosineHingeLoss_confidence_range rows classes dims predictions positives :
  has_shape2 rows dims predictions ->
  has_shape2 classes dims positives ->
  exists sim_pos,
    CosineHingeLoss_confidence predictions positives = Ok sim_pos
    /\ has_shape2 rows classes sim_pos
    /\ all_cells (fun s => -1 <= s <= 1) sim_pos.
Proof.
  intros [Hp Hrp] [Hq Hrq].
  unfold CosineHingeLoss_confidence, einsum_ik_jk_ij, tf_l2_normalize_dim1. cbv zeta.
  destruct (mapM_exists
              (fun a_i => mapM (fun b_j => dot a_i b_j) (map l2_normalize_row positives))
              (fun row => length row = classes /\ Forall (fun s => -1 <= s <= 1) row)
              (map l2_normalize_row predictions)) as [sim [Hsim [Hlen Hall]]].
  { rewrite Forall_map. eapply Forall_impl; [|exact Hrp]. intros u Hu. simpl in Hu.
    destruct (mapM_exists (fun b_j => dot (l2_normalize_row u) b_j)
                          (fun s => -1 <= s <= 1)
                          (map l2_normalize_row positives)) as [row [Hrow [Hl Hb]]].
    - rewrite Forall_map. eapply Forall_impl; [|exact Hrq]. intros v Hv. simpl in Hv.
      apply dot_normalized_range. congruence.
    - exists row. split; [exact Hrow|]. split; [|exact Hb].
      rewrite Hl, length_map. exact Hq. }
  exists sim. split; [exact Hsim|]. split.
  - split.
    + rewrite Hlen, length_map. exact Hp.
    + eapply Forall_impl; [|exact Hall]. intros r [H _]. exact H.
  - eapply Forall_impl; [|exact Hall]. intros r [_ H]. exact H.
Qed.

(** [CosineHingeLoss.confidence] on predictions of shape [rows, dims] and
    class embeddings of shape [classes, dims] returns a matrix of shape
    [rows, classes] whose entries all lie between -1 and 1. *)
Theorem confidence_is_a_bounded_matrix :
  forall (rows classes dims : nat) (predictions positives : Tensor2),
    has_shape2 rows dims predictions ->
    has_shape2 classes dims positives ->
    exists sim_pos,
      CosineHingeLoss_confidence predictions positives = Ok sim_pos
      /\ has_shape2 rows classes sim_pos
      /\ all_cells (fun s => -1 <= s <= 1) sim_pos.
Proof.
  intros rows classes dims predictions positives Hp Hq.
  apply (CosineHingeLoss_confidence_range rows classes dims); assumption.
Qed.

Lemma confidence_is_a_bounded_matrix_witness :
  exists sim_pos,
    CosineHingeLoss_confidence [[1; 0]; [3; 4]] [[1; 0]; [0; 2]; [1; 1]] = Ok sim_pos
    /\ has_shape2 2 3 sim_pos
    /\ all_cells (fun s => -1 <= s <= 1) sim_pos.
Proof.
  apply (confidence_is_a_bounded_matrix 2 3 2).
  - split; [reflexivity | repeat constructor].
  - split; [reflexivity | repeat constructor].
Defined.

(** When the predictions and the class embeddings have different
    embedding sizes, and there is at least one of each,
    [CosineHingeLoss.confidence] fails with a shape error. *)
Theorem confidence_rejects_different_embedding_sizes :
  forall (rows classes dims dims' : nat) (predictions positives : Tensor2),
    rows <> O -> classes <> O -> dims <> dims' ->
    has_shape2 rows dims predictions ->
    has_shape2 classes dims' positives ->
    CosineHingeLoss_confidence predictions positives = Err ShapeError.
Proof.
  intros rows classes dims dims' predictions positives Hrows Hclasses Hd [Hp Hrp] [Hq Hrq].
  destruct predictions as [|u predictions]; [simpl in Hp; congruence|].
  destruct positives as [|v positives]; [simpl in Hq; congruence|].
  inversion Hrp; subst. inversion Hrq; subst.
  unfold CosineHingeLoss_confidence, einsum_ik_jk_ij, tf_l2_normalize_dim1. cbv zeta.
  simpl. unfold dot at 1. rewrite !l2_normalize_row_length.
  destruct (Nat.eqb_spec (length u) (length v)) as [Heq|_]; [contradiction|].
  reflexivity.
Qed.

Lemma confidence_rejects_different_embedding_sizes_witness :
  CosineHingeLoss_confidence [[1; 0]; [3; 4]] [[1; 0; 0]] = Err ShapeError.
Proof.
  apply (confidence_rejects_different_embedding_sizes 2 1 2 3).
  - discriminate.
  - discriminate.
  - discriminate.
  - split; [reflexivity | repeat constructor].
  - split; [reflexivity | repeat constructor].
Defined.

Lemma sum_squares_scale_l (c : R) (u : Tensor1) :
  sum (map (fun x => x * x) (map (fun x => c * x) u))
  = c * c * sum (map (fun x => x * x) u).
Proof.
  induction u as [|x u IH]; simpl; [ring|]. rewrite IH. ring.
Qed.

Lemma l2_normalize_row_scale (c : R) (u : Tensor1) :
  0 < c ->
  1e-12 <= sum (map (fun x => x * x) u) ->
  1e-12 <= c * c * sum (map (fun x => x * x) u) ->
  l2_normalize_row (map (fun x => c * x) u) = l2_normalize_row u.
Proof.
  intros Hc Hs Hcs. unfold l2_normalize_row. rewrite sum_squares_scale_l.
  set (s := sum (map (fun x => x * x) u)) in *.
  rewrite (Rmax_left (c * c * s)) by lra. rewrite (Rmax_left s) by lra.
  rewrite sqrt_mult by nra. rewrite sqrt_square by lra.
  assert (Hroot : 0 < sqrt s) by (apply sqrt_lt_R0; lra).
  rewrite map_map. apply map_ext. intros x. field. split; lra.
Qed.

(** Cosine similarity ignores the length of a prediction: multiplying
    every prediction by [c > 0] leaves [CosineHingeLoss.confidence]
    unchanged, as long as the squared norms stay at or above the 1e-12 below
    which [l2_normalize] stops dividing by the norm. *)
Theorem confidence_ignores_prediction_scale :
  forall (c : R) (predictions positives : Tensor2),
    0 < c ->
    Forall (fun u => 1e-12 <= sum (map (fun x => x * x) u)
                     /\ 1e-12 <= c * c * sum (map (fun x => x * x) u)) predictions ->
    CosineHingeLoss_confidence (map (map (fun x => c * x)) predictions) positives
    = CosineHingeLoss_confidence predictions positives.
Proof.
  intros c predictions positives Hc Hnorm.
  unfold CosineHingeLoss_confidence, tf_l2_normalize_dim1. cbv zeta.
  rewrite map_map. f_equal.
  apply map_ext_Forall. eapply Forall_impl; [|exact Hnorm].
  intros u [Hs Hcs]. simpl. apply l2_normalize_row_scale; assumption.
Qed.

Lemma confidence_ignores_prediction_scale_witness :
  CosineHingeLoss_confidence (map (map (fun x => 2 * x)) [[3; 4]]) [[1; 0]; [0; 1]]
  = CosineHingeLoss_confidence [[3; 4]] [[1; 0]; [0; 1]].
Proof.
  apply (confidence_ignores_prediction_scale 2 [[3; 4]] [[1; 0]; [0; 1]]).
  - lra.
  - repeat constructor; simpl; lra.
Defined.

Lemma mapM_forall {A B : Type} (f : A -> result B) (P : B -> Prop) (l : list A) ys :
  mapM f l = Ok ys ->
  (forall x y, In x l -> f x = Ok y -> P y) ->
  Forall P ys.
Proof.
  revert ys. induction l as [|a l IH]; intros ys Hm HP; simpl in Hm.
  - injection Hm as <-. constructor.
  - destruct (f a) as [b|e] eqn:Hfa; simpl in Hm; [|discriminate].
    destruct (mapM f l) as [bs|e] eqn:Hl; simpl in Hm; [|discriminate].
    injection Hm as <-. constructor.
    + apply (HP a); simpl; auto.
    + apply IH; [reflexivity|]. intros x y Hin. apply HP. simpl; auto.
Qed.

Lemma dot_zero_left (a b : Tensor1) (s : R) :
  Forall (fun x => x = 0) a -> dot a b = Ok s -> s = 0.
Proof.
  intros Ha. unfold dot. destruct (Nat.eqb _ _); [|discriminate].
  intros H. injection H as <-. clear -Ha. revert b.
  induction Ha as [|x a Hx _ IH]; intros [|y b]; simpl; try reflexivity.
  rewrite Hx, IH. ring.
Qed.

(** A prediction that is the zero vector has confidence 0 for every
    class: the 1e-12 inside [l2_normalize] keeps the division defined. *)
Theorem confidence_of_zero_prediction :
  forall (rows classes dims : nat) (predictions positives : Tensor2) (i : nat) (u : Tensor1),
    has_shape2 rows dims predictions ->
    has_shape2 classes dims positives ->
    nth_error predictions i = Some u ->
    Forall (fun x => x = 0) u ->
    exists sim_pos row,
      CosineHingeLoss_confidence predictions positives = Ok sim_pos
      /\ nth_error sim_pos i = Some row
      /\ length row = classes
      /\ Forall (fun s => s = 0) row.
Proof.
  intros rows classes dims predictions positives i u Hp Hq Hi Hu.
  destruct (CosineHingeLoss_confidence_range rows classes dims predictions positives Hp Hq)
    as [sim_pos [Hsim [Hshape _]]].
  pose proof Hsim as Hrun.
  unfold CosineHingeLoss_confidence, einsum_ik_jk_ij, tf_l2_normalize_dim1 in Hrun.
  cbv zeta in Hrun.
  assert (Hrow : nth_error (map l2_normalize_row predictions) i = Some (l2_normalize_row u)).
  { apply map_nth_error. exact Hi. }
  destruct (mapM_nth _ _ _ _ _ Hrun Hrow) as [row [Hnth Hdots]].
  exists sim_pos, row. split; [exact Hsim|]. split; [exact Hnth|]. split.
  - exact (has_shape2_row _ _ _ _ _ Hshape Hnth).
  - apply (mapM_forall _ _ _ _ Hdots). intros v s _ Hdot.
    apply (dot_zero_left (l2_normalize_row u) v); [|exact Hdot].
    unfold l2_normalize_row. rewrite Forall_map.
    eapply Forall_impl; [|exact Hu]. intros x ->. ring.
Qed.

Lemma confidence_of_zero_prediction_witness :
  exists sim_pos row,
    CosineHingeLoss_confidence [[3; 4]; [0; 0]] [[1; 0]; [0; 1]] = Ok sim_pos
    /\ nth_error sim_pos 1 = Some row
    /\ length row = 2%nat
    /\ Forall (fun s => s = 0) row.
Proof.
  apply (confidence_of_zero_prediction 2 2 2 [[3; 4]; [0; 0]] [[1; 0]; [0; 1]] 1 [0; 0]).
  - split; [reflexivity | repeat constructor].
  - split; [reflexivity | repeat constructor].
  - reflexivity.
  - repeat constructor.
Defined.

(** ** A hinge loss of zero *)

Lemma sum_zero_inv (l : list R) :
  Forall (fun x => 0 <= x) l -> sum l = 0 -> Forall (fun x => x = 0) l.
Proof.
  induction 1 as [|x l Hx Hl IH]; intros Hs; [constructor|].
  simpl in Hs. pose proof (sum_nonneg l Hl) as Hnn.
  constructor; [lra|]. apply IH. lra.
Qed.

Lemma mean_zero_iff (l : list R) :
  l <> [] -> Forall (fun x => 0 <= x) l -> (mean l = 0 <-> Forall (fun x => x = 0) l).
Proof.
  intros Hne Hnn. unfold mean.
  assert (Hn : 0 < INR (length l)).
  { apply lt_0_INR. destruct l; [congruence | simpl; lia]. }
  split.
  - intros Hm. apply sum_zero_inv; [exact Hnn|].
    apply (Rmult_eq_reg_r (/ INR (length l))).
    + unfold Rdiv in Hm. rewrite Hm. ring.
    + apply Rinv_neq_0_compat. lra.
  - intros Hz. rewrite (sum_zero l Hz). unfold Rdiv. ring.
Qed.

Lemma Forall_zipWith_iff {A B C D : Type} (P : C -> Prop) (Q : D -> Prop)
      (f : A -> B -> C) (g : A -> B -> D) xs ys :
  (forall x y, P (f x y) <-> Q (g x y)) ->
  (Forall P (zipWith f xs ys) <-> Forall Q (zipWith g xs ys)).
Proof.
  intros H. revert ys. induction xs as [|x xs IH]; intros [|y ys]; simpl.
  - split; intros; constructor.
  - split; intros; constructor.
  - split; intros; constructor.
  - split; intros HF; inversion HF; subst; constructor;
      try (apply H; assumption); apply IH; assumption.
Qed.

Lemma all_cells_zipWith2_iff (P Q : R -> Prop) {A B : Type} (f g : A -> B -> R) a b :
  (forall x y, P (f x y) <-> Q (g x y)) ->
  (all_cells P (zipWith2 f a b) <-> all_cells Q (zipWith2 g a b)).
Proof.
  intros H. unfold all_cells, zipWith2. apply Forall_zipWith_iff.
  intros r s. apply Forall_zipWith_iff. exact H.
Qed.

Lemma hinge_cell_zero_iff (b y p : R) : hinge_cell b y p = 0 <-> 0 <= (2 * y - 1) * p - b.
Proof.
  unfold hinge_cell, Rmax. destruct (Rle_dec 0 (b - (2 * y - 1) * p)); split; intros; lra.
Qed.

(** [HingeLoss.calculate_loss] is zero exactly when every cell meets the
    margin, that is when [(2y - 1) * p >= b] for every label [y] and its
    prediction [p]. *)
Theorem hinge_loss_is_zero_iff_margins_are_met :
  forall (rows cols : nat) (predictions labels : Tensor2) (b : option R),
    rows <> O ->
    has_shape2 rows cols predictions ->
    has_shape2 rows cols labels ->
    (HingeLoss_calculate_loss predictions labels b = Ok 0
     <-> all_cells (fun slack => 0 <= slack)
                   (zipWith2 (fun y p => (2 * y - 1) * p - keyword 1 b) labels predictions)).
Proof.
  intros rows cols predictions labels b Hrows Hp Hy.
  rewrite (HingeLoss_value rows cols) by assumption.
  replace (keyword 1.0 b) with (keyword 1 b) by (destruct b; simpl; lra).
  set (m := keyword 1 b).
  assert (Hcells : all_cells (fun c => 0 <= c) (zipWith2 (hinge_cell m) labels predictions)).
  { apply all_cells_zipWith2. intros y p. unfold hinge_cell. apply Rmax_l. }
  assert (Hne : map sum (zipWith2 (hinge_cell m) labels predictions) <> []).
  { apply map_nonempty. eapply has_shape2_nonempty; [|exact Hrows].
    apply has_shape2_zipWith2; eassumption. }
  assert (Hsums : Forall (fun x => 0 <= x)
                         (map sum (zipWith2 (hinge_cell m) labels predictions))).
  { rewrite Forall_map. eapply Forall_impl; [|exact Hcells].
    intros r Hr. simpl in *. apply sum_nonneg. exact Hr. }
  rewrite <- (all_cells_zipWith2_iff (fun c => c = 0) (fun slack => 0 <= slack)
                                     (hinge_cell m) (fun y p => (2 * y - 1) * p - m))
    by (intros; apply hinge_cell_zero_iff).
  unfold hinge_formula. split.
  - intros H. injection H as H. apply (mean_zero_iff _ Hne Hsums) in H.
    rewrite Forall_map in H. unfold all_cells in *.
    rewrite Forall_forall in H, Hcells. apply Forall_forall. intros r Hr.
    apply sum_zero_inv; [apply Hcells; exact Hr | apply H; exact Hr].
  - intros H. f_equal. apply (mean_zero_iff _ Hne Hsums).
    rewrite Forall_map. eapply Forall_impl; [|exact H].
    intros r Hr. simpl in *. apply sum_zero. exact Hr.
Qed.

Lemma hinge_loss_is_zero_iff_margins_are_met_witness :
  HingeLoss_calculate_loss [[2; -3]] [[1; 0]] None = Ok 0
  <-> all_cells (fun slack => 0 <= slack)
                (zipWith2 (fun y p => (2 * y - 1) * p - keyword 1 None) [[1; 0]] [[2; -3]]).
Proof.
  apply (hinge_loss_is_zero_iff_margins_are_met 1 2).
  - discriminate.
  - split; [reflexivity | repeat constructor].
  - split; [reflexivity | repeat constructor].
Defined.

(** ** The softmax loss on shifted predictions and on one hot labels *)

Lemma sum_exp_shift (c : R) (r : Tensor1) :
  sum (map exp (map (fun x => x + c) r)) = exp c * sum (map exp r).
Proof.
  induction r as [|x r IH]; simpl; [ring|]. rewrite IH, exp_plus. ring.
Qed.

Lemma softmax_row_shift (c : R) (r : Tensor1) :
  softmax_row (map (fun x => x + c) r) = softmax_row r.
Proof.
  unfold softmax_row. rewrite sum_exp_shift, !map_map.
  apply map_ext_in. intros x Hx.
  assert (Hsum : 0 < sum (map exp r)).
  { apply sum_pos.
    - rewrite Forall_map. apply Forall_forall. intros v _. apply exp_pos.
    - destruct r; [contradiction | discriminate]. }
  pose proof (exp_pos c) as Hc.
  rewrite exp_plus. field. split; lra.
Qed.

(** Adding to all the predictions of an example one number, which may
    depend on the example, changes nothing in [SoftmaxLoss.calculate_loss]. *)
Theorem softmax_loss_ignores_row_shifts :
  forall (shift : Tensor1 -> R) (predictions labels : Tensor2),
    SoftmaxLoss_calculate_loss
      (map (fun r => map (fun x => x + shift r) r) predictions) labels
    = SoftmaxLoss_calculate_loss predictions labels.
Proof.
  intros shift predictions labels. unfold SoftmaxLoss_calculate_loss.
  replace (tf_softmax (map (fun r => map (fun x => x + shift r) r) predictions))
    with (tf_softmax predictions); [reflexivity|].
  unfold tf_softmax. rewrite map_map. apply map_ext. intros r.
  symmetry. apply softmax_row_shift.
Qed.

Lemma sum_zipWith_zero_labels (d : R) (n : nat) (s : Tensor1) :
  sum (zipWith (fun yv sv => yv / d * ln sv) (repeat 0 n) s) = 0.
Proof.
  revert s. induction n as [|n IH]; intros [|x s]; simpl; try reflexivity.
  rewrite IH. unfold Rdiv. ring.
Qed.

Lemma sum_repeat_zero (n : nat) : sum (repeat 0 n) = 0.
Proof. induction n as [|n IH]; simpl; [reflexivity|]. rewrite IH. ring. Qed.

Lemma sum_one_hot (n j : nat) : (j < n)%nat -> sum (one_hot n j) = 1.
Proof.
  revert j. induction n as [|n IH]; intros j Hj; [lia|].
  destruct j as [|j]; simpl.
  - rewrite sum_repeat_zero. ring.
  - rewrite IH by lia. ring.
Qed.

Lemma sum_zipWith_one_hot (d : R) (n j : nat) (s : Tensor1) :
  (j < n)%nat -> length s = n ->
  sum (zipWith (fun yv sv => yv / d * ln sv) (one_hot n j) s) = / d * ln (nth j s 0).
Proof.
  revert j s. induction n as [|n IH]; intros j s Hj Hlen; [lia|].
  destruct s as [|x s]; [discriminate|]. simpl in Hlen.
  destruct j as [|j]; simpl.
  - rewrite sum_zipWith_zero_labels. unfold Rdiv. ring.
  - rewrite IH by lia. unfold Rdiv. ring.
Qed.

Lemma softmax_example_one_hot (n j : nat) (p : Tensor1) :
  (j < n)%nat -> length p = n ->
  softmax_example 10e-8 (one_hot n j) p = - ln (nth j (softmax_row p) 0).
Proof.
  intros Hj Hlen. unfold softmax_example.
  rewrite sum_zipWith_one_hot by (try rewrite softmax_row_length; assumption).
  rewrite sum_one_hot by exact Hj. rewrite Rmax_left by lra.
  rewrite Rinv_1. ring.
Qed.

Lemma one_hot_length (n j : nat) : length (one_hot n j) = n.
Proof.
  revert j. induction n as [|n IH]; intros [|j]; simpl; try reflexivity.
  - rewrite repeat_length. reflexivity.
  - rewrite IH. reflexivity.
Qed.

(** On one hot labels, and for predictions that within one example lie no
    more than [87 - log(num_classes)] apart, so that every softmax output is
    at least [exp (-87)] and no float32 rounds it to 0,
    [SoftmaxLoss.calculate_loss] is the usual single label cross entropy:
    the mean over the batch of minus the logarithm of the softmax output at
    the labelled class. *)
Theorem softmax_loss_on_one_hot_labels :
  forall (rows cols : nat) (predictions : Tensor2) (targets : list nat),
    rows <> O ->
    has_shape2 rows cols predictions ->
    Forall (softmax_spread cols) predictions ->
    length targets = rows ->
    Forall (fun j => (j < cols)%nat) targets ->
    all_cells (fun s => exp (-87) <= s) (tf_softmax predictions)
    /\ SoftmaxLoss_calculate_loss predictions (map (one_hot cols) targets)
       = Ok (mean (zipWith (fun j p => - ln (nth j (softmax_row p) 0)) targets predictions)).
Proof.
  intros rows cols predictions targets Hrows Hp Hspread Hlen Hrange.
  split; [apply (tf_softmax_above_underflow rows cols); assumption|].
  rewrite (SoftmaxLoss_value rows cols); try assumption.
  - unfold softmax_formula. do 2 f_equal.
    rewrite zipWith_map_l. apply zipWith_ext. intros j p Hj Hpin.
    rewrite Forall_forall in Hrange. destruct Hp as [_ Hp]. rewrite Forall_forall in Hp.
    apply softmax_example_one_hot; auto.
  - split.
    + rewrite length_map. exact Hlen.
    + rewrite Forall_map. apply Forall_forall. intros j _. apply one_hot_length.
Qed.

Lemma softmax_loss_on_one_hot_labels_witness :
  all_cells (fun s => exp (-87) <= s) (tf_softmax [[2; 0; 1]; [1; 1; 5]])
  /\ SoftmaxLoss_calculate_loss [[2; 0; 1]; [1; 1; 5]] (map (one_hot 3) [0; 2]%nat)
     = Ok (mean (zipWith (fun j p => - ln (nth j (softmax_row p) 0))
                         [0; 2]%nat [[2; 0; 1]; [1; 1; 5]])).
Proof.
  assert (Hln : ln (INR 3) < 3) by (apply Rlt_le_trans with (INR 3);
                                    [apply ln_below_self|]; simpl; lra).
  apply (softmax_loss_on_one_hot_labels 2 3).
  - discriminate.
  - split; [reflexivity | repeat constructor].
  - constructor; [|constructor; [|constructor]]; intros x x' Hx Hx'; simpl in Hx, Hx';
      destruct Hx as [<- | [<- | [<- | []]]]; destruct Hx' as [<- | [<- | [<- | []]]]; lra.
  - reflexivity.
  - repeat constructor.
Defined.

(** An example without any label costs nothing: when all labels are zero,
    and the predictions within one example lie no more than
    [87 - log(num_classes)] apart, so that every softmax output is at least
    [exp (-87)] and its logarithm finite in float32,
    [SoftmaxLoss.calculate_loss] is 0, the epsilon under the division
    keeping it from 0/0. *)
Theorem softmax_loss_without_labels_is_zero :
  forall (rows cols : nat) (predictions labels : Tensor2),
    rows <> O ->
    has_shape2 rows cols predictions ->
    Forall (softmax_spread cols) predictions ->
    has_shape2 rows cols labels ->
    all_cells (fun y => y = 0) labels ->
    all_cells (fun s => exp (-87) <= s) (tf_softmax predictions)
    /\ SoftmaxLoss_calculate_loss predictions labels = Ok 0.
Proof.
  intros rows cols predictions labels Hrows Hp Hspread Hy Hzero.
  split; [apply (tf_softmax_above_underflow rows cols); assumption|].
  rewrite (SoftmaxLoss_value rows cols) by assumption. f_equal.
  unfold softmax_formula.
  assert (Hall : Forall (fun x => x = 0)
                        (zipWith (softmax_example 10e-8) labels predictions)).
  { apply Forall_zipWith. intros y p Hyin _. unfold softmax_example.
    unfold all_cells in Hzero. rewrite Forall_forall in Hzero.
    pose proof (Hzero y Hyin) as Hrow. rewrite Forall_forall in Hrow.
    rewrite (sum_zero (zipWith _ y (softmax_row p))); [ring|].
    apply Forall_zipWith. intros yv sv Hyv _. rewrite (Hrow yv Hyv).
    unfold Rdiv. ring. }
  unfold mean. rewrite (sum_zero _ Hall). unfold Rdiv. ring.
Qed.

Lemma softmax_loss_without_labels_is_zero_witness :
  all_cells (fun s => exp (-87) <= s) (tf_softmax [[2; 0]; [1; 1]])
  /\ SoftmaxLoss_calculate_loss [[2; 0]; [1; 1]] [[0; 0]; [0; 0]] = Ok 0.
Proof.
  assert (Hln : ln (INR 2) < 2) by (apply Rlt_le_trans with (INR 2);
                                    [apply ln_below_self|]; simpl; lra).
  apply (softmax_loss_without_labels_is_zero 2 2).
  - discriminate.
  - split; [reflexivity | repeat constructor].
  - constructor; [|constructor; [|constructor]]; intros x x' Hx Hx'; simpl in Hx, Hx';
      destruct Hx as [<- | [<- | []]]; destruct Hx' as [<- | [<- | []]]; lra.
  - split; [reflexivity | repeat constructor].
  - repeat constructor.
Defined.

(** ** The cross entropy outside and inside its domain *)

Lemma log_row_cases (r : Tensor1) :
  mapM log_scalar r = Err NonFinite
  \/ (Forall (fun x => 0 < x) r /\ mapM log_scalar r = Ok (map ln r)).
Proof.
  induction r as [|x r IH]; simpl.
  - right. split; [constructor | reflexivity].
  - unfold log_scalar at 1 3. destruct (Rlt_dec 0 x) as [Hx|Hx]; simpl.
    + destruct IH as [IH | [Hall IH]]; rewrite IH; simpl.
      * left. reflexivity.
      * right. split; [constructor; assumption | reflexivity].
    + left. reflexivity.
Qed.

Lemma tf_log_cases (t : Tensor2) :
  tf_log t = Err NonFinite
  \/ (all_cells (fun x => 0 < x) t /\ tf_log t = Ok (map (map ln) t)).
Proof.
  unfold tf_log, all_cells. induction t as [|r t IH]; simpl.
  - right. split; [constructor | reflexivity].
  - destruct (log_row_cases r) as [Hr | [Hrall Hr]]; rewrite Hr; simpl.
    + left. reflexivity.
    + destruct IH as [IH | [Hall IH]]; rewrite IH; simpl.
      * left. reflexivity.
      * right. split; [constructor; assumption | reflexivity].
Qed.

Lemma tf_log_fails (t : Tensor2) :
  Exists (Exists (fun x => ~ 0 < x)) t -> tf_log t = Err NonFinite.
Proof.
  intros Hex. destruct (tf_log_cases t) as [H | [Hall _]]; [exact H|].
  exfalso. apply Exists_exists in Hex. destruct Hex as [r [Hr Hex]].
  apply Exists_exists in Hex. destruct Hex as [x [Hx Hneg]].
  unfold all_cells in Hall. rewrite Forall_forall in Hall.
  pose proof (Hall r Hr) as Hrow. rewrite Forall_forall in Hrow.
  apply Hneg. apply Hrow. exact Hx.
Qed.

Lemma Exists_cell_map (P : R -> Prop) (f : R -> R) (t : Tensor2) :
  Exists (Exists (fun x => P (f x))) t -> Exists (Exists P) (map (map f) t).
Proof.
  intros H. apply Exists_exists in H. destruct H as [r [Hr H]].
  apply Exists_exists in H. destruct H as [x [Hx HP]].
  apply Exists_exists. exists (map f r). split; [apply in_map; exact Hr|].
  apply Exists_exists. exists (f x). split; [apply in_map; exact Hx | exact HP].
Qed.

Lemma WeightedCrossEntropyLoss_outside_domain (FLAGS : Flags) rows cols predictions labels :
  has_shape2 rows cols predictions ->
  has_shape2 rows cols labels ->
  Exists (Exists (fun p => ~ in_log_domain 10e-6 p)) predictions ->
  WeightedCrossEntropyLoss_calculate_loss FLAGS predictions labels = Err NonFinite.
Proof.
  intros Hp Hy Hex.
  unfold WeightedCrossEntropyLoss_calculate_loss, tf_cast_float32. cbv zeta.
  destruct (tf_log_cases (scalar_add2 predictions 10e-6)) as [Hlog | [Hall Hlog]];
    rewrite Hlog; simpl bind; [reflexivity|].
  unfold scalar_mul2, tf_multiply.
  rewrite (elementwise2_same_shape _ rows cols)
    by (unfold scalar_add2; repeat apply has_shape2_map2; assumption).
  simpl bind. rewrite tf_log_fails; [reflexivity|].
  unfold scalar_add2, scalar_rsub2. do 2 apply Exists_cell_map.
  unfold scalar_add2 in Hall.
  apply Exists_exists in Hex. destruct Hex as [r [Hr Hex]].
  apply Exists_exists in Hex. destruct Hex as [p [Hpin Hout]].
  apply Exists_exists. exists r. split; [exact Hr|].
  apply Exists_exists. exists p. split; [exact Hpin|].
  intros Hneg. apply Hout. split; [|exact Hneg].
  unfold all_cells in Hall. rewrite Forall_map, Forall_forall in Hall.
  pose proof (Hall r Hr) as Hrow. simpl in Hrow.
  rewrite Forall_map, Forall_forall in Hrow. apply Hrow. exact Hpin.
Qed.

(** The epsilon only protects predictions between [-1e-5] and [1 + 1e-5]:
    when predictions and labels have one shape and some prediction [p] has
    [p + 1e-5 <= 0] or [1 - p + 1e-5 <= 0], both cross entropy losses are
    not finite, whatever the labels and the weights. *)
Theorem cross_entropy_is_not_finite_outside_its_domain :
  forall (FLAGS : Flags) (rows cols : nat) (predictions labels : Tensor2),
    has_shape2 rows cols predictions ->
    has_shape2 rows cols labels ->
    Exists (Exists (fun p => ~ in_log_domain (1 / 100000) p)) predictions ->
    WeightedCrossEntropyLoss_calculate_loss FLAGS predictions labels = Err NonFinite
    /\ CrossEntropyLoss_calculate_loss predictions labels = Err NonFinite.
Proof.
  intros FLAGS rows cols predictions labels Hp Hy Hex.
  replace (1 / 100000) with 10e-6 in Hex by lra.
  split.
  - apply (WeightedCrossEntropyLoss_outside_domain FLAGS rows cols); assumption.
  - rewrite (CrossEntropyLoss_as_weighted (example_FLAGS 0 0)) by (simpl; lra).
    apply (WeightedCrossEntropyLoss_outside_domain _ rows cols); assumption.
Qed.

Lemma cross_entropy_is_not_finite_outside_its_domain_witness :
  WeightedCrossEntropyLoss_calculate_loss (default_FLAGS 1) [[0.5; 1.5]] [[1; 0]]
  = Err NonFinite
  /\ CrossEntropyLoss_calculate_loss [[0.5; 1.5]] [[1; 0]] = Err NonFinite.
Proof.
  apply (cross_entropy_is_not_finite_outside_its_domain (default_FLAGS 1) 1 2).
  - split; [reflexivity | repeat constructor].
  - split; [reflexivity | repeat constructor].
  - apply Exists_cons_hd. apply Exists_cons_tl. apply Exists_cons_hd.
    unfold in_log_domain. lra.
Defined.

Lemma sum_lower_bound (c : R) (l : list R) :
  Forall (fun x => c <= x) l -> INR (length l) * c <= sum l.
Proof.
  induction 1 as [|x l Hx _ IH].
  - simpl. lra.
  - change (length (x :: l)) with (S (length l)). rewrite S_INR. simpl sum. lra.
Qed.

Lemma mean_lower_bound (c : R) (l : list R) :
  l <> [] -> Forall (fun x => c <= x) l -> c <= mean l.
Proof.
  intros Hne Hall. unfold mean.
  assert (Hn : 0 < INR (length l)).
  { apply lt_0_INR. destruct l; [congruence | simpl; lia]. }
  pose proof (sum_lower_bound c l Hall) as Hs.
  apply (Rmult_le_reg_r (INR (length l))); [exact Hn|].
  unfold Rdiv. rewrite Rmult_assoc, Rinv_l by lra. lra.
Qed.

Lemma xent_cell_lower_bound (eps y p : R) :
  0 < eps -> binary y -> 0 < p < 1 ->
  - ln (1 + eps) <= xent_cell 1 1 eps y p.
Proof.
  intros Heps Hy [H0 H1]. unfold xent_cell.
  assert (Hpos : ln (p + eps) < ln (1 + eps)) by (apply ln_increasing; lra).
  assert (Hneg : ln (1 - p + eps) < ln (1 + eps)) by (apply ln_increasing; lra).
  destruct Hy as [-> | ->]; lra.
Qed.

(** How far below zero the cross entropy can go: for labels in {0,1} and
    predictions in (0,1), [CrossEntropyLoss.calculate_loss] is at least
    [- num_classes * log(1 + 1e-5)]. *)
Theorem cross_entropy_lower_bound :
  forall (rows cols : nat) (predictions labels : Tensor2),
    rows <> O ->
    has_shape2 rows cols predictions ->
    has_shape2 rows cols labels ->
    all_cells binary labels ->
    all_cells (fun p => 0 < p < 1) predictions ->
    exists v, CrossEntropyLoss_calculate_loss predictions labels = Ok v
              /\ - (INR cols * ln (1 + 1 / 100000)) <= v.
Proof.
  intros rows cols predictions labels Hrows Hp Hy Hbin Hunit.
  eexists. split.
  - rewrite (CrossEntropyLoss_as_weighted (example_FLAGS 0 0)) by (simpl; lra).
    apply (WeightedCrossEntropyLoss_value _ rows cols); try assumption.
    apply unit_interval_in_log_domain. exact Hunit.
  - simpl false_negative_punishment. simpl false_positive_punishment.
    replace (1 / 100000) with 10e-6 by lra.
    unfold weighted_xent_formula.
    pose proof (has_shape2_zipWith2 (xent_cell 1.0 1.0 10e-6) rows cols labels predictions
                                    Hy Hp) as Hshape.
    apply mean_lower_bound.
    + apply map_nonempty. eapply has_shape2_nonempty; [exact Hshape | exact Hrows].
    + rewrite Forall_map.
      assert (Hcells : all_cells (fun c => - ln (1 + 10e-6) <= c)
                                 (zipWith2 (xent_cell 1.0 1.0 10e-6) labels predictions)).
      { apply (all_cells_zipWith2_in _ binary (fun p => 0 < p < 1)); try assumption.
        intros y p Hyb Hpr. replace 1.0 with 1 by lra.
        apply xent_cell_lower_bound; [lra | assumption | assumption]. }
      destruct Hshape as [_ Hrowlen]. unfold all_cells in Hcells.
      rewrite Forall_forall in Hrowlen, Hcells. apply Forall_forall. intros r Hr.
      pose proof (sum_lower_bound _ r (Hcells r Hr)) as Hsum.
      rewrite (Hrowlen r Hr) in Hsum. lra.
Qed.

Lemma cross_entropy_lower_bound_witness :
  exists v, CrossEntropyLoss_calculate_loss [[0.999999; 0.5]] [[1; 0]] = Ok v
            /\ - (INR 2 * ln (1 + 1 / 100000)) <= v.
Proof.
  apply (cross_entropy_lower_bound 1 2).
  - discriminate.
  - split; [reflexivity | repeat constructor].
  - split; [reflexivity | repeat constructor].
  - repeat constructor; unfold binary; lra.
  - repeat constructor; lra.
Defined.

(** ** Batches of different sizes *)

Lemma broadcast_mismatch {A B C : Type} (f : A -> B -> result C) xs ys :
  length xs <> length ys -> length xs <> 1%nat -> length ys <> 1%nat ->
  broadcast f xs ys = Err ShapeError.
Proof.
  intros Hne Hx Hy. unfold broadcast.
  destruct (Nat.eqb_spec (length xs) (length ys)) as [Heq|_]; [contradiction|].
  destruct xs as [|x [|x' xs]]; simpl in Hx; try congruence;
    destruct ys as [|y [|y' ys]]; simpl in Hy; simpl in Hne; try congruence; reflexivity.
Qed.

(** [HingeLoss.calculate_loss] fails with a shape error when predictions
    and labels have different numbers of examples and neither has exactly
    one, the case in which TensorFlow would repeat it. *)
Theorem hinge_loss_rejects_different_batch_sizes :
  forall (rows rows' cols : nat) (predictions labels : Tensor2) (b : option R),
    rows <> rows' -> rows <> 1%nat -> rows' <> 1%nat ->
    has_shape2 rows cols predictions ->
    has_shape2 rows' cols labels ->
    HingeLoss_calculate_loss predictions labels b = Err ShapeError.
Proof.
  intros rows rows' cols predictions labels b Hne Hr Hr' Hp Hy.
  unfold HingeLoss_calculate_loss, tf_cast_float32, tf_zeros, tf_ones. cbv zeta.
  assert (Hsign : exists sign_labels,
             tf_subtract (tf_scalar_mul 2 labels) (tf_fill (tf_shape labels) 1)
             = Ok sign_labels /\ length sign_labels = rows').
  { destruct labels as [|row rest] eqn:Hl.
    - exists []. destruct Hy as [Hy _]. simpl in Hy. split; [reflexivity | exact Hy].
    - rewrite <- Hl in *.
      assert (Hrows' : rows' <> O) by (destruct Hy as [Hy _]; rewrite Hl in Hy; simpl in Hy; lia).
      rewrite (tf_shape_of rows' cols) by assumption.
      unfold tf_subtract, tf_scalar_mul, scalar_mul2.
      rewrite (elementwise2_same_shape _ rows' cols)
        by (try apply has_shape2_map2; try apply has_shape2_fill; assumption).
      eexists. split; [reflexivity|].
      apply (has_shape2_zipWith2 Rminus rows' cols);
        [apply has_shape2_map2; assumption | apply has_shape2_fill]. }
  destruct Hsign as [sign_labels [Hsign Hlen]].
  rewrite Hsign. simpl bind.
  unfold tf_multiply, elementwise2.
  rewrite broadcast_mismatch; [reflexivity | | |].
  - destruct Hp as [Hp _]. rewrite Hlen, Hp. congruence.
  - rewrite Hlen. exact Hr'.
  - destruct Hp as [Hp _]. rewrite Hp. exact Hr.
Qed.

Lemma hinge_loss_rejects_different_batch_sizes_witness :
  HingeLoss_calculate_loss [[1; 0]; [0; 1]; [1; 1]] [[1; 0]; [0; 1]] None = Err ShapeError.
Proof.
  apply (hinge_loss_rejects_different_batch_sizes 3 2 2).
  - discriminate.
  - discriminate.
  - discriminate.
  - split; [reflexivity | repeat constructor].
  - split; [reflexivity | repeat constructor].
Defined.

(** ** The pairwise hinge loss of well ranked predictions *)

Lemma real_hinge_row_ranked (m : R) (y p : Tensor1) :
  Forall binary y ->
  (forall j k pj pk,
      nth_error y j = Some 1 -> nth_error y k = Some 0 ->
      nth_error p j = Some pj -> nth_error p k = Some pk ->
      m <= pj - pk) ->
  real_hinge_row m y p = 0.
Proof.
  intros Hbin Hrank. rewrite Forall_forall in Hbin.
  unfold real_hinge_row. apply sum_zero.
  rewrite Forall_map. apply Forall_forall. intros row Hrow.
  apply in_zipWith in Hrow. destruct Hrow as [j [pj [yj [Hpj [Hyj ->]]]]].
  apply sum_zero. apply Forall_forall. intros cell Hcell.
  apply in_zipWith in Hcell. destruct Hcell as [k [pk [yk [Hpk [Hyk ->]]]]].
  destruct (Hbin yj (nth_error_In _ _ Hyj)) as [-> | ->]; [ring|].
  destruct (Hbin yk (nth_error_In _ _ Hyk)) as [-> | ->]; [|ring].
  pose proof (Hrank j k pj pk Hyj Hyk Hpj Hpk) as Hm.
  rewrite Rmax_left by lra. ring.
Qed.

(** [RealHingeLoss.calculate_loss] is zero when, in every example, each
    class labelled 1 is predicted at least the margin [b] above each class
    labelled 0. *)
Theorem real_hinge_loss_of_ranked_predictions_is_zero :
  forall (rows cols : nat) (predictions labels : Tensor2) (b : option R),
    rows <> O ->
    has_shape2 rows cols predictions ->
    has_shape2 rows cols labels ->
    all_cells binary labels ->
    (forall i yrow prow j k pj pk,
        nth_error labels i = Some yrow -> nth_error predictions i = Some prow ->
        nth_error yrow j = Some 1 -> nth_error yrow k = Some 0 ->
        nth_error prow j = Some pj -> nth_error prow k = Some pk ->
        keyword 0.2 b <= pj - pk) ->
    RealHingeLoss_calculate_loss predictions labels b = Ok 0.
Proof.
  intros rows cols predictions labels b Hrows Hp Hy Hbin Hrank.
  rewrite (RealHingeLoss_value rows cols) by assumption. f_equal.
  assert (Hall : Forall (fun x => x = 0)
                        (zipWith (real_hinge_row (keyword 0.2 b)) labels predictions)).
  { apply Forall_forall. intros x Hx.
    apply in_zipWith in Hx. destruct Hx as [i [yrow [prow [Hyi [Hpi ->]]]]].
    apply real_hinge_row_ranked.
    - exact (all_cells_row _ _ _ _ Hbin Hyi).
    - intros j k pj pk. apply (Hrank i yrow prow); assumption. }
  unfold mean. rewrite (sum_zero _ Hall). unfold Rdiv. ring.
Qed.

Lemma real_hinge_loss_of_ranked_predictions_is_zero_witness :
  RealHingeLoss_calculate_loss [[0.9; 0.1; 0.8]] [[1; 0; 1]] None = Ok 0.
Proof.
  apply (real_hinge_loss_of_ranked_predictions_is_zero 1 3).
  - discriminate.
  - split; [reflexivity | repeat constructor].
  - split; [reflexivity | repeat constructor].
  - repeat constructor; unfold binary; lra.
  - intros i yrow prow j k pj pk Hy Hp Hj Hk Hpj Hpk.
    destruct i as [|[|i]]; simpl in Hy, Hp; try discriminate.
    injection Hy as <-. injection Hp as <-.
    destruct j as [|[|[|j]]]; simpl in Hj, Hpj; try discriminate;
      try (destruct j; discriminate);
      try (injection Hj as Hj; exfalso; lra);
      injection Hpj as <-;
      (destruct k as [|[|[|k]]]; simpl in Hk, Hpk; try discriminate;
       try (destruct k; discriminate);
       try (injection Hk as Hk; exfalso; lra);
       injection Hpk as <-; simpl; lra).
Defined.

Lemma real_hinge_row_shift (m c : R) (y p : Tensor1) :
  real_hinge_row m y (map (fun x => x + c) p) = real_hinge_row m y p.
Proof.
  unfold real_hinge_row. do 2 f_equal.
  rewrite zipWith_map_l. apply zipWith_ext. intros pj yj _ _.
  rewrite zipWith_map_l. apply zipWith_ext. intros pk yk _ _.
  f_equal. f_equal. ring.
Qed.

(** Only differences of predictions count in [RealHingeLoss.calculate_loss]:
    adding to all the predictions of an example one number, which may
    depend on the example, leaves the loss as it is. *)
Theorem real_hinge_loss_ignores_row_shifts :
  forall (shift : Tensor1 -> R) (rows cols : nat) (predictions labels : Tensor2)
         (b : option R),
    has_shape2 rows cols predictions ->
    has_shape2 rows cols labels ->
    RealHingeLoss_calculate_loss
      (map (fun r => map (fun x => x + shift r) r) predictions) labels b
    = RealHingeLoss_calculate_loss predictions labels b.
Proof.
  intros shift rows cols predictions labels b Hp Hy.
  unfold RealHingeLoss_calculate_loss.
  rewrite (RealHingeLoss_example_sums_value rows cols _ labels b);
    [|apply has_shape2_map_rows; [intros r; apply length_map | exact Hp] | exact Hy].
  rewrite (RealHingeLoss_example_sums_value rows cols predictions labels b) by assumption.
  rewrite zipWith_map_r.
  f_equal. f_equal. apply zipWith_ext. intros y p _ _. apply real_hinge_row_shift.
Qed.

Lemma real_hinge_loss_ignores_row_shifts_witness :
  RealHingeLoss_calculate_loss
    (map (fun r => map (fun x => x + 7) r) [[0.3; 0.7]; [0.1; 0.9]]) [[1; 0]; [0; 1]] None
  = RealHingeLoss_calculate_loss [[0.3; 0.7]; [0.1; 0.9]] [[1; 0]; [0; 1]] None.
Proof.
  apply (real_hinge_loss_ignores_row_shifts (fun _ => 7) 2 2).
  - split; [reflexivity | repeat constructor].
  - split; [reflexivity | repeat constructor].
Defined.

(** ** The hard negatives *)

Lemma elementwise2_column_value {A C : Type} (f : A -> R -> C) rows cols
      (a : list (list A)) (b : Tensor2) :
  has_shape2 rows cols a ->
  has_shape2 rows 1 b ->
  elementwise2 f a b = Ok (zipWith (fun r d => map (fun x => f x (hd 0 d)) r) a b).
Proof.
  intros [Ha Hra] [Hb Hrb]. unfold elementwise2.
  rewrite broadcast_same_length by congruence.
  apply zipWithM_pure; [congruence|].
  intros r d Hr Hd. rewrite Forall_forall in Hrb.
  pose proof (Hrb d Hd) as Hone. destruct d as [|m [|m' d]]; simpl in Hone; try lia.
  apply broadcast_row_scalar.
Qed.

Lemma least_over_true_unique (sims labels : Tensor1) (m m' : R) :
  least_over_true sims labels m -> least_over_true sims labels m' -> m = m'.
Proof.
  intros [[j [Hj Hs]] Hle] [[j' [Hj' Hs']] Hle'].
  pose proof (Hle j' m' Hj' Hs'). pose proof (Hle' j m Hj Hs). lra.
Qed.

Lemma CosineHingeLoss_mask_wrong_value rows classes dims predictions positives labels :
  classes <> O ->
  has_shape2 rows dims predictions ->
  has_shape2 classes dims positives ->
  has_shape2 rows classes labels ->
  exists sim_pos min_sim,
    CosineHingeLoss_confidence predictions positives = Ok sim_pos
    /\ has_shape2 rows classes sim_pos
    /\ all_cells (fun s => s <= 1) sim_pos
    /\ CosineHingeLoss_min_sim sim_pos labels = Ok min_sim
    /\ has_shape2 rows 1 min_sim
    /\ CosineHingeLoss_mask_wrong predictions positives labels
       = Ok (zipWith2 Rmult
                      (tf_cast_bool_float32
                         (zipWith (fun r d => map (fun x => Rgtb x (hd 0 d)) r) sim_pos min_sim))
                      (scalar_rsub2 1.0 labels)).
Proof.
  intros Hc Hp Hq Hl.
  destruct (CosineHingeLoss_confidence_total rows classes dims predictions positives Hp Hq)
    as [sim_pos [Hsim [Hshape Hle]]].
  destruct (CosineHingeLoss_min_sim_total rows classes sim_pos labels Hc Hshape Hl)
    as [min_sim [Hmin [Hmshape _]]].
  exists sim_pos, min_sim.
  split; [exact Hsim|]. split; [exact Hshape|]. split; [exact Hle|].
  split; [exact Hmin|]. split; [exact Hmshape|].
  unfold CosineHingeLoss_mask_wrong, tf_cast_float32. cbv zeta.
  rewrite Hsim. simpl bind. rewrite Hmin. simpl bind.
  unfold tf_greater.
  rewrite (elementwise2_column_value Rgtb rows classes sim_pos min_sim Hshape Hmshape).
  simpl bind. unfold tf_multiply, tf_stop_gradient.
  rewrite (elementwise2_same_shape _ rows classes); [reflexivity| |].
  - unfold tf_cast_bool_float32. apply has_shape2_map2.
    destruct Hshape as [Hs Hrs], Hmshape as [Hm Hrm]. split.
    + rewrite zipWith_length; congruence.
    + apply Forall_zipWith. intros r d Hr _. rewrite length_map.
      rewrite Forall_forall in Hrs. apply Hrs. exact Hr.
  - unfold scalar_rsub2. apply has_shape2_map2. exact Hl.
Qed.

(** [mask_wrong] marks exactly the hard negatives: in an example with a
    positive label, its cell is 1 for a class that is labelled 0 and whose
    similarity exceeds the least similarity among the labelled classes,
    and 0 for every other class. *)
Theorem mask_wrong_marks_the_hard_negatives :
  forall (rows classes dims : nat) (predictions positives labels : Tensor2),
    classes <> O ->
    has_shape2 rows dims predictions ->
    has_shape2 classes dims positives ->
    has_shape2 rows classes labels ->
    all_cells binary labels ->
    exists sim_pos mask_wrong : Tensor2,
      CosineHingeLoss_confidence predictions positives = Ok sim_pos
      /\ CosineHingeLoss_mask_wrong predictions positives labels = Ok mask_wrong
      /\ forall (i : nat) (srow lrow : Tensor1),
          nth_error sim_pos i = Some srow ->
          nth_error labels i = Some lrow ->
          Exists (fun v => v = 1) lrow ->
          exists (m : R),
            least_over_true srow lrow m
            /\ nth_error mask_wrong i
               = Some (zipWith (fun s l => if Rlt_dec m s then 1 - l else 0) srow lrow).
Proof.
  intros rows classes dims predictions positives labels Hc Hp Hq Hl Hbin.
  destruct (CosineHingeLoss_mask_wrong_value rows classes dims predictions positives labels
                                             Hc Hp Hq Hl)
    as [sim_pos [min_sim [Hsim [Hshape [Hle [Hmin [Hmshape Hwrong]]]]]]].
  eexists sim_pos, _. split; [exact Hsim|]. split; [exact Hwrong|].
  intros i srow lrow Hsi Hli Hex.
  destruct (CosineHingeLoss_min_sim_total rows classes sim_pos labels Hc Hshape Hl)
    as [min_sim' [Hmin' [_ Hrows]]].
  rewrite Hmin in Hmin'. injection Hmin' as <-.
  destruct (Hrows i srow lrow Hsi Hli) as [m [Hm Hleast]].
  exists (m + 1.0). split.
  - apply least_of_masked_row.
    + exact (all_cells_row _ _ _ _ Hle Hsi).
    + exact (all_cells_row _ _ _ _ Hbin Hli).
    + exact Hex.
    + rewrite (has_shape2_row _ _ _ _ _ Hshape Hsi), (has_shape2_row _ _ _ _ _ Hl Hli).
      reflexivity.
    + exact Hleast.
  - unfold zipWith2, tf_cast_bool_float32, scalar_rsub2.
    erewrite nth_error_zipWith.
    3:{ apply map_nth_error. exact Hli. }
    2:{ apply map_nth_error. apply (nth_error_zipWith _ _ _ _ _ _ Hsi Hm). }
    f_equal. simpl hd.
    rewrite !zipWith_map_l, zipWith_map_r. apply zipWith_ext. intros s l _ _.
    unfold Rgtb. destruct (Rlt_dec (m + 1.0) s); lra.
Qed.

Lemma mask_wrong_marks_the_hard_negatives_witness :
  exists sim_pos mask_wrong : Tensor2,
    CosineHingeLoss_confidence [[1; 0]; [3; 4]] [[1; 0]; [0; 2]; [1; 1]] = Ok sim_pos
    /\ CosineHingeLoss_mask_wrong [[1; 0]; [3; 4]] [[1; 0]; [0; 2]; [1; 1]]
                                  [[1; 0; 1]; [0; 1; 0]] = Ok mask_wrong
    /\ forall (i : nat) (srow lrow : Tensor1),
        nth_error sim_pos i = Some srow ->
        nth_error [[1; 0; 1]; [0; 1; 0]] i = Some lrow ->
        Exists (fun v => v = 1) lrow ->
        exists (m : R),
          least_over_true srow lrow m
          /\ nth_error mask_wrong i
             = Some (zipWith (fun s l => if Rlt_dec m s then 1 - l else 0) srow lrow).
Proof.
  apply (mask_wrong_marks_the_hard_negatives 2 3 2).
  - discriminate.
  - split; [reflexivity | repeat constructor].
  - split; [reflexivity | repeat constructor].
  - split; [reflexivity | repeat constructor].
  - repeat constructor; unfold binary; lra.
Defined.

(** ** The adaptive term against the origin term *)

Lemma sum_masked_le (h a v : Tensor1) :
  Forall (fun x => 0 <= x) h ->
  Forall (fun x => 0 <= x <= 1) a ->
  Forall (fun x => 0 <= x) v ->
  sum (zipWith Rmult h (zipWith Rmult a v)) <= sum (zipWith Rmult h v).
Proof.
  intros Hh. revert a v. induction Hh as [|x h Hx Hh IH]; intros a v Ha Hv.
  - simpl. lra.
  - destruct v as [|z v].
    + destruct a; simpl; lra.
    + apply Forall_cons_iff in Hv. destruct Hv as [Hz Hv].
      destruct a as [|y a].
      * simpl. assert (0 <= sum (zipWith Rmult h v)).
        { apply sum_nonneg. apply Forall_zipWith. intros p q Hp Hq.
          rewrite Forall_forall in Hh. rewrite Forall_forall in Hv.
          apply Rmult_le_pos; auto. }
        nra.
      * apply Forall_cons_iff in Ha. destruct Ha as [Hy Ha].
        simpl. specialize (IH a v Ha Hv).
        assert (Hyz : y * z <= z) by nra.
        assert (Hcell : x * (y * z) <= x * z) by (apply Rmult_le_compat_l; assumption).
        lra.
Qed.

Lemma mean_le (xs ys : list R) :
  Forall2 Rle xs ys -> mean xs <= mean ys.
Proof.
  intros H. unfold mean. rewrite (Forall2_length_eq _ _ _ H).
  assert (Hs : sum xs <= sum ys).
  { induction H as [|x y xs ys Hxy _ IH]; simpl; lra. }
  destruct ys as [|y ys].
  - inversion H; subst. simpl. lra.
  - apply Rmult_le_compat_r; [|exact Hs].
    apply Rlt_le, Rinv_0_lt_compat, lt_0_INR. simpl. lia.
Qed.

Lemma masked_mean_le (hinge above reverse : Tensor2) rows classes :
  has_shape2 rows classes hinge ->
  has_shape2 rows classes above ->
  has_shape2 rows classes reverse ->
  all_cells (fun x => 0 <= x) hinge ->
  all_cells (fun x => 0 <= x <= 1) above ->
  all_cells (fun x => 0 <= x) reverse ->
  masked_mean hinge (zipWith2 Rmult above reverse) <= masked_mean hinge reverse.
Proof.
  intros [Hh _] [Ha _] [Hv _] Hhc Hac Hvc. unfold masked_mean. apply mean_le.
  unfold zipWith2, all_cells in *.
  assert (Hha : length hinge = length above) by congruence.
  assert (Hhv : length hinge = length reverse) by congruence.
  clear Hh Ha Hv. revert above reverse Hha Hhv Hac Hvc.
  induction Hhc as [|h hinge Hhrow _ IH]; intros [|a above] [|v reverse] Hha Hhv Hac Hvc;
    simpl in *; try discriminate; constructor.
  - inversion Hac; subst. inversion Hvc; subst. apply sum_masked_le; assumption.
  - inversion Hac; subst. inversion Hvc; subst. apply IH; auto.
Qed.

(** Whenever [CosineHingeLoss.calculate_loss] returns its scalar, the
    adaptive term only reweights part of the origin term: the loss lies
    between [origin_loss] and [(adaptive + 1) * origin_loss], where
    [origin_loss] is the hinge masked by [1 - labels], summed over the
    classes and averaged over the batch. *)
Theorem cosine_hinge_loss_between_origin_terms :
  forall (FLAGS : Flags) (dims : nat) (predictions positives labels : Tensor2)
         (margin adaptive : option R) (g : Rng),
    batch_size FLAGS <> O ->
    has_shape2 (batch_size FLAGS) dims predictions ->
    has_shape2 (num_classes FLAGS) dims positives ->
    has_shape2 (batch_size FLAGS) (num_classes FLAGS) labels ->
    all_cells binary labels ->
    Forall (Exists (fun v => v = 1)) labels ->
    0 < keyword 5 adaptive ->
    exists (sim_pos sim_sample_pos : Tensor2) (v origin_loss : R),
      CosineHingeLoss_confidence predictions positives = Ok sim_pos
      /\ CosineHingeLoss_sim_sample_pos FLAGS predictions positives labels g
         = Ok sim_sample_pos
      /\ origin_loss = masked_mean (cosine_hinge (keyword 0.2 margin) sim_pos sim_sample_pos)
                                   (map (map (fun y => 1 - y)) labels)
      /\ CosineHingeLoss_calculate_loss FLAGS predictions positives labels
                                        margin adaptive g = Ok (Scalar v)
      /\ 0 <= origin_loss
      /\ origin_loss <= v <= (keyword 5 adaptive + 1) * origin_loss.
Proof.
  intros FLAGS dims predictions positives labels margin adaptive g
         Hrows Hp Hq Hl Hbin Hpos Ha.
  destruct (CosineHingeLoss_value FLAGS dims predictions positives labels margin adaptive g
                                  Hrows Hp Hq Hl Hbin Hpos)
    as [sim_pos [sim_sample_pos [Hsim [Hsample [Hhshape [Hscalar _]]]]]].
  destruct (Hscalar Ha Hrows) as [wrong [Hwrong [_ [Hwcells Hloss]]]].
  pose proof (classes_nonzero _ _ _ Hrows Hl Hpos) as Hc.
  destruct (CosineHingeLoss_mask_wrong_value _ _ _ predictions positives labels Hc Hp Hq Hl)
    as [sim_pos' [min_sim [Hsim' [Hshape [_ [_ [Hmshape Hvalue]]]]]]].
  rewrite Hsim in Hsim'. injection Hsim' as <-.
  rewrite Hwrong in Hvalue. injection Hvalue as Hvalue.
  exists sim_pos, sim_sample_pos. eexists. eexists.
  split; [exact Hsim|]. split; [exact Hsample|]. split; [reflexivity|].
  split; [exact Hloss|].
  set (hinge := cosine_hinge (keyword 0.2 margin) sim_pos sim_sample_pos) in *.
  assert (Hrev : all_cells (fun w => 0 <= w) (map (map (fun y => 1 - y)) labels)).
  { apply all_cells_map. eapply all_cells_impl; [|exact Hbin]. intros y [-> | ->]; lra. }
  assert (Hhcells : all_cells (fun x => 0 <= x) hinge).
  { unfold hinge, cosine_hinge. apply all_cells_zipWith2. intros s s'. apply Rmax_r. }
  pose proof (masked_mean_nonneg (keyword 0.2 margin) sim_pos sim_sample_pos _ Hrev) as Horigin.
  pose proof (masked_mean_nonneg (keyword 0.2 margin) sim_pos sim_sample_pos wrong Hwcells)
    as Hadaptive.
  fold hinge in Horigin, Hadaptive.
  assert (Hle : masked_mean hinge wrong <= masked_mean hinge (map (map (fun y => 1 - y)) labels)).
  { rewrite Hvalue.
    replace (scalar_rsub2 1.0 labels) with (map (map (fun y => 1 - y)) labels).
    2:{ unfold scalar_rsub2. apply map_ext. intros r. apply map_ext. intros y. lra. }
    apply (masked_mean_le _ _ _ (batch_size FLAGS) (num_classes FLAGS)); try assumption.
    - unfold tf_cast_bool_float32. apply has_shape2_map2.
      destruct Hshape as [Hs Hrs], Hmshape as [Hm Hrm]. split.
      + rewrite zipWith_length; congruence.
      + apply Forall_zipWith. intros r d Hr _. rewrite length_map.
        rewrite Forall_forall in Hrs. apply Hrs. exact Hr.
    - apply has_shape2_map2. exact Hl.
    - unfold tf_cast_bool_float32, all_cells. rewrite Forall_map.
      apply Forall_forall. intros r _. rewrite Forall_map.
      apply Forall_forall. intros bit _. destruct bit; lra. }
  split; [exact Horigin|]. nra.
Qed.

Lemma cosine_hinge_loss_between_origin_terms_witness :
  exists (sim_pos sim_sample_pos : Tensor2) (v origin_loss : R),
    CosineHingeLoss_confidence [[1; 0]] [[1; 0]; [0; 1]] = Ok sim_pos
    /\ CosineHingeLoss_sim_sample_pos (example_FLAGS 2 1) [[1; 0]] [[1; 0]; [0; 1]]
                                       [[1; 0]] counting_rng
       = Ok sim_sample_pos
    /\ origin_loss = masked_mean (cosine_hinge (keyword 0.2 None) sim_pos sim_sample_pos)
                                 (map (map (fun y => 1 - y)) [[1; 0]])
    /\ CosineHingeLoss_calculate_loss (example_FLAGS 2 1) [[1; 0]] [[1; 0]; [0; 1]]
                                      [[1; 0]] None None counting_rng = Ok (Scalar v)
    /\ 0 <= origin_loss
    /\ origin_loss <= v <= (keyword 5 None + 1) * origin_loss.
Proof.
  apply (cosine_hinge_loss_between_origin_terms (example_FLAGS 2 1) 2 [[1; 0]]
                                                [[1; 0]; [0; 1]] [[1; 0]] None None
                                                counting_rng).
  - discriminate.
  - split; [reflexivity | repeat constructor].
  - split; [reflexivity | repeat constructor].
  - split; [reflexivity | repeat constructor].
  - repeat constructor; unfold binary; lra.
  - repeat constructor.
  - simpl. lra.
Defined.

(** ** The random source *)

Lemma one_hot_binary (n j : nat) : Forall binary (one_hot n j).
Proof.
  revert j. induction n as [|n IH]; intros j; simpl; [constructor|].
  destruct j as [|j].
  - constructor; [right; reflexivity|].
    apply Forall_forall. intros x Hx. apply repeat_spec in Hx. left. exact Hx.
  - constructor; [left; reflexivity | apply IH].
Qed.

Lemma one_hot_has_one (n j : nat) : (j < n)%nat -> Exists (fun v => v = 1) (one_hot n j).
Proof.
  revert j. induction n as [|n IH]; intros j Hj; [lia|].
  destruct j as [|j]; simpl.
  - apply Exists_cons_hd. reflexivity.
  - apply Exists_cons_tl. apply IH. lia.
Qed.

Lemma one_hot_nth (n j c : nat) : nth_error (one_hot n j) c = Some 1 -> c = j.
Proof.
  revert j c. induction n as [|n IH]; intros j c H; simpl in H.
  - destruct c; discriminate.
  - destruct j as [|j]; destruct c as [|c]; simpl in H.
    + reflexivity.
    + apply nth_error_In, repeat_spec in H. lra.
    + injection H as H. lra.
    + f_equal. apply IH. exact H.
Qed.

Lemma all_equal_is_repeat (j : nat) (s : list nat) :
  Forall (fun c => c = j) s -> s = repeat j (length s).
Proof.
  induction 1 as [|c s Hc _ IH]; simpl; [reflexivity|]. rewrite Hc, <- IH. reflexivity.
Qed.

Lemma positive_samples_of_one_hot (FLAGS : Flags) (targets : list nat) (g : Rng) :
  length targets = batch_size FLAGS ->
  Forall (fun j => (j < num_classes FLAGS)%nat) targets ->
  exists g',
    CosineHingeLoss_positive_samples FLAGS (map (one_hot (num_classes FLAGS)) targets) g
    = Ok (tf_stack (map (fun j => repeat j (num_classes FLAGS)) targets), g').
Proof.
  intros Hlen Hrange.
  destruct (positive_samples_total FLAGS (map (one_hot (num_classes FLAGS)) targets) g)
    as [samples [g' [Hrun Hrel]]].
  - split.
    + rewrite length_map. exact Hlen.
    + rewrite Forall_map. apply Forall_forall. intros j _. apply one_hot_length.
  - unfold all_cells. rewrite Forall_map. apply Forall_forall. intros j _.
    apply one_hot_binary.
  - rewrite Forall_map. eapply Forall_impl; [|exact Hrange].
    intros j Hj. simpl in Hj. apply one_hot_has_one. exact Hj.
  - exists g'. rewrite Hrun. do 3 f_equal.
    clear Hrun Hlen Hrange. revert samples Hrel.
    induction targets as [|j targets IH]; intros samples Hrel; simpl in Hrel;
      inversion Hrel; subst; [reflexivity|].
    simpl. f_equal.
    + match goal with H : _ /\ _ |- _ => destruct H as [Hl Hs] end.
      rewrite <- Hl. apply all_equal_is_repeat.
      eapply Forall_impl; [|exact Hs]. intros c Hc. simpl in Hc.
      apply (one_hot_nth (num_classes FLAGS)). exact Hc.
    + apply IH. assumption.
Qed.

(** With one hot labels nothing is left to chance: every example has a
    single class to sample, so [CosineHingeLoss.calculate_loss] returns the
    same outcome for every random source. *)
Theorem cosine_hinge_loss_on_one_hot_labels_ignores_the_random_source :
  forall (FLAGS : Flags) (predictions positives : Tensor2) (targets : list nat)
         (margin adaptive : option R) (g g' : Rng),
    length targets = batch_size FLAGS ->
    Forall (fun j => (j < num_classes FLAGS)%nat) targets ->
    CosineHingeLoss_calculate_loss FLAGS predictions positives
                                   (map (one_hot (num_classes FLAGS)) targets)
                                   margin adaptive g
    = CosineHingeLoss_calculate_loss FLAGS predictions positives
                                     (map (one_hot (num_classes FLAGS)) targets)
                                     margin adaptive g'.
Proof.
  intros FLAGS predictions positives targets margin adaptive g g' Hlen Hrange.
  destruct (positive_samples_of_one_hot FLAGS targets g Hlen Hrange) as [g1 H1].
  destruct (positive_samples_of_one_hot FLAGS targets g' Hlen Hrange) as [g2 H2].
  assert (Hsample :
            CosineHingeLoss_sim_sample_pos FLAGS predictions positives
                                           (map (one_hot (num_classes FLAGS)) targets) g
            = CosineHingeLoss_sim_sample_pos FLAGS predictions positives
                                             (map (one_hot (num_classes FLAGS)) targets) g').
  { unfold CosineHingeLoss_sim_sample_pos. rewrite H1, H2. reflexivity. }
  unfold CosineHingeLoss_calculate_loss, CosineHingeLoss_hinge_loss.
  rewrite Hsample. reflexivity.
Qed.

Lemma cosine_hinge_loss_on_one_hot_labels_ignores_the_random_source_witness :
  CosineHingeLoss_calculate_loss (example_FLAGS 2 2) [[1; 0]; [3; 4]] [[1; 0]; [0; 1]]
                                 (map (one_hot (num_classes (example_FLAGS 2 2))) [1; 0]%nat)
                                 None None counting_rng
  = CosineHingeLoss_calculate_loss (example_FLAGS 2 2) [[1; 0]; [3; 4]] [[1; 0]; [0; 1]]
                                   (map (one_hot (num_classes (example_FLAGS 2 2))) [1; 0]%nat)
                                   None None {| raw := fun k => (5 * k + 3)%nat; cursor := 9 |}.
Proof.
  apply (cosine_hinge_loss_on_one_hot_labels_ignores_the_random_source
           (example_FLAGS 2 2) [[1; 0]; [3; 4]] [[1; 0]; [0; 1]] [1; 0]%nat None None).
  - reflexivity.
  - repeat constructor.
Defined.

(** ** The softmax loss of uniform predictions *)

Lemma sum_exp_repeat (c : R) (n : nat) : sum (map exp (repeat c n)) = INR n * exp c.
Proof.
  induction n as [|n IH].
  - simpl. ring.
  - rewrite S_INR. simpl. rewrite IH. ring.
Qed.

Lemma softmax_row_uniform (c : R) (n : nat) :
  softmax_row (repeat c n) = repeat (/ INR n) n.
Proof.
  unfold softmax_row. rewrite sum_exp_repeat.
  destruct n as [|n]; [reflexivity|].
  assert (Hn : 0 < INR (S n)) by (apply lt_0_INR; lia).
  pose proof (exp_pos c) as Hc.
  assert (H : forall k d, 0 < d ->
                map (fun x => x / (d * exp c)) (map exp (repeat c k)) = repeat (/ d) k).
  { intros k d Hd. induction k as [|k IH]; simpl; [reflexivity|].
    rewrite IH. f_equal. field. split; lra. }
  apply H. exact Hn.
Qed.

Lemma sum_zipWith_constant (d k : R) (y : Tensor1) :
  sum (zipWith (fun yv sv => yv / d * ln sv) y (repeat k (length y)))
  = sum y / d * ln k.
Proof.
  induction y as [|x y IH]; simpl.
  - unfold Rdiv. ring.
  - rewrite IH. unfold Rdiv. ring.
Qed.

Lemma sum_binary_with_one (y : Tensor1) :
  Forall binary y -> Exists (fun v => v = 1) y -> 1 <= sum y.
Proof.
  intros Hbin Hex.
  assert (Hnn : forall l, Forall binary l -> 0 <= sum l).
  { intros l Hl. apply sum_nonneg. eapply Forall_impl; [|exact Hl].
    intros v [-> | ->]; lra. }
  induction Hex as [v y Hv | v y _ IH]; apply Forall_cons_iff in Hbin;
    destruct Hbin as [Hvb Hy]; simpl.
  - pose proof (Hnn y Hy). lra.
  - specialize (IH Hy). destruct Hvb as [-> | ->]; lra.
Qed.

Lemma mean_constant (c : R) (l : list R) :
  l <> [] -> Forall (fun x => x = c) l -> mean l = c.
Proof.
  intros Hne Hall. unfold mean.
  assert (Hs : sum l = INR (length l) * c).
  { clear Hne. induction Hall as [|x l Hx _ IH].
    - simpl. ring.
    - change (length (x :: l)) with (S (length l)). rewrite S_INR. simpl sum.
      rewrite IH, Hx. ring. }
  rewrite Hs. field.
  apply not_0_INR. destruct l; [congruence | simpl; lia].
Qed.

(** When every example gives all its classes the same prediction, and has
    at least one positive label among labels in {0,1},
    [SoftmaxLoss.calculate_loss] is [log(num_classes)], whatever the labels:
    the normalised labels of an example add up to 1. *)
Theorem softmax_loss_of_uniform_predictions :
  forall (rows cols : nat) (predictions labels : Tensor2),
    rows <> O ->
    has_shape2 rows cols predictions ->
    has_shape2 rows cols labels ->
    all_cells binary labels ->
    Forall (Exists (fun v => v = 1)) labels ->
    Forall (fun r => exists c, r = repeat c cols) predictions ->
    SoftmaxLoss_calculate_loss predictions labels = Ok (ln (INR cols)).
Proof.
  intros rows cols predictions labels Hrows Hp Hy Hbin Hpos Hunif.
  rewrite (SoftmaxLoss_value rows cols) by assumption. f_equal.
  pose proof (classes_nonzero _ _ _ Hrows Hy Hpos) as Hcols.
  unfold softmax_formula. apply mean_constant.
  - intros Hnil.
    assert (Hlen : length (zipWith (softmax_example 10e-8) labels predictions) = rows).
    { destruct Hp as [Hp _], Hy as [Hy _]. rewrite zipWith_length; [exact Hy|].
      transitivity rows; [exact Hy | symmetry; exact Hp]. }
    rewrite Hnil in Hlen. simpl in Hlen. congruence.
  - apply Forall_zipWith. intros y p Hyin Hpin.
    rewrite Forall_forall in Hunif. destruct (Hunif p Hpin) as [c ->].
    destruct Hy as [_ Hy]. rewrite Forall_forall in Hy. pose proof (Hy y Hyin) as Hylen.
    unfold all_cells in Hbin. rewrite Forall_forall in Hbin, Hpos.
    pose proof (sum_binary_with_one y (Hbin y Hyin) (Hpos y Hyin)) as Hsum.
    unfold softmax_example. rewrite softmax_row_uniform.
    rewrite <- Hylen at 2. rewrite sum_zipWith_constant.
    rewrite Rmax_left by lra.
    assert (Hn : 0 < INR cols) by (apply lt_0_INR; lia).
    rewrite ln_Rinv by exact Hn. field. lra.
Qed.

Lemma softmax_loss_of_uniform_predictions_witness :
  SoftmaxLoss_calculate_loss [[2; 2; 2]; [-1; -1; -1]] [[1; 0; 1]; [0; 1; 0]]
  = Ok (ln (INR 3)).
Proof.
  apply (softmax_loss_of_uniform_predictions 2 3).
  - discriminate.
  - split; [reflexivity | repeat constructor].
  - split; [reflexivity | repeat constructor].
  - repeat constructor; unfold binary; lra.
  - constructor; [apply Exists_cons_hd; reflexivity|].
    constructor; [apply Exists_cons_tl, Exists_cons_hd; reflexivity|]. constructor.
  - constructor; [exists 2; reflexivity|]. constructor; [exists (-1); reflexivity|].
    constructor.
Defined.

(** ** The two weights of the weighted cross entropy *)

Lemma zipWith_length_any {A B C D : Type} (f : A -> B -> C) (g : A -> B -> D) xs ys :
  length (zipWith f xs ys) = length (zipWith g xs ys).
Proof.
  revert ys. induction xs as [|x xs IH]; intros [|y ys]; simpl; try reflexivity.
  rewrite (IH ys). reflexivity.
Qed.

Lemma sum_zipWith_linear (a b : R) (f g : R -> R -> R) (xs ys : Tensor1) :
  sum (zipWith (fun x y => a * f x y + b * g x y) xs ys)
  = a * sum (zipWith f xs ys) + b * sum (zipWith g xs ys).
Proof.
  revert ys. induction xs as [|x xs IH]; intros [|y ys]; simpl; try ring.
  rewrite IH. ring.
Qed.

Lemma sum_rows_linear (a b : R) (f g : R -> R -> R) (t u : Tensor2) :
  sum (map sum (zipWith2 (fun x y => a * f x y + b * g x y) t u))
  = a * sum (map sum (zipWith2 f t u)) + b * sum (map sum (zipWith2 g t u)).
Proof.
  unfold zipWith2. revert u. induction t as [|r t IH]; intros [|s u]; simpl; try ring.
  rewrite IH, sum_zipWith_linear. ring.
Qed.

Lemma weighted_xent_formula_separates (fn_weight fp_weight eps : R) predictions labels :
  weighted_xent_formula fn_weight fp_weight eps predictions labels
  = fn_weight * weighted_xent_formula 1 0 eps predictions labels
    + fp_weight * weighted_xent_formula 0 1 eps predictions labels.
Proof.
  unfold weighted_xent_formula, mean.
  rewrite !length_map. unfold zipWith2.
  rewrite (zipWith_length_any (zipWith (xent_cell fn_weight fp_weight eps))
                              (zipWith (xent_cell 1 0 eps))).
  rewrite (zipWith_length_any (zipWith (xent_cell 0 1 eps))
                              (zipWith (xent_cell 1 0 eps))).
  fold (@zipWith2 R R R (xent_cell fn_weight fp_weight eps)).
  fold (@zipWith2 R R R (xent_cell 1 0 eps)).
  fold (@zipWith2 R R R (xent_cell 0 1 eps)).
  rewrite (zipWith2_ext (xent_cell fn_weight fp_weight eps)
                        (fun y p => fn_weight * xent_cell 1 0 eps y p
                                    + fp_weight * xent_cell 0 1 eps y p))
    by (intros; unfold xent_cell; ring).
  rewrite sum_rows_linear. unfold Rdiv. ring.
Qed.

(** The two punishment weights act apart and linearly: the weighted cross
    entropy is [false_negative_punishment] times the loss under the weights
    (1, 0) plus [false_positive_punishment] times the loss under the weights
    (0, 1). *)
Theorem weighted_cross_entropy_separates_its_weights :
  forall (FLAGS only_negatives only_positives : Flags) (rows cols : nat)
         (predictions labels : Tensor2),
    false_negative_punishment only_negatives = 1 ->
    false_positive_punishment only_negatives = 0 ->
    false_negative_punishment only_positives = 0 ->
    false_positive_punishment only_positives = 1 ->
    rows <> O ->
    has_shape2 rows cols predictions ->
    has_shape2 rows cols labels ->
    all_cells (in_log_domain (1 / 100000)) predictions ->
    exists missed raised : R,
      WeightedCrossEntropyLoss_calculate_loss only_negatives predictions labels = Ok missed
      /\ WeightedCrossEntropyLoss_calculate_loss only_positives predictions labels = Ok raised
      /\ WeightedCrossEntropyLoss_calculate_loss FLAGS predictions labels
         = Ok (false_negative_punishment FLAGS * missed
               + false_positive_punishment FLAGS * raised).
Proof.
  intros FLAGS F10 F01 rows cols predictions labels H10n H10p H01n H01p Hrows Hp Hy Hdom.
  replace (1 / 100000) with 10e-6 in Hdom by lra.
  eexists. eexists. split; [|split].
  - rewrite (WeightedCrossEntropyLoss_value F10 rows cols) by assumption.
    rewrite H10n, H10p. reflexivity.
  - rewrite (WeightedCrossEntropyLoss_value F01 rows cols) by assumption.
    rewrite H01n, H01p. reflexivity.
  - rewrite (WeightedCrossEntropyLoss_value FLAGS rows cols) by assumption.
    f_equal. apply weighted_xent_formula_separates.
Qed.

Lemma weighted_cross_entropy_separates_its_weights_witness :
  exists missed raised : R,
    WeightedCrossEntropyLoss_calculate_loss
      {| false_negative_punishment := 1; false_positive_punishment := 0;
         num_classes := 2; batch_size := 1 |} [[0.9; 0.1]] [[1; 0]] = Ok missed
    /\ WeightedCrossEntropyLoss_calculate_loss
         {| false_negative_punishment := 0; false_positive_punishment := 1;
            num_classes := 2; batch_size := 1 |} [[0.9; 0.1]] [[1; 0]] = Ok raised
    /\ WeightedCrossEntropyLoss_calculate_loss
         {| false_negative_punishment := 3; false_positive_punishment := 0.5;
            num_classes := 2; batch_size := 1 |} [[0.9; 0.1]] [[1; 0]]
       = Ok (false_negative_punishment
               {| false_negative_punishment := 3; false_positive_punishment := 0.5;
                  num_classes := 2; batch_size := 1 |} * missed
             + false_positive_punishment
                 {| false_negative_punishment := 3; false_positive_punishment := 0.5;
                    num_classes := 2; batch_size := 1 |} * raised).
Proof.
  apply (weighted_cross_entropy_separates_its_weights
           {| false_negative_punishment := 3; false_positive_punishment := 0.5;
              num_classes := 2; batch_size := 1 |}
           {| false_negative_punishment := 1; false_positive_punishment := 0;
              num_classes := 2; batch_size := 1 |}
           {| false_negative_punishment := 0; false_positive_punishment := 1;
              num_classes := 2; batch_size := 1 |} 1 2).
  - reflexivity.
  - reflexivity.
  - reflexivity.
  - reflexivity.
  - discriminate.
  - split; [reflexivity | repeat constructor].
  - split; [reflexivity | repeat constructor].
  - repeat constructor; simpl; lra.
Defined.

(** ** The cells of the elementwise hinge *)

Lemma CosineHingeLoss_sim_sample_pos_range
      (FLAGS : Flags) dims predictions positives labels (g : Rng) :
  batch_size FLAGS <> O ->
  has_shape2 (batch_size FLAGS) dims predictions ->
  has_shape2 (num_classes FLAGS) dims positives ->
  has_shape2 (batch_size FLAGS) (num_classes FLAGS) labels ->
  all_cells binary labels ->
  Forall (Exists (fun v => v = 1)) labels ->
  exists sim_sample_pos,
    CosineHingeLoss_sim_sample_pos FLAGS predictions positives labels g = Ok sim_sample_pos
    /\ all_cells (fun s => -1 <= s <= 1) sim_sample_pos.
Proof.
  intros Hbatch Hp Hq Hl Hbin Hpos.
  destruct (CosineHingeLoss_sim_sample_pos_total FLAGS dims predictions positives labels g
                                                 Hbatch Hp Hq Hl Hbin Hpos)
    as [sim_sample_pos [Hrun _]].
  exists sim_sample_pos. split; [exact Hrun|].
  unfold CosineHingeLoss_sim_sample_pos in Hrun. cbv zeta in Hrun.
  destruct (CosineHingeLoss_positive_samples FLAGS labels g) as [[samples g']|e];
    simpl in Hrun; [|discriminate].
  destruct (tf_embedding_lookup positives samples) as [sample_positives|e];
    simpl in Hrun; [|discriminate].
  unfold einsum_ik_ijk_ij in Hrun.
  assert (Hgen : forall a t out,
             zipWithM (fun a_i t_i => mapM (fun t_ij => dot a_i t_ij) t_i)
                      (map l2_normalize_row a) (map (map l2_normalize_row) t) = Ok out ->
             all_cells (fun s => -1 <= s <= 1) out).
  { induction a as [|u a IH]; intros [|m t] out H; simpl in H; try discriminate.
    - injection H as <-. constructor.
    - destruct (mapM (fun t_ij => dot (l2_normalize_row u) t_ij) (map l2_normalize_row m))
        as [row|e] eqn:Hrow; simpl in H; [|discriminate].
      match type of H with
      | bind ?c _ = _ => destruct c as [rest|e] eqn:Hrest; simpl in H; [|discriminate]
      end.
      injection H as <-. constructor; [|apply (IH t); exact Hrest].
      apply (mapM_forall _ _ _ _ Hrow). intros w s Hw Hdot.
      apply in_map_iff in Hw. destruct Hw as [v [<- _]].
      unfold dot in Hdot. destruct (Nat.eqb _ _); [|discriminate].
      injection Hdot as <-.
      pose proof (dot_product_bound (l2_normalize_row u) (l2_normalize_row v)).
      pose proof (dot_product_lower_bound (l2_normalize_row u) (l2_normalize_row v)).
      pose proof (l2_normalize_row_norm u). pose proof (l2_normalize_row_norm v). lra. }
  apply (Hgen predictions sample_positives). exact Hrun.
Qed.

(** The matrix that [CosineHingeLoss.calculate_loss] returns for a non
    empty batch when [adaptive <= 0] has shape [batch, num_classes], and
    each of its cells lies between 0 and [max(2 + margin, 0)], two cosine
    similarities being at most 2 apart. *)
Theorem cosine_hinge_fallback_cells_are_bounded :
  forall (FLAGS : Flags) (dims : nat) (predictions positives labels : Tensor2)
         (margin adaptive : option R) (g : Rng),
    batch_size FLAGS <> O ->
    has_shape2 (batch_size FLAGS) dims predictions ->
    has_shape2 (num_classes FLAGS) dims positives ->
    has_shape2 (batch_size FLAGS) (num_classes FLAGS) labels ->
    all_cells binary labels ->
    Forall (Exists (fun v => v = 1)) labels ->
    keyword 5 adaptive <= 0 ->
    exists hinge : Tensor2,
      CosineHingeLoss_calculate_loss FLAGS predictions positives labels margin adaptive g
      = Ok (Elementwise hinge)
      /\ has_shape2 (batch_size FLAGS) (num_classes FLAGS) hinge
      /\ all_cells (fun h => 0 <= h <= Rmax (2 + keyword 0.2 margin) 0) hinge.
Proof.
  intros FLAGS dims predictions positives labels margin adaptive g
         Hrows Hp Hq Hl Hbin Hpos Ha.
  destruct (CosineHingeLoss_value FLAGS dims predictions positives labels margin adaptive g
                                  Hrows Hp Hq Hl Hbin Hpos)
    as [sim_pos [sim_sample_pos [Hsim [Hsample [Hshape [_ Hmatrix]]]]]].
  eexists. split; [exact (Hmatrix Ha)|]. split; [exact Hshape|].
  destruct (CosineHingeLoss_confidence_range _ _ _ predictions positives Hp Hq)
    as [sim_pos' [Hsim' [_ Hrange]]].
  rewrite Hsim in Hsim'. injection Hsim' as <-.
  destruct (CosineHingeLoss_sim_sample_pos_range FLAGS dims predictions positives labels g
                                                 Hrows Hp Hq Hl Hbin Hpos)
    as [sim_sample_pos' [Hsample' Hsrange]].
  rewrite Hsample in Hsample'. injection Hsample' as <-.
  unfold cosine_hinge.
  apply (all_cells_zipWith2_in _ (fun s => -1 <= s <= 1) (fun s => -1 <= s <= 1));
    try assumption.
  intros s s' Hs Hs'. split; [apply Rmax_r|].
  apply Rle_max_compat_r. lra.
Qed.

Lemma cosine_hinge_fallback_cells_are_bounded_witness :
  exists hinge : Tensor2,
    CosineHingeLoss_calculate_loss (example_FLAGS 2 1) [[1; 0]] [[1; 0]; [0; 1]] [[1; 0]]
                                   None (Some 0) counting_rng
    = Ok (Elementwise hinge)
    /\ has_shape2 (batch_size (example_FLAGS 2 1)) (num_classes (example_FLAGS 2 1)) hinge
    /\ all_cells (fun h => 0 <= h <= Rmax (2 + keyword 0.2 None) 0) hinge.
Proof.
  apply (cosine_hinge_fallback_cells_are_bounded (example_FLAGS 2 1) 2 [[1; 0]]
                                                 [[1; 0]; [0; 1]] [[1; 0]]
                                                 None (Some 0) counting_rng).
  - discriminate.
  - split; [reflexivity | repeat constructor].
  - split; [reflexivity | repeat constructor].
  - split; [reflexivity | repeat constructor].
  - repeat constructor; unfold binary; lra.
  - repeat constructor.
  - simpl. lra.
Defined.
